(** * rsllm / bin/music_player.py: the watch-concatenate-play loop

    A shallow embedding of the script [src/bin/music_player.py] and the
    properties its specification states about it.

    The script is sequential glue over the filesystem and two external
    programs (ffmpeg and mpv).  It is embedded as follows.

    - [bytes] is [list byte].  A Python [str] is a [string] holding the
      bytes that [os.fsencode] gives for it: UTF-8, with the bytes of a file
      name that are not UTF-8 kept as they are (Python holds them as lone
      surrogates).  The file system names files by these bytes.  A text file
      is read and written in strict UTF-8: reading bytes that are not valid
      UTF-8 raises [UnicodeDecodeError], writing a [str] that holds such
      file-name bytes raises [UnicodeEncodeError].
    - The filesystem and the process table are a [World]: a finite map from
      paths to files (a time stamp in nanoseconds and the contents), the
      answer [os.walk] gives for a directory, and a clock.  The file system
      is flat: [open(path, 'w')] always succeeds; reads of absent paths
      raise [FileNotFoundError].
    - [os.path.getmtime] returns a binary64 float, computed from the time
      stamp as CPython does; it is held exactly, as an integer number of
      units of 2^-82 second.
    - Effects are threaded through a small monad [M] carrying the world,
      a raised exception if any, and the list of observable events of the
      run (lines printed, external commands spawned, script functions
      entered).
    - The external programs are a parameter [proc] of the development: an
      arbitrary function from the command line and the world to an exit
      outcome and a new world.
    - [hashlib.md5] is a parameter too, through the interface [HashAlg] of
      hash objects; the instance [md5] below is MD5 itself. *)

From Stdlib Require Import ZArith Ascii String.
From Stdlib.Strings Require Import Byte.
From stdpp Require Import base option list sorting gmap strings.
From Equations Require Import Equations.
From Equations.Prop Require Import Logic.

Local Open Scope string_scope.
Local Open Scope Z_scope.
Local Open Scope list_scope.

(** ** Python values and built-ins *)

Abbreviation bytes := (list byte).

Definition encode (s : string) : bytes := list_byte_of_string s.
Definition decode (b : bytes) : string := string_of_list_byte b.

(** [str.endswith]: some tail of [s] is [suffix], compared character by
    character. *)
Fixpoint endswith (s suffix : string) : bool :=
  if String.eqb s suffix then true
  else match s with
       | EmptyString => false
       | String _ s' => endswith s' suffix
       end.

(** [str.startswith]. *)
Fixpoint startswith (s pre : string) : bool :=
  match pre, s with
  | EmptyString, _ => true
  | String c pre', String d s' => Ascii.eqb c d && startswith s' pre'
  | String _ _, EmptyString => false
  end.

(** [str.isspace] on an ASCII character. *)
Definition isspace (c : ascii) : bool :=
  let n := nat_of_ascii c in
  ((9 <=? n) && (n <=? 13) || (28 <=? n) && (n <=? 32))%nat.

(** The number of bytes of the whitespace character at the head of [s], and
    0 when [s] does not start with one.  The whitespace characters are those
    of [str.isspace]: the ASCII ones, U+0085, U+00A0, U+1680, U+2000 to
    U+200A, U+2028, U+2029, U+202F, U+205F and U+3000, in UTF-8. *)
Definition whitespace_length (s : string) : nat :=
  match s with
  | EmptyString => O
  | String c r =>
      if isspace c then 1%nat
      else
        match r with
        | String d r' =>
            let c := N_of_ascii c in
            let d := N_of_ascii d in
            if (c =? 194)%N && ((d =? 133)%N || (d =? 160)%N) then 2%nat
            else
              match r' with
              | String e _ =>
                  let e := N_of_ascii e in
                  if (c =? 225)%N && (d =? 154)%N && (e =? 128)%N
                     || (c =? 226)%N && (d =? 128)%N
                        && ((128 <=? e)%N && (e <=? 138)%N || (e =? 168)%N
                            || (e =? 169)%N || (e =? 175)%N)
                     || (c =? 226)%N && (d =? 129)%N && (e =? 159)%N
                     || (c =? 227)%N && (d =? 128)%N && (e =? 128)%N
                  then 3%nat
                  else O
              | EmptyString => O
              end
        | EmptyString => O
        end
  end.

(** [s[n:]]. *)
Fixpoint str_drop (n : nat) (s : string) : string :=
  match n, s with
  | S k, String _ r => str_drop k r
  | _, _ => s
  end.

(** [str.lstrip()] with no argument: the whitespace characters at the head
    are dropped one after the other. *)
Equations? lstrip (s : string) : string by wf (String.length s) lt :=
  lstrip s with inspect (whitespace_length s) := {
    | exist _ O _ := s;
    | exist _ (S k) _ := lstrip (str_drop (S k) s) }.
Proof.
  destruct s as [|c r]; [discriminate|]. simpl. clear. revert r.
  induction k as [|k IH]; intros [|d r]; simpl; try lia.
  specialize (IH r). lia.
Qed.

(** A string of whitespace characters only. *)
Equations? whitespace_only (s : string) : bool by wf (String.length s) lt :=
  whitespace_only s with inspect (whitespace_length s) := {
    | exist _ O _ := String.eqb s "";
    | exist _ (S k) _ := whitespace_only (str_drop (S k) s) }.
Proof.
  destruct s as [|c r]; [discriminate|]. simpl. clear. revert r.
  induction k as [|k IH]; intros [|d r]; simpl; try lia.
  specialize (IH r). lia.
Qed.

(** [str.rstrip()] with no argument: the text is cut where only whitespace
    follows. *)
Fixpoint rstrip (s : string) : string :=
  match s with
  | EmptyString => EmptyString
  | String c r => if whitespace_only s then EmptyString else String c (rstrip r)
  end.

(** [str.strip()] with no argument. *)
Definition strip (s : string) : string := rstrip (lstrip s).

(** Strict UTF-8 (RFC 3629), as Python's codec checks it.  Between two
    characters the state is [None]; inside a character it is [Some (lo, hi,
    more)]: the next byte must lie in [lo..hi], and [more] continuation
    bytes follow it. *)
Definition utf8_state : Type := option (N * N * nat).

Definition utf8_step (st : utf8_state) (c : ascii) : option utf8_state :=
  let b := N_of_ascii c in
  match st with
  | None =>
      if (b <? 128)%N then Some None
      else if (194 <=? b)%N && (b <=? 223)%N then Some (Some (128, 191, O))%N
      else if (b =? 224)%N then Some (Some (160, 191, 1%nat))%N
      else if (225 <=? b)%N && (b <=? 236)%N || (238 <=? b)%N && (b <=? 239)%N
      then Some (Some (128, 191, 1%nat))%N
      else if (b =? 237)%N then Some (Some (128, 159, 1%nat))%N
      else if (b =? 240)%N then Some (Some (144, 191, 2%nat))%N
      else if (241 <=? b)%N && (b <=? 243)%N
      then Some (Some (128, 191, 2%nat))%N
      else if (b =? 244)%N then Some (Some (128, 143, 2%nat))%N
      else None
  | Some (lo, hi, more) =>
      if (lo <=? b)%N && (b <=? hi)%N then
        Some (match more with
              | O => None
              | S k => Some (128, 191, k)%N
              end)
      else None
  end.

Global Arguments utf8_step : simpl never.

Fixpoint utf8_run (st : utf8_state) (s : string) : option utf8_state :=
  match s with
  | EmptyString => Some st
  | String c r =>
      match utf8_step st c with
      | Some st' => utf8_run st' r
      | None => None
      end
  end.

(** The bytes of [s] are valid UTF-8: as a [str], [s] holds no undecodable
    file-name byte; as the contents of a file, [s] can be decoded. *)
Definition valid_utf8 (s : string) : bool :=
  match utf8_run None s with
  | Some None => true
  | _ => false
  end.

(** Rounding of an integer to 53 significant bits, to nearest, ties to
    even: the rounding of binary64 arithmetic, away from overflow and
    underflow. *)
Definition round53 (x : Z) : Z :=
  let a := Z.abs x in
  let sh := Z.max 0 (Z.log2 a - 52) in
  let q := Z.shiftr a sh in
  let r := a - Z.shiftl q sh in
  let q' :=
    if (2 ^ sh <? 2 * r) || (2 * r =? 2 ^ sh) && Z.odd q then q + 1 else q in
  Z.sgn x * Z.shiftl q' sh.

(** The float of [st_mtime] for a time stamp in nanoseconds.  CPython
    computes it in binary64 as [sec + 1e-9 * nsec]; the double nearest to
    [1e-9] is 4835703278458517 / 2^82.  The float is held as a number of
    units of 2^-82 second. *)
Definition float_of_mtime_ns (ns : Z) : Z :=
  let sec := ns / 10 ^ 9 in
  let nsec := ns mod 10 ^ 9 in
  round53 (round53 (sec * 2 ^ 82) + round53 (4835703278458517 * nsec)).

(** [sep.join(words)]. *)
Fixpoint str_join (sep : string) (words : list string) : string :=
  match words with
  | [] => ""
  | [w] => w
  | w :: ws => w +:+ sep +:+ str_join sep ws
  end.

(** The newline translation of a text file opened for reading with the
    default [newline=None]: ["\r\n"] and a lone ["\r"] become ["\n"]. *)
Definition CR : ascii := ascii_of_nat 13.
Definition LF : ascii := ascii_of_nat 10.

(** The string ["\n"]. *)
Definition NL : string := String LF EmptyString.

Fixpoint universal_newlines (s : string) : string :=
  match s with
  | EmptyString => EmptyString
  | String c s' =>
      if Ascii.eqb c CR then
        match s' with
        | String d s'' =>
            if Ascii.eqb d LF then String LF (universal_newlines s'')
            else String LF (universal_newlines s')
        | EmptyString => String LF EmptyString
        end
      else String c (universal_newlines s')
  end.

(** [posixpath.join] of two components. *)
Definition os_path_join (a b : string) : string :=
  if startswith b "/" then b
  else if String.eqb a "" || endswith a "/" then a +:+ b
  else a +:+ "/" +:+ b.

(** [sorted(l, key=...)] once the keys are known: a stable sort that only
    asks whether one key is less than another.  [insert_by_key] puts an
    entry in front of the first entry that is not smaller. *)
Fixpoint insert_by_key {A} (x : Z * A) (l : list (Z * A)) : list (Z * A) :=
  match l with
  | [] => [x]
  | y :: l' => if y.1 <? x.1 then y :: insert_by_key x l' else x :: l
  end.

Definition sort_by_key {A} (l : list (Z * A)) : list (Z * A) :=
  foldr insert_by_key [] l.

(** [bytes.hex()]. *)
Definition hex_digit (n : N) : ascii :=
  ascii_of_N (if (n <? 10)%N then 48 + n else 87 + n)%N.

Definition hex_of_byte (b : byte) : string :=
  let n := Byte.to_N b in
  String (hex_digit (n / 16)) (String (hex_digit (n mod 16)) EmptyString).

Fixpoint hex (b : bytes) : string :=
  match b with
  | [] => ""
  | x :: b' => hex_of_byte x +:+ hex b'
  end.

(** ** hashlib's hash objects

    A hash object accumulates the bytes it is fed.  The two laws are the
    documented contract of [update]: feeding [a] and then [b] is the same as
    feeding [a ++ b], and feeding nothing changes nothing. *)
Class HashAlg := {
  hash_state : Type;
  hash_new : hash_state;
  hash_update : hash_state → bytes → hash_state;
  hash_digest : hash_state → bytes;
  hash_update_app : ∀ h a b,
    hash_update (hash_update h a) b = hash_update h (a ++ b);
  hash_update_nil : ∀ h, hash_update h [] = h;
}.

Definition hexdigest `{HashAlg} (h : hash_state) : string := hex (hash_digest h).

(** ** The world: filesystem, directory listings, clock *)

(** A file: its modification time stamp, in nanoseconds since the epoch
    ([st_mtime_ns]), and its contents. *)
Record File := { f_mtime : Z; f_data : bytes }.

(** One triple of [os.walk]: root, sub-directories, file names. *)
Abbreviation walk_entry := (string * list string * list string)%type.

Record World := {
  fs : gmap string File;
  walk_of : string → list walk_entry;
  now : Z;
}.

Definition set_file (path : string) (f : File) (w : World) : World :=
  {| fs := <[path := f]> (fs w); walk_of := walk_of w; now := now w |}.

Definition path_exists (w : World) (path : string) : bool :=
  bool_decide (is_Some (fs w !! path)).

Definition data_at (w : World) (path : string) : option bytes :=
  f_data <$> fs w !! path.

(** ** Exceptions, events and the monad *)

Inductive exn :=
| FileNotFoundError (path : string)
| CalledProcessError (returncode : Z) (cmd : list string)
| UnicodeDecodeError (object : bytes)
| UnicodeEncodeError (object : string).

Inductive result (A : Type) :=
| Ok (a : A)
| Raise (e : exn).
Arguments Ok {A} a.
Arguments Raise {A} e.

(** How a spawned program ended: with an exit status, or not started at
    all because the executable is missing. *)
Inductive proc_outcome :=
| Exited (status : Z)
| NotStarted.

(** The functions of the script; entering one is recorded. *)
Inductive Func :=
| Fget_files_sorted_by_mtime
| Fgenerate_playlist
| Fcalculate_checksum
| Fread_previous_checksum
| Fwrite_new_checksum
| Fconcatenate_files
| Fplay_audio.

Inductive Event :=
| Called (f : Func)
| Printed (line : string)
| Spawned (cmd : list string) (r : proc_outcome).

#[export] Instance Func_eq_dec : EqDecision Func.
Proof. solve_decision. Defined.
#[export] Instance proc_outcome_eq_dec : EqDecision proc_outcome.
Proof. solve_decision. Defined.
#[export] Instance Event_eq_dec : EqDecision Event.
Proof. solve_decision. Defined.

Definition M (A : Type) : Type := World → result A * World * list Event.

Definition ret {A} (a : A) : M A := λ w, (Ok a, w, []).

Definition bind {A B} (m : M A) (k : A → M B) : M B := λ w,
  match m w with
  | (Ok a, w1, ev1) =>
      match k a w1 with
      | (r, w2, ev2) => (r, w2, ev1 ++ ev2)
      end
  | (Raise e, w1, ev1) => (Raise e, w1, ev1)
  end.

Notation "'let*' x ':=' m 'in' k" := (bind m (λ x, k))
  (at level 10, x name, m at level 100, k at level 200,
   format "'let*'  x  ':='  m  'in' '//' k").
Notation "m ';;;' k" := (bind m (λ _, k))
  (at level 100, k at level 200, right associativity,
   format "m  ';;;' '//' k").

Definition emit (e : Event) : M unit := λ w, (Ok tt, w, [e]).

(** [try: body except FileNotFoundError: handler]. *)
Definition try_except_FileNotFoundError {A} (body handler : M A) : M A := λ w,
  match body w with
  | (Raise (FileNotFoundError _), w1, ev1) =>
      match handler w1 with
      | (r, w2, ev2) => (r, w2, ev1 ++ ev2)
      end
  | other => other
  end.

(** [for x in l: body x]. *)
Fixpoint for_each {A} (l : list A) (body : A → M unit) : M unit :=
  match l with
  | [] => ret tt
  | x :: l' => body x ;;; for_each l' body
  end.

(** [for x in l: acc = body acc x], the accumulator being a local
    variable of the loop. *)
Fixpoint for_fold {A S} (l : list A) (acc : S) (body : S → A → M S) : M S :=
  match l with
  | [] => ret acc
  | x :: l' => let* acc' := body acc x in for_fold l' acc' body
  end.

(** [[f(x) for x in l]], stopping at the first exception. *)
Fixpoint map_M {A B} (f : A → M B) (l : list A) : M (list B) :=
  match l with
  | [] => ret []
  | x :: l' => let* y := f x in let* ys := map_M f l' in ret (y :: ys)
  end.

Definition print (line : string) : M unit := emit (Printed line).

(** ** Operating-system primitives *)

(** [os.walk(directory)]. *)
Definition os_walk (directory : string) : M (list walk_entry) := λ w,
  (Ok (walk_of w directory), w, []).

(** [os.path.getmtime(path)]: the float of the file's time stamp. *)
Definition os_path_getmtime (path : string) : M Z := λ w,
  match fs w !! path with
  | Some f => (Ok (float_of_mtime_ns (f_mtime f)), w, [])
  | None => (Raise (FileNotFoundError path), w, [])
  end.

(** [os.path.exists(path)]. *)
Definition os_path_exists (path : string) : M bool := λ w,
  (Ok (path_exists w path), w, []).

(** [open(path, "rb")]: the handle is the part of the file not read yet. *)
Definition open_rb (path : string) : M bytes := λ w,
  match fs w !! path with
  | Some f => (Ok (f_data f), w, [])
  | None => (Raise (FileNotFoundError path), w, [])
  end.

(** [f.read(n)] on a handle: the chunk and the advanced handle. *)
Definition file_read (n : nat) (f : bytes) : bytes * bytes :=
  (take n f, drop n f).

(** [iter(lambda: f.read(n), b"")]: the chunks read until the first empty
    one. *)
Equations? iter_read (n : nat) (f : bytes) : list bytes by wf (length f) lt :=
  iter_read n f with inspect (file_read n f) := {
    | exist _ ([], _) _ := [];
    | exist _ (chunk, f') _ := chunk :: iter_read n f' }.
Proof.
  destruct n, f; try discriminate. rewrite length_drop. simpl. lia.
Qed.

(** [open(path, 'r')] followed by [read()]: the contents are decoded,
    then the line ends translated. *)
Definition open_r_read (path : string) : M string := λ w,
  match fs w !! path with
  | Some f =>
      if valid_utf8 (decode (f_data f))
      then (Ok (universal_newlines (decode (f_data f))), w, [])
      else (Raise (UnicodeDecodeError (f_data f)), w, [])
  | None => (Raise (FileNotFoundError path), w, [])
  end.

(** [open(path, 'w')]: the file is created or truncated. *)
Definition open_w (path : string) : M unit := λ w,
  (Ok tt, set_file path {| f_mtime := now w; f_data := [] |} w, []).

(** [write(text)] on the handle of a file opened with [open_w].  The text
    is encoded when it is written; what was written before stays. *)
Definition file_write (path : string) (text : string) : M unit := λ w,
  if valid_utf8 text then
    let old := default [] (data_at w path) in
    (Ok tt,
     set_file path {| f_mtime := now w; f_data := old ++ encode text |} w, [])
  else (Raise (UnicodeEncodeError text), w, []).

(** [sorted(l, key=key)]: the keys are computed first, one call per
    element, then the elements are sorted on them. *)
Definition sorted {A} (l : list A) (key : A → M Z) : M (list A) :=
  let* keys := map_M key l in
  ret ((sort_by_key (zip keys l)).*2).

(** ** The script *)

(** Configuration. *)
Definition music_dir : string := "/Volumes/BrahmaSSD/music/AiGen".
Definition output_file : string := "/tmp/combined_playlist.wav".
Definition playlist_file : string := "/tmp/ffmpeg_playlist.txt".
Definition checksum_file : string := "/tmp/playlist_checksum.txt".

(** The default of the [extension] parameter of the scanner. *)
Definition default_extension : string := ".wav".

(** The chunk size of [calculate_checksum]. *)
Definition chunk_size : nat := 4096.

Definition ffmpeg_cmd (playlist_path output_path : string) : list string :=
  ["ffmpeg"; "-y"; "-hide_banner"; "-f"; "concat"; "-safe"; "0"; "-i";
   playlist_path; "-c"; "copy"; output_path].

Definition mpv_cmd (file_path : string) : list string :=
  ["mpv"; "--volume=50"; file_path].

Section Script.
Context `{HashAlg}.

(** The operating system running an external command to completion. *)
Variable proc : list string → World → proc_outcome * World.

(** [subprocess.run(cmd, check=True)]. *)
Definition subprocess_run_check (cmd : list string) : M unit := λ w,
  match proc cmd w with
  | (Exited status, w') =>
      if status =? 0 then (Ok tt, w', [Spawned cmd (Exited status)])
      else (Raise (CalledProcessError status cmd), w',
            [Spawned cmd (Exited status)])
  | (NotStarted, w') =>
      (Raise (FileNotFoundError (hd "" cmd)), w', [Spawned cmd NotStarted])
  end.

Definition get_files_sorted_by_mtime (directory extension : string)
  : M (list string) :=
  emit (Called Fget_files_sorted_by_mtime) ;;;
  let* triples := os_walk directory in
  let files :=
    fold_left (λ files '(root, dirs, filenames),
      fold_left (λ files filename,
        if endswith filename extension
        then files ++ [os_path_join root filename]
        else files) filenames files) triples [] in
  sorted files os_path_getmtime.

Definition generate_playlist (files : list string) (playlist_path : string)
  : M unit :=
  emit (Called Fgenerate_playlist) ;;;
  open_w playlist_path ;;;
  for_each files (λ file,
    file_write playlist_path ("file '" +:+ file +:+ "'" +:+ NL)).

Definition calculate_checksum (files : list string) : M string :=
  emit (Called Fcalculate_checksum) ;;;
  let* hash_md5 :=
    for_fold files hash_new (λ hash_md5 file,
      let* f := open_rb file in
      ret (fold_left hash_update (iter_read chunk_size f) hash_md5)) in
  ret (hexdigest hash_md5).

Definition read_previous_checksum (checksum_path : string) : M string :=
  emit (Called Fread_previous_checksum) ;;;
  try_except_FileNotFoundError
    (let* text := open_r_read checksum_path in ret (strip text))
    (ret "").

Definition write_new_checksum (checksum checksum_path : string) : M unit :=
  emit (Called Fwrite_new_checksum) ;;;
  open_w checksum_path ;;;
  file_write checksum_path checksum.

Definition concatenate_files (playlist_path output_path : string) : M unit :=
  emit (Called Fconcatenate_files) ;;;
  let cmd := ffmpeg_cmd playlist_path output_path in
  print ("Running command: " +:+ str_join " " cmd) ;;;
  subprocess_run_check cmd.

Definition play_audio (file_path : string) : M unit :=
  emit (Called Fplay_audio) ;;;
  subprocess_run_check (mpv_cmd file_path).

(** The rebuild branch of the loop body. *)
Definition rebuild (files : list string) (current_checksum : string) : M unit :=
  print "Changes detected or output file missing, regenerating..." ;;;
  generate_playlist files playlist_file ;;;
  concatenate_files playlist_file output_file ;;;
  write_new_checksum current_checksum checksum_file.

(** [current_checksum != previous_checksum or not os.path.exists(output_file)],
    the right operand being evaluated only when the left one is false. *)
Definition rebuild_needed (current_checksum previous_checksum : string)
  : M bool :=
  if negb (String.eqb current_checksum previous_checksum) then ret true
  else let* present := os_path_exists output_file in ret (negb present).

(** One pass through the body of [while True]. *)
Definition loop_body : M unit :=
  let* files := get_files_sorted_by_mtime music_dir default_extension in
  match files with
  | [] => print "No .wav files found in the directory."
  | _ :: _ =>
      let* current_checksum := calculate_checksum files in
      let* previous_checksum := read_previous_checksum checksum_file in
      let* changed := rebuild_needed current_checksum previous_checksum in
      (if changed then rebuild files current_checksum
       else print "No changes detected. Using existing combined audio file.") ;;;
      print "Playing combined playlist..." ;;;
      play_audio output_file
  end.

(** [while True]: the loop has no exit of its own, so a run is observed
    for a number of passes.  It is [Looping] if every pass so far
    returned, and [Crashed e] once a pass raised [e]. *)
Inductive loop_status :=
| Looping
| Crashed (e : exn).

Fixpoint main_loop (passes : nat) (w : World)
  : loop_status * World * list Event :=
  match passes with
  | O => (Looping, w, [])
  | S n =>
      match loop_body w with
      | (Ok _, w1, ev1) =>
          match main_loop n w1 with
          | (st, w2, ev2) => (st, w2, ev1 ++ ev2)
          end
      | (Raise e, w1, ev1) => (Crashed e, w1, ev1)
      end
  end.

End Script.

(** The files whose names end with [extension], with their full paths, in
    the order in which [os.walk] lists them. *)
Definition matching_files (w : World) (directory extension : string)
  : list string :=
  '(root, _, filenames) ← walk_of w directory;
  os_path_join root <$> filter (λ fn, endswith fn extension) filenames.

(** The modification time of a file of the world as [os.path.getmtime]
    returns it, and as the file system holds it. *)
Definition mtime_of (w : World) (path : string) : Z :=
  from_option (λ f, float_of_mtime_ns (f_mtime f)) 0 (fs w !! path).

Definition mtime_ns_of (w : World) (path : string) : Z :=
  from_option f_mtime 0 (fs w !! path).

(** ** Concrete worlds *)

(** A file last modified [seconds] after the epoch. *)
Definition file_of (seconds : Z) (text : string) : File :=
  {| f_mtime := seconds * 10 ^ 9; f_data := encode text |}.

(** Three matching files [a] (t=1), [b] (t=2) and [c] (t=3), listed by the
    traversal in another order, next to files that do not match. *)
Definition scenario_A : World :=
  {| fs := <["/Volumes/BrahmaSSD/music/AiGen/c.wav" := file_of 3 "cc"]>
          (<["/Volumes/BrahmaSSD/music/AiGen/a.wav" := file_of 1 "a"]>
          (<["/Volumes/BrahmaSSD/music/AiGen/old/b.wav" := file_of 2 "bbb"]> ∅));
     walk_of := λ d,
       if String.eqb d music_dir then
         [(music_dir, ["old"], ["c.wav"; "notes.txt"; "a.wav"]);
          (music_dir +:+ "/old", [], ["LOUD.WAV"; "b.wav"])]
       else [];
     now := 10 * 10 ^ 9 |}.

(** An existing but empty music directory. *)
Definition scenario_B : World :=
  {| fs := ∅;
     walk_of := λ d, if String.eqb d music_dir then [(music_dir, [], [])] else [];
     now := 10 * 10 ^ 9 |}.

(** ** MD5 (RFC 1321), the hash the script uses

    Words are 32-bit integers in [Z], reduced after every addition and
    rotation. *)
Module MD5.

Definition wrap (x : Z) : Z := x mod 2 ^ 32.
Definition add32 (x y : Z) : Z := wrap (x + y).
Definition not32 (x : Z) : Z := Z.lxor x 0xffffffff.
Definition rotl32 (x c : Z) : Z :=
  wrap (Z.lor (Z.shiftl x c) (Z.shiftr x (32 - c))).

Definition shifts : list Z :=
  [7; 12; 17; 22; 7; 12; 17; 22; 7; 12; 17; 22; 7; 12; 17; 22;
   5; 9; 14; 20; 5; 9; 14; 20; 5; 9; 14; 20; 5; 9; 14; 20;
   4; 11; 16; 23; 4; 11; 16; 23; 4; 11; 16; 23; 4; 11; 16; 23;
   6; 10; 15; 21; 6; 10; 15; 21; 6; 10; 15; 21; 6; 10; 15; 21].

Definition sines : list Z :=
  [0xd76aa478; 0xe8c7b756; 0x242070db; 0xc1bdceee;
   0xf57c0faf; 0x4787c62a; 0xa8304613; 0xfd469501;
   0x698098d8; 0x8b44f7af; 0xffff5bb1; 0x895cd7be;
   0x6b901122; 0xfd987193; 0xa679438e; 0x49b40821;
   0xf61e2562; 0xc040b340; 0x265e5a51; 0xe9b6c7aa;
   0xd62f105d; 0x02441453; 0xd8a1e681; 0xe7d3fbc8;
   0x21e1cde6; 0xc33707d6; 0xf4d50d87; 0x455a14ed;
   0xa9e3e905; 0xfcefa3f8; 0x676f02d9; 0x8d2a4c8a;
   0xfffa3942; 0x8771f681; 0x6d9d6122; 0xfde5380c;
   0xa4beea44; 0x4bdecfa9; 0xf6bb4b60; 0xbebfbc70;
   0x289b7ec6; 0xeaa127fa; 0xd4ef3085; 0x04881d05;
   0xd9d4d039; 0xe6db99e5; 0x1fa27cf8; 0xc4ac5665;
   0xf4292244; 0x432aff97; 0xab9423a7; 0xfc93a039;
   0x655b59c3; 0x8f0ccc92; 0xffeff47d; 0x85845dd1;
   0x6fa87e4f; 0xfe2ce6e0; 0xa3014314; 0x4e0811a1;
   0xf7537e82; 0xbd3af235; 0x2ad7d2bb; 0xeb86d391].

Definition byte_of_Z (x : Z) : byte :=
  default x00 (Byte.of_N (Z.to_N (x mod 256))).
Definition Z_of_byte (b : byte) : Z := Z.of_N (Byte.to_N b).

(** Little-endian encodings. *)
Definition le_bytes (width : nat) (x : Z) : bytes :=
  (λ i : nat, byte_of_Z (Z.shiftr x (8 * Z.of_nat i))) <$> seq 0 width.
Definition le_word (b : bytes) : Z :=
  foldr (λ x acc, Z_of_byte x + 256 * acc) 0 b.

(** The message followed by the bit [1], zeros up to 56 modulo 64 and the
    length in bits on eight bytes. *)
Definition pad (msg : bytes) : bytes :=
  let len := Z.of_nat (length msg) in
  let zeros := Z.to_nat ((55 - len) mod 64) in
  msg ++ [x80] ++ replicate zeros x00 ++ le_bytes 8 ((8 * len) mod 2 ^ 64).

(** The sixteen words of a 64-byte block. *)
Definition words (block : bytes) : list Z :=
  (λ i : nat, le_word (take 4 (drop (4 * i) block))) <$> seq 0 16.

Definition round (m : list Z) (st : Z * Z * Z * Z) (i : Z) : Z * Z * Z * Z :=
  let '(a, b, c, d) := st in
  let '(f, g) :=
    if i <? 16 then (Z.lor (Z.land b c) (Z.land (not32 b) d), i)
    else if i <? 32 then
      (Z.lor (Z.land d b) (Z.land (not32 d) c), (5 * i + 1) mod 16)
    else if i <? 48 then (Z.lxor (Z.lxor b c) d, (3 * i + 5) mod 16)
    else (Z.lxor c (Z.lor b (not32 d)), (7 * i) mod 16) in
  let k := default 0 (sines !! Z.to_nat i) in
  let s := default 0 (shifts !! Z.to_nat i) in
  let x := default 0 (m !! Z.to_nat g) in
  let f' := add32 (add32 (add32 f a) k) x in
  (d, add32 b (rotl32 f' s), b, c).

Definition compress (st : Z * Z * Z * Z) (block : bytes) : Z * Z * Z * Z :=
  let '(a0, b0, c0, d0) := st in
  let '(a, b, c, d) := foldl (round (words block)) st (seqZ 0 64) in
  (add32 a0 a, add32 b0 b, add32 c0 c, add32 d0 d).

Definition initial : Z * Z * Z * Z :=
  (0x67452301, 0xefcdab89, 0x98badcfe, 0x10325476).

Definition digest (msg : bytes) : bytes :=
  let padded := pad msg in
  let blocks :=
    (λ i : nat, take 64 (drop (64 * i) padded))
      <$> seq 0 (length padded / 64) in
  let '(a, b, c, d) := foldl compress initial blocks in
  le_bytes 4 a ++ le_bytes 4 b ++ le_bytes 4 c ++ le_bytes 4 d.

End MD5.

(** [hashlib.md5()]: the object holds the bytes fed so far, and the digest
    is the MD5 of all of them. *)
#[export] Instance md5 : HashAlg := {|
  hash_state := bytes;
  hash_new := [];
  hash_update := λ h chunk, h ++ chunk;
  hash_digest := MD5.digest;
  hash_update_app := λ h a b, eq_sym (app_assoc h a b);
  hash_update_nil := λ h, app_nil_r h;
|}.

(** A transcoder that writes its output file (the last argument) and exits
    with status 0, and a player that exits with status 0. *)
Definition working_proc (cmd : list string) (w : World)
  : proc_outcome * World :=
  match cmd with
  | "ffmpeg" :: args =>
      (Exited 0,
       set_file (List.last args "")
         {| f_mtime := now w; f_data := encode "RIFF" |} w)
  | _ => (Exited 0, w)
  end.

(** Tools that always exit with status 1. *)
Definition failing_proc (cmd : list string) (w : World) : proc_outcome * World :=
  (Exited 1, w).

(** ** Vocabulary of the specification *)

(** The text of a manifest: one line [file '<path>'] per file, in order. *)
Definition manifest_text (files : list string) : string :=
  foldr (λ file rest, "file '" +:+ file +:+ "'" +:+ NL +:+ rest) "" files.

(** A hex digest: lower-case hexadecimal digits only. *)
Definition is_hex_digit (c : ascii) : bool :=
  let n := nat_of_ascii c in
  ((48 <=? n) && (n <=? 57) || (97 <=? n) && (n <=? 102))%nat.

Fixpoint is_hex_digest (s : string) : bool :=
  match s with
  | EmptyString => true
  | String c s' => is_hex_digit c && is_hex_digest s'
  end.

(** The persisted digest: what the checksum reader returns, when it
    returns. *)
Definition persisted_checksum (w : World) (checksum_path : string) : string :=
  match data_at w checksum_path with
  | Some b => strip (universal_newlines (decode b))
  | None => ""
  end.

(** The file at [path] is absent or holds valid UTF-8: reading it as text
    does not raise [UnicodeDecodeError]. *)
Definition readable_text (w : World) (path : string) : bool :=
  match data_at w path with
  | Some b => valid_utf8 (decode b)
  | None => true
  end.

(** The paths in front of the first one that cannot be encoded, and that
    path; [None] when every path can be encoded. *)
Fixpoint first_unencodable (files : list string)
  : option (list string * string) :=
  match files with
  | [] => None
  | file :: files' =>
      if valid_utf8 file then
        match first_unencodable files' with
        | Some (before, bad) => Some (file :: before, bad)
        | None => None
        end
      else Some ([], file)
  end.

(** The world after [text] has been written to a fresh or truncated
    [path]. *)
Definition with_text (path text : string) (w : World) : World :=
  set_file path {| f_mtime := now w; f_data := encode text |} w.

(** What [subprocess.run(cmd, check=True)] returns or raises for an
    outcome of the spawned program. *)
Definition spawn_result (cmd : list string) (o : proc_outcome) : result unit :=
  match o with
  | Exited status =>
      if status =? 0 then Ok tt else Raise (CalledProcessError status cmd)
  | NotStarted => Raise (FileNotFoundError (hd "" cmd))
  end.

(** Observations on the events of a run. *)
Definition called (f : Func) (e : Event) : bool :=
  match e with
  | Called g => bool_decide (g = f)
  | _ => false
  end.

Definition spawned (cmd : list string) (e : Event) : bool :=
  match e with
  | Spawned c _ => bool_decide (c = cmd)
  | _ => false
  end.

Definition printed (line : string) (e : Event) : bool :=
  match e with
  | Printed l => String.eqb l line
  | _ => false
  end.

Definition manifest_generated (ev : list Event) : bool :=
  existsb (called Fgenerate_playlist) ev.
Definition checksum_computed (ev : list Event) : bool :=
  existsb (called Fcalculate_checksum) ev.
Definition checksum_written (ev : list Event) : bool :=
  existsb (called Fwrite_new_checksum) ev.
Definition transcoder_invoked (ev : list Event) : bool :=
  existsb (called Fconcatenate_files) ev
  || existsb (spawned (ffmpeg_cmd playlist_file output_file)) ev.
Definition playback_attempted (ev : list Event) : bool :=
  existsb (called Fplay_audio) ev
  || existsb (spawned (mpv_cmd output_file)) ev.

(** The events of the stages of one pass, in order. *)
Definition check_events : list Event :=
  [Called Fget_files_sorted_by_mtime; Called Fcalculate_checksum;
   Called Fread_previous_checksum].

Definition transcode_events (o : proc_outcome) : list Event :=
  [Printed "Changes detected or output file missing, regenerating...";
   Called Fgenerate_playlist;
   Called Fconcatenate_files;
   Printed ("Running command: "
            +:+ str_join " " (ffmpeg_cmd playlist_file output_file));
   Spawned (ffmpeg_cmd playlist_file output_file) o].

(** The events of a rebuild that stops in the playlist builder. *)
Definition regenerate_events : list Event :=
  [Printed "Changes detected or output file missing, regenerating...";
   Called Fgenerate_playlist].

Definition skip_events : list Event :=
  [Printed "No changes detected. Using existing combined audio file."].

Definition play_events (o : proc_outcome) : list Event :=
  [Printed "Playing combined playlist...";
   Called Fplay_audio;
   Spawned (mpv_cmd output_file) o].

Definition no_files_events : list Event :=
  [Called Fget_files_sorted_by_mtime;
   Printed "No .wav files found in the directory."].

(** ** Further vocabulary and worlds *)

(** The states of the UTF-8 decoder that are reached from the start of a
    text: inside a character only bytes from 0x80 to 0xBF are accepted. *)
Definition utf8_state_ok (st : utf8_state) : Prop :=
  match st with
  | None => True
  | Some (lo, hi, _) => (128 ≤ lo)%N ∧ (hi ≤ 191)%N
  end.

(** A string of ASCII whitespace only. *)
Fixpoint all_space (s : string) : bool :=
  match s with
  | EmptyString => true
  | String c s' => isspace c && all_space s'
  end.

(** The number of occurrences of a character in a string. *)
Fixpoint count_char (c : ascii) (s : string) : nat :=
  match s with
  | EmptyString => O
  | String d s' => (if Ascii.eqb d c then 1 else 0) + count_char c s'
  end.

(** The steady state: the files of [scenario_A], the artifact, and a
    checksum file that holds their digest followed by a newline. *)
Definition scenario_C : World :=
  {| fs := <[checksum_file :=
              file_of 9 ("fe959319b53b5881ba4c904c1d2559e0" +:+ NL)]>
          (<[output_file := file_of 9 "RIFF"]> (fs scenario_A));
     walk_of := walk_of scenario_A;
     now := 20 * 10 ^ 9 |}.

(** A listing that names a file that cannot be stat'ed (a dangling link,
    or a file removed since the listing was made). *)
Definition scenario_D : World :=
  {| fs := fs scenario_A;
     walk_of := λ d,
       if String.eqb d music_dir then
         [(music_dir, [], ["a.wav"; "ghost.wav"; "c.wav"])]
       else [];
     now := 10 * 10 ^ 9 |}.

(** Two files that share a modification time, listed after each other
    with an older file in between. *)
Definition scenario_T : World :=
  {| fs := <["/Volumes/BrahmaSSD/music/AiGen/y.wav" := file_of 5 "y"]>
          (<["/Volumes/BrahmaSSD/music/AiGen/z.wav" := file_of 1 "z"]>
          (<["/Volumes/BrahmaSSD/music/AiGen/x.wav" := file_of 5 "x"]> ∅));
     walk_of := λ d,
       if String.eqb d music_dir then
         [(music_dir, [], ["y.wav"; "z.wav"; "x.wav"])]
       else [];
     now := 10 * 10 ^ 9 |}.

(** The bytes of [scenario_A] under other names, cut at other places, with
    an empty file among them. *)
Definition scenario_E : World :=
  {| fs := <["/m/1.wav" := file_of 1 "ab"]>
          (<["/m/2.wav" := file_of 2 ""]>
          (<["/m/3.wav" := file_of 3 "bbcc"]> ∅));
     walk_of := λ d, [];
     now := 10 * 10 ^ 9 |}.

(** Two files whose time stamps are one nanosecond apart, the later one
    listed first. *)
Definition scenario_N : World :=
  {| fs := <["/Volumes/BrahmaSSD/music/AiGen/x.wav" :=
              {| f_mtime := 1700000000 * 10 ^ 9 + 1; f_data := encode "x" |}]>
          (<["/Volumes/BrahmaSSD/music/AiGen/y.wav" :=
              {| f_mtime := 1700000000 * 10 ^ 9 + 2; f_data := encode "y" |}]>
           ∅);
     walk_of := λ d,
       if String.eqb d music_dir then
         [(music_dir, [], ["y.wav"; "x.wav"])]
       else [];
     now := 1800000000 * 10 ^ 9 |}.

(** The same files, listed in the other order. *)
Definition scenario_N' : World :=
  {| fs := fs scenario_N;
     walk_of := λ d,
       if String.eqb d music_dir then
         [(music_dir, [], ["x.wav"; "y.wav"])]
       else [];
     now := now scenario_N |}.

(** A music file whose name holds the byte 0xFF, which is not UTF-8. *)
Definition odd_name : string := String (ascii_of_nat 255) ".wav".

Definition scenario_U : World :=
  {| fs := <[music_dir +:+ "/" +:+ odd_name := file_of 2 "u"]>
          (<["/Volumes/BrahmaSSD/music/AiGen/a.wav" := file_of 1 "a"]> ∅);
     walk_of := λ d,
       if String.eqb d music_dir then
         [(music_dir, [], [odd_name; "a.wav"])]
       else [];
     now := 10 * 10 ^ 9 |}.

(** The files of [scenario_A] with a checksum file that is not UTF-8, and
    no artifact. *)
Definition scenario_G : World :=
  {| fs := <[checksum_file :=
              {| f_mtime := 9 * 10 ^ 9; f_data := [xff; x0a] |}]>
          (fs scenario_A);
     walk_of := walk_of scenario_A;
     now := 20 * 10 ^ 9 |}.

(** The files of [scenario_A] with the checksum file of their digest, and
    no artifact. *)
Definition scenario_F : World :=
  {| fs := <[checksum_file :=
              file_of 9 ("fe959319b53b5881ba4c904c1d2559e0" +:+ NL)]>
          (fs scenario_A);
     walk_of := walk_of scenario_A;
     now := 20 * 10 ^ 9 |}.

(** * Properties *)

(** ** The monad *)

Lemma bind_ok {A B} (m : M A) (k : A → M B) w a w1 ev1 :
  m w = (Ok a, w1, ev1) →
  bind m k w = (let '(r, w2, ev2) := k a w1 in (r, w2, ev1 ++ ev2)).
Proof. intros Hm. unfold bind. rewrite Hm. by destruct (k a w1) as [[??]?]. Qed.

Lemma bind_raise {A B} (m : M A) (k : A → M B) w e w1 ev1 :
  m w = (Raise e, w1, ev1) → bind m k w = (Raise e, w1, ev1).
Proof. intros Hm. unfold bind. by rewrite Hm. Qed.

Lemma bind_run {A B} (m : M A) (k : A → M B) w r w1 ev1 :
  m w = (r, w1, ev1) →
  bind m k w
  = match r with
    | Ok a => let '(r2, w2, ev2) := k a w1 in (r2, w2, ev1 ++ ev2)
    | Raise e => (Raise e, w1, ev1)
    end.
Proof.
  intros Hm. unfold bind. rewrite Hm. destruct r; [|done].
  by destruct (k a w1) as [[??]?].
Qed.

(** ** Strings *)

Lemma append_empty_l s : "" +:+ s = s.
Proof. reflexivity. Qed.

Lemma append_String c s t : String c s +:+ t = String c (s +:+ t).
Proof. reflexivity. Qed.

Lemma append_empty_r s : s +:+ "" = s.
Proof. induction s as [|c s IH]; [done|]. by rewrite append_String, IH. Qed.

Lemma append_assoc s t u : (s +:+ t) +:+ u = s +:+ t +:+ u.
Proof. induction s as [|c s IH]; [done|]. by rewrite !append_String, IH. Qed.

Lemma endswith_spec s suffix :
  endswith s suffix = true ↔ ∃ stem, s = stem +:+ suffix.
Proof.
  induction s as [|c s IH]; cbn [endswith].
  - destruct (String.eqb_spec "" suffix) as [<-|Hne].
    + split; [by exists ""|done].
    + split; [done|]. intros [[|d stem] Hs].
      * by rewrite append_empty_l in Hs.
      * by rewrite append_String in Hs.
  - destruct (String.eqb_spec (String c s) suffix) as [<-|Hne].
    + split; [by exists ""|done].
    + rewrite IH. split.
      * intros [stem ->]. by exists (String c stem).
      * intros [[|d stem] Hs].
        -- by rewrite append_empty_l in Hs.
        -- rewrite append_String in Hs. injection Hs as -> ->. by exists stem.
Qed.

Example endswith_is_case_sensitive :
  endswith "take.wav" ".wav" = true ∧ endswith "LOUD.WAV" ".wav" = false
  ∧ endswith "wav" ".wav" = false.
Proof. by vm_compute. Qed.

(** ** Sorting on keys *)

Section sort_by_key.
Context {A : Type}.
Implicit Types (x : Z * A) (l : list (Z * A)).

Lemma insert_by_key_perm x l : insert_by_key x l ≡ₚ x :: l.
Proof.
  induction l as [|y l IH]; simpl; [done|].
  case_match; [|done]. by rewrite IH, Permutation_swap.
Qed.

Lemma sort_by_key_perm l : sort_by_key l ≡ₚ l.
Proof.
  induction l as [|x l IH]; simpl; [done|].
  by rewrite insert_by_key_perm, IH.
Qed.

Lemma insert_by_key_sorted x l :
  StronglySorted (λ a b, a.1 ≤ b.1) l →
  StronglySorted (λ a b, a.1 ≤ b.1) (insert_by_key x l).
Proof.
  induction 1 as [|y l Hl IH Hy]; simpl; [by repeat constructor|].
  destruct (Z.ltb_spec y.1 x.1) as [Hlt|Hge].
  - constructor; [done|].
    rewrite insert_by_key_perm. constructor; [lia|done].
  - constructor; [by constructor|].
    constructor; [done|]. eapply Forall_impl; [done|]. simpl. lia.
Qed.

Lemma sort_by_key_sorted l :
  StronglySorted (λ a b, a.1 ≤ b.1) (sort_by_key l).
Proof.
  induction l as [|x l IH]; simpl; [constructor|].
  by apply insert_by_key_sorted.
Qed.
End sort_by_key.

(** [sorted] with a key that cannot fail: the list sorted on [key]. *)
Definition sorted_on {A} (key : A → Z) (l : list A) : list A :=
  (sort_by_key (zip (key <$> l) l)).*2.

Section sorted_on.
Context {A : Type} (key : A → Z).
Implicit Types (l : list A).

Lemma zip_key l : zip (key <$> l) l = (λ x, (key x, x)) <$> l.
Proof. induction l; csimpl; congruence. Qed.

Lemma sorted_on_perm l : sorted_on key l ≡ₚ l.
Proof.
  unfold sorted_on. rewrite sort_by_key_perm, zip_key, <-list_fmap_compose.
  by rewrite list_fmap_id.
Qed.

Lemma sorted_on_sorted l :
  StronglySorted (λ a b, key a ≤ key b) (sorted_on key l).
Proof.
  unfold sorted_on.
  apply (StronglySorted_fmap _ (λ p q, key p.2 ≤ key q.2)); [done|].
  assert (Forall (λ p, p.1 = key p.2) (sort_by_key (zip (key <$> l) l))) as Hk.
  { rewrite sort_by_key_perm, zip_key. by apply Forall_fmap, Forall_true. }
  pose proof (sort_by_key_sorted (zip (key <$> l) l)) as Hs.
  induction Hs as [|p ps Hps IH Hp]; [constructor|].
  apply Forall_cons in Hk as [Hp1 Hk]. constructor; [by apply IH|].
  rewrite Forall_forall in Hp, Hk |- *. intros q Hq.
  rewrite <-Hp1, <-(Hk q Hq). by apply Hp.
Qed.

Lemma sorted_strict l :
  NoDup (key <$> l) →
  StronglySorted (λ a b, key a ≤ key b) l →
  StronglySorted (λ a b, key a < key b) l.
Proof.
  intros Hnd. induction 1 as [|x l Hl IH Hx]; [constructor|].
  rewrite fmap_cons in Hnd. apply NoDup_cons in Hnd as [Hx' Hnd].
  constructor; [by apply IH|].
  rewrite Forall_forall in Hx |- *. intros y Hy.
  assert (key x ≠ key y).
  { intros Heq. apply Hx'. rewrite Heq. by apply list_elem_of_fmap_2. }
  specialize (Hx y Hy). lia.
Qed.

Lemma sorted_on_strict l :
  NoDup (key <$> l) →
  StronglySorted (λ a b, key a < key b) (sorted_on key l).
Proof.
  intros Hnd. apply sorted_strict; [|apply sorted_on_sorted].
  by rewrite sorted_on_perm.
Qed.

(** With distinct keys the result does not depend on the order of the
    input. *)
Lemma sorted_on_order_irrelevant l1 l2 :
  NoDup (key <$> l1) → l1 ≡ₚ l2 → sorted_on key l1 = sorted_on key l2.
Proof.
  intros Hnd Hp.
  apply (StronglySorted_unique_strong (λ a b, key a < key b)).
  - intros; lia.
  - by apply sorted_on_strict.
  - apply sorted_on_strict. by rewrite <-Hp.
  - by rewrite !sorted_on_perm.
Qed.
End sorted_on.

(** ** The directory scanner *)

Lemma collect_filenames root extension filenames acc :
  fold_left (λ files filename,
    if endswith filename extension
    then files ++ [os_path_join root filename]
    else files) filenames acc
  = acc ++ (os_path_join root <$> filter (λ fn, endswith fn extension) filenames).
Proof.
  revert acc. induction filenames as [|fn fns IH]; intros acc; simpl.
  - by rewrite app_nil_r.
  - rewrite IH, filter_cons. destruct (endswith fn extension); simpl.
    + by rewrite <-app_assoc.
    + done.
Qed.

Lemma collect_triples extension (triples : list walk_entry) acc :
  fold_left (λ files '(root, dirs, filenames),
    fold_left (λ files filename,
      if endswith filename extension
      then files ++ [os_path_join root filename]
      else files) filenames files) triples acc
  = acc ++ ('(root, _, filenames) ← triples;
            os_path_join root <$> filter (λ fn, endswith fn extension) filenames).
Proof.
  revert acc.
  induction triples as [|[[root dirs] fns] ts IH]; intros acc; cbn [fold_left].
  - by rewrite app_nil_r.
  - rewrite IH, collect_filenames, bind_cons. by rewrite <-app_assoc.
Qed.

Lemma getmtime_all (w : World) (l : list string) :
  Forall (λ p, is_Some (fs w !! p)) l →
  map_M os_path_getmtime l w = (Ok (mtime_of w <$> l), w, []).
Proof.
  induction 1 as [|p l [f Hp] Hl IH]; [done|]. simpl.
  erewrite bind_ok; [|unfold os_path_getmtime; by rewrite Hp].
  erewrite bind_ok; [|done].
  assert (mtime_of w p = float_of_mtime_ns (f_mtime f)) as Hm
    by (unfold mtime_of; by rewrite Hp).
  simpl. by rewrite Hm.
Qed.

(** The scanner on a world in which every matching file can be stat'ed. *)
Lemma scanner_run (w : World) (directory extension : string) :
  Forall (λ p, is_Some (fs w !! p)) (matching_files w directory extension) →
  get_files_sorted_by_mtime directory extension w
  = (Ok (sorted_on (mtime_of w) (matching_files w directory extension)), w,
     [Called Fget_files_sorted_by_mtime]).
Proof.
  intros Hex. unfold get_files_sorted_by_mtime.
  erewrite bind_ok; [|done]. erewrite bind_ok; [|done].
  rewrite collect_triples. simpl. unfold sorted.
  erewrite bind_ok; [|by apply getmtime_all]. done.
Qed.

Lemma elem_of_matching_files (w : World) (directory extension p : string) :
  p ∈ matching_files w directory extension ↔
  ∃ root dirs filenames filename stem,
    (root, dirs, filenames) ∈ walk_of w directory ∧
    filename ∈ filenames ∧
    filename = stem +:+ extension ∧
    p = os_path_join root filename.
Proof.
  unfold matching_files. rewrite list_elem_of_bind. split.
  - intros ([[root dirs] fns] & Hp & Ht).
    apply list_elem_of_fmap in Hp as (fn & -> & Hfn).
    apply list_elem_of_filter in Hfn as [Hend Hfn].
    apply Is_true_true, endswith_spec in Hend as [stem ->].
    by exists root, dirs, fns, (stem +:+ extension), stem.
  - intros (root & dirs & fns & fn & stem & Ht & Hfn & -> & ->).
    exists (root, dirs, fns). split; [|done].
    apply list_elem_of_fmap. eexists; split; [done|].
    apply list_elem_of_filter. split; [|done].
    apply Is_true_true, endswith_spec. by exists stem.
Qed.

(** ** The float of a time stamp *)

Lemma round53_opp (x : Z) : round53 (- x) = - round53 x.
Proof. unfold round53. rewrite Z.abs_opp, Z.sgn_opp. lia. Qed.

(** The rounding of a positive number, with the exponent spelled out. *)
Lemma round53_pos (x : Z) :
  0 < x →
  let sh := Z.max 0 (Z.log2 x - 52) in
  let q := x / 2 ^ sh in
  let r := x - q * 2 ^ sh in
  round53 x
  = (if (2 ^ sh <? 2 * r) || (2 * r =? 2 ^ sh) && Z.odd q then q + 1 else q)
    * 2 ^ sh
  ∧ 0 ≤ sh ∧ 0 < 2 ^ sh ∧ 0 ≤ r < 2 ^ sh ∧ q < 2 ^ 53
  ∧ (0 < sh → 2 ^ 52 ≤ q).
Proof.
  intros Hx sh q r. subst r q.
  assert (0 ≤ sh) as Hsh by lia.
  assert (0 < 2 ^ sh) as Hpow by (apply Z.pow_pos_nonneg; lia).
  pose proof (Z.log2_spec x Hx) as [Hlo Hhi].
  pose proof (Z.log2_nonneg x) as Hlog.
  refine (conj _ (conj _ (conj _ (conj _ (conj _ _))))).
  - unfold round53. rewrite Z.abs_eq, Z.sgn_pos by lia.
    fold sh. rewrite Z.shiftr_div_pow2 by done.
    rewrite !Z.shiftl_mul_pow2 by done. lia.
  - done.
  - done.
  - pose proof (Z.mod_pos_bound x (2 ^ sh) Hpow) as Hmod.
    rewrite Z.mod_eq in Hmod by lia. lia.
  - apply Z.div_lt_upper_bound; [done|].
    rewrite <-Z.pow_add_r by lia.
    eapply Z.lt_le_trans; [exact Hhi|].
    apply Z.pow_le_mono_r; lia.
  - intros Hpos. apply Z.div_le_lower_bound; [done|].
    rewrite Z.mul_comm, <-Z.pow_add_r by lia.
    replace (52 + sh) with (Z.log2 x) by lia. done.
Qed.

Lemma round53_nonneg (x : Z) : 0 ≤ x → 0 ≤ round53 x.
Proof.
  intros Hx. destruct (decide (x = 0)) as [->|Hne]; [done|].
  destruct (round53_pos x) as (-> & Hsh & Hpow & Hr & Hq & _); [lia|].
  assert (0 ≤ x / 2 ^ Z.max 0 (Z.log2 x - 52)) as Hq0
    by (apply Z.div_pos; lia).
  destruct (_ || _); nia.
Qed.

Lemma round53_mono_pos (x y : Z) : 0 < x → x ≤ y → round53 x ≤ round53 y.
Proof.
  intros Hx Hxy.
  destruct (round53_pos x Hx) as (-> & Hshx & Hpowx & Hrx & Hqx & _).
  destruct (round53_pos y) as (-> & Hshy & Hpowy & Hry & _ & Hqy); [lia|].
  pose proof (Z.log2_le_mono x y Hxy) as Hlog.
  revert Hpowx Hrx Hqx Hpowy Hry Hqy.
  set (ex := Z.max 0 (Z.log2 x - 52)). set (ey := Z.max 0 (Z.log2 y - 52)).
  assert (ex ≤ ey) as Hexy by lia.
  destruct (decide (ex = ey)) as [Heq|Hne].
  - rewrite <-Heq. clearbody ex. clear Heq Hexy ey Hshy Hlog.
    pose proof (Z.div_le_mono x y (2 ^ ex)) as Hdiv.
    set (P := 2 ^ ex) in *. set (qx := x / P) in *. set (qy := y / P) in *.
    intros HP Hrx Hqx _ Hry _. specialize (Hdiv HP Hxy).
    destruct (decide (qx = qy)) as [Hq|Hq].
    + rewrite <-Hq in *.
      destruct (Z.ltb_spec P (2 * (x - qx * P)));
        destruct (Z.ltb_spec P (2 * (y - qx * P)));
        destruct (Z.eqb_spec (2 * (x - qx * P)) P);
        destruct (Z.eqb_spec (2 * (y - qx * P)) P);
        destruct (Z.odd qx); cbn [orb andb]; nia.
    + assert (qx + 1 ≤ qy) as Hlt by lia.
      destruct (_ || _); destruct (_ || _); nia.
  - intros HPx Hrx Hqx HPy Hry Hqy.
    assert (2 * 2 ^ ex ≤ 2 ^ ey) as Hpow.
    { replace (2 * 2 ^ ex) with (2 ^ (ex + 1))
        by (rewrite Z.pow_add_r by lia; lia).
      apply Z.pow_le_mono_r; lia. }
    specialize (Hqy ltac:(lia)).
    assert (0 ≤ x / 2 ^ ex) as Hq0 by (apply Z.div_pos; lia).
    destruct (_ || _); destruct (_ || _); nia.
Qed.

Lemma round53_mono (x y : Z) : x ≤ y → round53 x ≤ round53 y.
Proof.
  intros Hxy.
  destruct (Z.lt_trichotomy x 0) as [Hx|[->|Hx]];
    destruct (Z.lt_trichotomy y 0) as [Hy|[->|Hy]]; try lia.
  - rewrite <-(Z.opp_involutive x), <-(Z.opp_involutive y).
    rewrite (round53_opp (- x)), (round53_opp (- y)).
    pose proof (round53_mono_pos (- y) (- x)). lia.
  - rewrite <-(Z.opp_involutive x), (round53_opp (- x)).
    pose proof (round53_nonneg (- x)). change (round53 0) with 0. lia.
  - rewrite <-(Z.opp_involutive x), (round53_opp (- x)).
    pose proof (round53_nonneg (- x)). pose proof (round53_nonneg y). lia.
  - change (round53 0) with 0. apply round53_nonneg. lia.
  - by apply round53_mono_pos.
Qed.

(** A number of 53 bits at most, scaled by a power of two, is a float. *)
Lemma round53_exact (k n : Z) :
  0 ≤ n → Z.abs k < 2 ^ 53 → round53 (k * 2 ^ n) = k * 2 ^ n.
Proof.
  intros Hn Hk.
  assert (∀ k, 0 < k < 2 ^ 53 → round53 (k * 2 ^ n) = k * 2 ^ n) as Hpos.
  { clear k Hk. intros k Hk.
    assert (0 < 2 ^ n) as Hpow by (apply Z.pow_pos_nonneg; lia).
    assert (0 < k * 2 ^ n) as Hx by nia.
    destruct (round53_pos _ Hx) as (-> & Hsh & HP & Hr & _).
    revert HP Hr. set (sh := Z.max 0 (Z.log2 (k * 2 ^ n) - 52)) in *.
    assert (sh ≤ n) as Hle.
    { unfold sh. rewrite Z.log2_mul_pow2 by lia.
      assert (Z.log2 k < 53) by (apply Z.log2_lt_pow2; lia). lia. }
    assert (k * 2 ^ n = k * 2 ^ (n - sh) * 2 ^ sh) as Hsplit.
    { rewrite <-Z.mul_assoc, <-Z.pow_add_r by lia. do 2 f_equal. lia. }
    assert ((k * 2 ^ n) / 2 ^ sh = k * 2 ^ (n - sh)) as Hq
      by (rewrite Hsplit, Z.div_mul; lia).
    intros HP Hr. rewrite Hq.
    replace (k * 2 ^ n - k * 2 ^ (n - sh) * 2 ^ sh) with 0 by lia.
    destruct (Z.ltb_spec (2 ^ sh) (2 * 0)); [lia|].
    destruct (Z.eqb_spec (2 * 0) (2 ^ sh)); [lia|]. cbn [orb andb]. lia. }
  destruct (Z.lt_trichotomy k 0) as [Hneg|[->|Hp]].
  - replace (k * 2 ^ n) with (- (- k * 2 ^ n)) by lia.
    rewrite round53_opp, Hpos by lia. lia.
  - done.
  - apply Hpos. lia.
Qed.

(** Between 1678 and 2262, the range of [st_mtime_ns], a later time stamp
    never gets a smaller float. *)
Lemma float_of_mtime_ns_mono (a b : Z) :
  - 2 ^ 63 ≤ a → a ≤ b → b < 2 ^ 63 →
  float_of_mtime_ns a ≤ float_of_mtime_ns b.
Proof.
  intros Ha Hab Hb. unfold float_of_mtime_ns.
  assert (0 < 10 ^ 9) as Hbillion by done.
  pose proof (Z.mod_pos_bound a (10 ^ 9) Hbillion) as Hra.
  pose proof (Z.mod_pos_bound b (10 ^ 9) Hbillion) as Hrb.
  pose proof (Z.div_le_mono a b (10 ^ 9) Hbillion Hab) as Hdiv.
  pose proof (Z.div_mod a (10 ^ 9)) as Hda.
  pose proof (Z.div_mod b (10 ^ 9)) as Hdb.
  set (sa := a / 10 ^ 9) in *. set (sb := b / 10 ^ 9) in *.
  set (na := a mod 10 ^ 9) in *. set (nb := b mod 10 ^ 9) in *.
  assert (Z.abs sa < 2 ^ 53 ∧ Z.abs sb < 2 ^ 53) as [Hsa Hsb] by lia.
  rewrite !round53_exact by lia.
  apply round53_mono.
  destruct (decide (sa = sb)) as [->|Hne].
  - assert (na ≤ nb) by lia.
    pose proof (round53_mono (4835703278458517 * na)
                  (4835703278458517 * nb)). lia.
  - assert (round53 (4835703278458517 * na) ≤ 2 ^ 82) as Hhi.
    { change (2 ^ 82) with (round53 (2 ^ 82)) at 1. apply round53_mono. lia. }
    assert (0 ≤ round53 (4835703278458517 * nb)) as Hlo
      by (apply round53_nonneg; lia).
    lia.
Qed.

Lemma float_of_mtime_ns_reflects (a b : Z) :
  - 2 ^ 63 ≤ a < 2 ^ 63 → - 2 ^ 63 ≤ b < 2 ^ 63 →
  float_of_mtime_ns a < float_of_mtime_ns b → a < b.
Proof.
  intros Ha Hb Hlt. destruct (Z.lt_ge_cases a b) as [|Hge]; [done|].
  pose proof (float_of_mtime_ns_mono b a). lia.
Qed.

Lemma mtime_of_float (w : World) (p : string) :
  mtime_of w p = float_of_mtime_ns (mtime_ns_of w p).
Proof. unfold mtime_of, mtime_ns_of. by destruct (fs w !! p). Qed.

Lemma StronglySorted_transfer {A} (R R' : A → A → Prop) (P : A → Prop)
    (l : list A) :
  (∀ x y, P x → P y → R x y → R' x y) →
  Forall P l → StronglySorted R l → StronglySorted R' l.
Proof.
  intros HR HP Hsorted. induction Hsorted as [|x l Hl IH Hx]; [constructor|].
  apply Forall_cons in HP as [Hpx HP]. constructor; [by apply IH|].
  rewrite Forall_forall in Hx, HP |- *. intros y Hy.
  apply HR; [done|by apply HP|by apply Hx].
Qed.

(** The key on which the scanner sorts is a float.  Time stamps that
    differ by less than the spacing of the floats (some 2.4e-7 s for the
    current epoch) give the same key. *)
Example getmtime_one_second : float_of_mtime_ns (10 ^ 9) = 2 ^ 82.
Proof. reflexivity. Qed.

Example getmtime_collision :
  float_of_mtime_ns (1700000000 * 10 ^ 9 + 1)
  = float_of_mtime_ns (1700000000 * 10 ^ 9 + 2).
Proof. reflexivity. Qed.

Example getmtime_spacing :
  float_of_mtime_ns (1700000000 * 10 ^ 9)
  < float_of_mtime_ns (1700000000 * 10 ^ 9 + 239).
Proof. reflexivity. Qed.

(** C2 (amended). On a directory whose matching files have pairwise
    distinct modification times as [os.path.getmtime] returns them (binary64
    floats, the keys of the sort), the scanner returns, without raising and
    without touching the world, the full paths of exactly the files whose
    names end with the extension (compared character by character, so case
    matters), sorted ascending by that modification time, and so, the time
    stamps being in the range of [st_mtime_ns], ascending by the time stamps
    themselves; the result is the same for every world that lists the same
    files in another traversal order; and when no file matches, the result
    is the empty list. *)
Theorem scanner_sorted_by_mtime (w : World) (directory extension : string) :
  let found := matching_files w directory extension in
  Forall (λ p, is_Some (fs w !! p)) found →
  NoDup (mtime_of w <$> found) →
  ∃ files,
    get_files_sorted_by_mtime directory extension w
    = (Ok files, w, [Called Fget_files_sorted_by_mtime]) ∧
    files ≡ₚ found ∧
    (∀ p, p ∈ files ↔
       ∃ root dirs filenames filename stem,
         (root, dirs, filenames) ∈ walk_of w directory ∧
         filename ∈ filenames ∧
         filename = stem +:+ extension ∧
         p = os_path_join root filename) ∧
    StronglySorted (λ p q, mtime_of w p < mtime_of w q) files ∧
    (Forall (λ p, - 2 ^ 63 ≤ mtime_ns_of w p < 2 ^ 63) found →
     StronglySorted (λ p q, mtime_ns_of w p < mtime_ns_of w q) files) ∧
    (∀ w', fs w' = fs w →
       matching_files w' directory extension ≡ₚ found →
       get_files_sorted_by_mtime directory extension w'
       = (Ok files, w', [Called Fget_files_sorted_by_mtime])) ∧
    (found = [] → files = []).
Proof.
  intros found Hex Hnd. exists (sorted_on (mtime_of w) found).
  split_and!.
  - by apply scanner_run.
  - apply sorted_on_perm.
  - intros p. rewrite sorted_on_perm. apply elem_of_matching_files.
  - by apply sorted_on_strict.
  - intros Hrange.
    apply (StronglySorted_transfer (λ p q, mtime_of w p < mtime_of w q) _
             (λ p, - 2 ^ 63 ≤ mtime_ns_of w p < 2 ^ 63)).
    + intros p q Hp Hq. rewrite !mtime_of_float.
      by apply float_of_mtime_ns_reflects.
    + by rewrite sorted_on_perm.
    + by apply sorted_on_strict.
  - intros w' Hfs Hperm. rewrite scanner_run.
    + assert (mtime_of w' = mtime_of w) as ->.
      { unfold mtime_of. by rewrite Hfs. }
      do 2 f_equal. f_equal. symmetry. apply sorted_on_order_irrelevant; [done|].
      by symmetry.
    + rewrite Hfs, Hperm. done.
  - intros ->. done.
Qed.

Lemma scanner_sorted_by_mtime_witness :
  let w := scenario_A in
  let found := matching_files w music_dir ".wav" in
  Forall (λ p, is_Some (fs w !! p)) found ∧
  NoDup (mtime_of w <$> found) ∧
  Forall (λ p, - 2 ^ 63 ≤ mtime_ns_of w p < 2 ^ 63) found ∧
  ∃ files,
    get_files_sorted_by_mtime music_dir ".wav" w
    = (Ok files, w, [Called Fget_files_sorted_by_mtime]) ∧
    files ≡ₚ found ∧
    (∀ p, p ∈ files ↔
       ∃ root dirs filenames filename stem,
         (root, dirs, filenames) ∈ walk_of w music_dir ∧
         filename ∈ filenames ∧
         filename = stem +:+ ".wav" ∧
         p = os_path_join root filename) ∧
    StronglySorted (λ p q, mtime_of w p < mtime_of w q) files ∧
    StronglySorted (λ p q, mtime_ns_of w p < mtime_ns_of w q) files ∧
    (∀ w', fs w' = fs w →
       matching_files w' music_dir ".wav" ≡ₚ found →
       get_files_sorted_by_mtime music_dir ".wav" w'
       = (Ok files, w', [Called Fget_files_sorted_by_mtime])) ∧
    (found = [] → files = []).
Proof.
  assert (Forall (λ p, is_Some (fs scenario_A !! p))
            (matching_files scenario_A music_dir ".wav")) as Hex.
  { apply (bool_decide_unpack _). vm_compute. exact I. }
  assert (NoDup (mtime_of scenario_A
            <$> matching_files scenario_A music_dir ".wav")) as Hnd.
  { apply (bool_decide_unpack _). vm_compute. exact I. }
  assert (Forall (λ p, - 2 ^ 63 ≤ mtime_ns_of scenario_A p < 2 ^ 63)
            (matching_files scenario_A music_dir ".wav")) as Hrange.
  { apply (bool_decide_unpack _). vm_compute. exact I. }
  destruct (scanner_sorted_by_mtime scenario_A music_dir ".wav" Hex Hnd)
    as (files & Hrun & Hperm & Hin & Hsorted & Hstamps & Hany & Hnil).
  refine (conj Hex (conj Hnd (conj Hrange _))).
  exists files.
  exact (conj Hrun (conj Hperm (conj Hin (conj Hsorted
    (conj (Hstamps Hrange) (conj Hany Hnil)))))).
Defined.


(** C2, as the specification states it, fails: two files whose time stamps
    are distinct (one nanosecond apart) get the same float from
    [os.path.getmtime], and the scanner returns them as the traversal lists
    them, the later one first. *)
Lemma scanner_order_by_stamp_refuted :
  ¬ (∀ (w : World) (directory extension : string),
       let found := matching_files w directory extension in
       Forall (λ p, is_Some (fs w !! p)) found →
       NoDup (mtime_ns_of w <$> found) →
       ∃ files,
         get_files_sorted_by_mtime directory extension w
         = (Ok files, w, [Called Fget_files_sorted_by_mtime]) ∧
         StronglySorted (λ p q, mtime_ns_of w p < mtime_ns_of w q) files).
Proof.
  intros Hclaim.
  destruct (Hclaim scenario_N music_dir ".wav") as (files & Hrun & Hsorted).
  - apply (bool_decide_unpack _). vm_compute. exact I.
  - apply (bool_decide_unpack _). vm_compute. exact I.
  - assert (files = [music_dir +:+ "/y.wav"; music_dir +:+ "/x.wav"]) as ->.
    { vm_compute in Hrun. by injection Hrun as <-. }
    apply StronglySorted_inv in Hsorted as [_ Hlt].
    apply Forall_cons in Hlt as [Hlt _].
    vm_compute in Hlt. discriminate Hlt.
Qed.

(** On these two files the order of the result is the order of the
    listing. *)
Example scanner_follows_listing :
  (get_files_sorted_by_mtime music_dir ".wav" scenario_N).1.1
  = Ok [music_dir +:+ "/y.wav"; music_dir +:+ "/x.wav"] ∧
  (get_files_sorted_by_mtime music_dir ".wav" scenario_N').1.1
  = Ok [music_dir +:+ "/x.wav"; music_dir +:+ "/y.wav"] ∧
  matching_files scenario_N' music_dir ".wav"
  ≡ₚ matching_files scenario_N music_dir ".wav".
Proof.
  split_and!; [reflexivity..|]. vm_compute. apply Permutation_swap.
Qed.
(** ** The checksum *)

Lemma iter_read_concat (n : nat) (f : bytes) :
  (0 < n)%nat → concat (iter_read n f) = f.
Proof.
  intros Hn. funelim (iter_read n f).
  - destruct n, f; [lia|lia|done|done].
  - cbn [concat].
    match goal with IH : _ → concat (iter_read _ _) = _ |- _ => rewrite IH end;
      [|done].
    match goal with Ht : take _ _ = _ |- _ => rewrite <-Ht end.
    apply take_drop.
Qed.

Section checksum.
Context `{HashAlg}.

Lemma hash_update_chunks (chunks : list bytes) (h : hash_state) :
  fold_left hash_update chunks h = hash_update h (concat chunks).
Proof.
  revert h. induction chunks as [|c cs IH]; intros h; simpl.
  - by rewrite hash_update_nil.
  - by rewrite IH, hash_update_app.
Qed.

Lemma checksum_fold (w : World) files datas (h : hash_state) :
  Forall2 (λ p d, data_at w p = Some d) files datas →
  for_fold files h (λ hash_md5 file,
    let* f := open_rb file in
    ret (fold_left hash_update (iter_read chunk_size f) hash_md5)) w
  = (Ok (hash_update h (concat datas)), w, []).
Proof.
  intros Hfd. revert h.
  induction Hfd as [|p d files datas Hp Hfd IH]; intros h; simpl.
  - by rewrite hash_update_nil.
  - unfold data_at in Hp. destruct (fs w !! p) as [f|] eqn:Hf; [|done].
    injection Hp as <-.
    erewrite bind_ok; [|erewrite bind_ok; [|unfold open_rb; by rewrite Hf]; done].
    rewrite IH, hash_update_chunks, iter_read_concat by (unfold chunk_size; lia).
    by rewrite hash_update_app.
Qed.

Lemma checksum_run (w : World) files datas :
  mapM (data_at w) files = Some datas →
  calculate_checksum files w
  = (Ok (hexdigest (hash_update hash_new (concat datas))), w,
     [Called Fcalculate_checksum]).
Proof.
  intros Hfd%mapM_Some. unfold calculate_checksum.
  erewrite bind_ok; [|done].
  erewrite bind_ok; [|by apply checksum_fold]. done.
Qed.
End checksum.

Example md5_empty : hexdigest (hash_update hash_new (encode "")) = "d41d8cd98f00b204e9800998ecf8427e".
Proof. vm_compute. reflexivity. Qed.

Example md5_abc : hexdigest (hash_update hash_new (encode "abc")) = "900150983cd24fb0d6963f7d28e17f72".
Proof. vm_compute. reflexivity. Qed.

Example md5_fox :
  hexdigest (hash_update hash_new
    (encode "The quick brown fox jumps over the lazy dog"))
  = "9e107d9d372bb6826bd81d3542a419d6".
Proof. vm_compute. reflexivity. Qed.

Example md5_two_blocks :
  hexdigest (hash_update hash_new (replicate 70 x61))
  = "0f5c6c4e740bfcc08c3c26ccb2673d46".
Proof. vm_compute. reflexivity. Qed.

(** C3. The checksum is a pure function of the files' contents in scan
    order: streaming every file through the hash in chunks of 4096 bytes
    gives the digest of the concatenation of all the contents; any other
    way of cutting the same bytes into chunks gives the same digest; and
    so does any world and file list with the same contents in the same
    order. *)
Theorem checksum_streaming_eq_concat `{HashAlg}
    (w : World) (files : list string) (datas : list bytes) :
  mapM (data_at w) files = Some datas →
  let digest := hexdigest (hash_update hash_new (concat datas)) in
  calculate_checksum files w = (Ok digest, w, [Called Fcalculate_checksum]) ∧
  (∀ chunks : list bytes,
     concat chunks = concat datas →
     hexdigest (fold_left hash_update chunks hash_new) = digest) ∧
  (∀ w' files',
     mapM (data_at w') files' = Some datas →
     calculate_checksum files' w'
     = (Ok digest, w', [Called Fcalculate_checksum])).
Proof.
  intros Hd digest. split_and!.
  - by apply checksum_run.
  - intros chunks Hc. by rewrite hash_update_chunks, Hc.
  - intros w' files' Hd'. by apply checksum_run.
Qed.

Lemma checksum_streaming_eq_concat_witness :
  let files := ["/Volumes/BrahmaSSD/music/AiGen/a.wav";
                "/Volumes/BrahmaSSD/music/AiGen/old/b.wav";
                "/Volumes/BrahmaSSD/music/AiGen/c.wav"] in
  let datas := [encode "a"; encode "bbb"; encode "cc"] in
  mapM (data_at scenario_A) files = Some datas ∧
  calculate_checksum (H := md5) files scenario_A
  = (Ok "fe959319b53b5881ba4c904c1d2559e0", scenario_A,
     [Called Fcalculate_checksum]).
Proof.
  intros files datas.
  assert (mapM (data_at scenario_A) files = Some datas) as Hd
    by (vm_compute; reflexivity).
  split; [exact Hd|].
  exact (proj1 (checksum_streaming_eq_concat (H := md5) scenario_A files datas Hd)).
Defined.

(** ** Strict UTF-8 *)

Lemma utf8_run_app (st : utf8_state) (s t : string) :
  utf8_run st (s +:+ t)
  = match utf8_run st s with
    | Some st' => utf8_run st' t
    | None => None
    end.
Proof.
  revert st. induction s as [|c s IH]; intros st; [done|].
  rewrite append_String. simpl. destruct (utf8_step st c); [apply IH|done].
Qed.

Lemma utf8_step_ascii (c : ascii) :
  (N_of_ascii c <? 128)%N = true → utf8_step None c = Some None.
Proof. intros Hc. unfold utf8_step. by rewrite Hc. Qed.

Lemma utf8_step_ok (st st' : utf8_state) (c : ascii) :
  utf8_state_ok st → utf8_step st c = Some st' → utf8_state_ok st'.
Proof.
  unfold utf8_step. destruct st as [[[lo hi] more]|]; intros Hok.
  - destruct (_ && _); [|done]. intros [= <-]. destruct more; simpl; [done|lia].
  - repeat (destruct (_ : bool); [intros [= <-]; simpl; lia|]). done.
Qed.

Lemma utf8_run_ok (st st' : utf8_state) (s : string) :
  utf8_state_ok st → utf8_run st s = Some st' → utf8_state_ok st'.
Proof.
  revert st. induction s as [|c s IH]; intros st Hok; simpl.
  - by intros [= <-].
  - destruct (utf8_step st c) as [st1|] eqn:Hstep; [|done].
    apply IH. by eapply utf8_step_ok.
Qed.

(** A byte that starts a character does not continue one. *)
Lemma utf8_step_inside (x : N * N * nat) (c : ascii) :
  utf8_state_ok (Some x) → is_Some (utf8_step None c) →
  utf8_step (Some x) c = None.
Proof.
  destruct x as [[lo hi] more]. intros [Hlo Hhi] [st Hc].
  assert ((N_of_ascii c < 128)%N ∨ (194 ≤ N_of_ascii c)%N) as Hb.
  { clear -Hc. destruct c as [[] [] [] [] [] [] [] []];
      vm_compute in Hc; try discriminate Hc; clear;
      first [left; reflexivity | right; by vm_compute]. }
  unfold utf8_step.
  destruct (_ && _) eqn:Hin; [|done].
  apply andb_true_iff in Hin as [?%N.leb_le ?%N.leb_le]. lia.
Qed.

Lemma valid_utf8_app_l (s t : string) :
  valid_utf8 s = true → valid_utf8 (s +:+ t) = valid_utf8 t.
Proof.
  unfold valid_utf8. rewrite utf8_run_app.
  destruct (utf8_run None s) as [[x|]|].
  all: try done.
Qed.

Lemma valid_utf8_app_r (s t : string) :
  valid_utf8 t = true → valid_utf8 (s +:+ t) = valid_utf8 s.
Proof.
  unfold valid_utf8. rewrite utf8_run_app.
  destruct (utf8_run None s) as [[x|]|] eqn:Hs; [|done..].
  assert (utf8_state_ok (Some x)) as Hok by exact (utf8_run_ok None _ s I Hs).
  destruct t as [|c t]; [intros _; reflexivity|]. simpl.
  destruct (utf8_step None c) as [st|] eqn:Hc; [|done].
  by rewrite utf8_step_inside.
Qed.

(** A line of the manifest can be encoded exactly when the path can. *)
Lemma valid_utf8_line (file : string) :
  valid_utf8 ("file '" +:+ file +:+ "'" +:+ NL) = valid_utf8 file.
Proof. by rewrite valid_utf8_app_l, valid_utf8_app_r. Qed.

Example utf8_accepts :
  valid_utf8 "caf" = true ∧
  valid_utf8 (String (ascii_of_nat 195) (String (ascii_of_nat 169) "")) = true ∧
  valid_utf8 (String (ascii_of_nat 226) (String (ascii_of_nat 130)
                (String (ascii_of_nat 172) ""))) = true ∧
  valid_utf8 (String (ascii_of_nat 240) (String (ascii_of_nat 159)
                (String (ascii_of_nat 142) (String (ascii_of_nat 181) ""))))
  = true.
Proof. by vm_compute. Qed.

Example utf8_rejects :
  valid_utf8 odd_name = false ∧
  valid_utf8 (String (ascii_of_nat 160) "") = false ∧
  valid_utf8 (String (ascii_of_nat 195) "") = false ∧
  valid_utf8 (String (ascii_of_nat 192) (String (ascii_of_nat 128) "")) = false ∧
  valid_utf8 (String (ascii_of_nat 237) (String (ascii_of_nat 160)
                (String (ascii_of_nat 128) ""))) = false.
Proof. by vm_compute. Qed.

(** ** Whitespace *)

Lemma isspace_ascii (c : ascii) :
  isspace c = true → (N_of_ascii c <? 128)%N = true.
Proof. destruct c as [[] [] [] [] [] [] [] []]; by vm_compute. Qed.

Lemma utf8_step_continue (lo hi : N) (more : nat) (c : ascii) :
  (lo ≤ N_of_ascii c)%N → (N_of_ascii c ≤ hi)%N →
  utf8_step (Some (lo, hi, more)) c
  = Some (match more with
          | O => None
          | S k => Some (128, 191, k)%N
          end).
Proof.
  intros Hlo%N.leb_le Hhi%N.leb_le. unfold utf8_step. by rewrite Hlo, Hhi.
Qed.

Lemma utf8_step_lead (c : ascii) (b : N) :
  N_of_ascii c = b → utf8_step None c = utf8_step None (ascii_of_N b).
Proof. intros <-. by rewrite ascii_N_embedding. Qed.

(** The characters that [str.strip] drops are well-formed. *)
Lemma whitespace_char_run (s : string) (k : nat) :
  whitespace_length s = S k →
  utf8_run None s = utf8_run None (str_drop (S k) s).
Proof.
  destruct s as [|c r]; [done|]. unfold whitespace_length.
  destruct (isspace c) eqn:Hc.
  { intros [= <-]. simpl. by rewrite utf8_step_ascii by by apply isspace_ascii. }
  destruct r as [|d r]; [done|].
  destruct (_ && _) eqn:H2.
  { intros [= <-]. apply andb_true_iff in H2 as [Ha%N.eqb_eq Hb].
    cbn [utf8_run str_drop]. rewrite (utf8_step_lead c _ Ha).
    change (utf8_step None (ascii_of_N 194)) with (Some (Some (128, 191, O)))%N.
    cbv beta iota. rewrite utf8_step_continue; [reflexivity|..];
      apply orb_true_iff in Hb as [Hb%N.eqb_eq|Hb%N.eqb_eq]; lia. }
  destruct r as [|e r]; [done|].
  match goal with
  | |- (if ?b then _ else _) = _ → _ => destruct b eqn:H3; [|done]
  end.
  intros [= <-].
  cbn [utf8_run str_drop].
  assert (utf8_step None c = Some (Some (128, 191, 1%nat))%N
          ∧ (128 ≤ N_of_ascii d ≤ 191)%N ∧ (128 ≤ N_of_ascii e ≤ 191)%N)
    as (-> & Hd & He).
  { repeat match goal with
           | H : _ || _ = true |- _ => apply orb_true_iff in H as [H|H]
           | H : _ && _ = true |- _ => apply andb_true_iff in H as [? ?]
           | H : (_ =? _)%N = true |- _ => apply N.eqb_eq in H
           | H : (_ <=? _)%N = true |- _ => apply N.leb_le in H
           end;
      (split; [|lia]);
      match goal with
      | H : N_of_ascii c = _ |- _ => by rewrite (utf8_step_lead c _ H)
      end. }
  cbv beta iota. rewrite utf8_step_continue by lia.
  cbv beta iota. by rewrite utf8_step_continue by lia.
Qed.

Lemma lstrip_cases (s : string) :
  lstrip s = match whitespace_length s with
             | O => s
             | S k => lstrip (str_drop (S k) s)
             end.
Proof. funelim (lstrip s); by rewrite e. Qed.

Lemma whitespace_only_cases (s : string) :
  whitespace_only s = match whitespace_length s with
                      | O => String.eqb s ""
                      | S k => whitespace_only (str_drop (S k) s)
                      end.
Proof. funelim (whitespace_only s); by rewrite e. Qed.

Lemma lstrip_run (s : string) : utf8_run None (lstrip s) = utf8_run None s.
Proof.
  funelim (lstrip s); [done|].
  transitivity (utf8_run None (str_drop (S k) s)); [exact H|].
  symmetry. by apply whitespace_char_run.
Qed.

Lemma whitespace_only_run (s : string) :
  whitespace_only s = true → utf8_run None s = Some None.
Proof.
  funelim (whitespace_only s).
  - by intros ->%String.eqb_eq.
  - intros Hs. rewrite (whitespace_char_run _ _ e). exact (H Hs).
Qed.

Lemma rstrip_split (s : string) :
  ∃ rest, s = rstrip s +:+ rest ∧ whitespace_only rest = true.
Proof.
  induction s as [|c s (rest & Hs & Hrest)].
  - exists "". by rewrite whitespace_only_cases.
  - cbn [rstrip]. destruct (whitespace_only (String c s)) eqn:Hws.
    + by exists (String c s).
    + exists rest. by rewrite append_String, <-Hs.
Qed.

Lemma universal_newlines_run (st : utf8_state) (s : string) :
  utf8_state_ok st →
  utf8_run st (universal_newlines s) = utf8_run st s.
Proof.
  intros Hok. revert st Hok.
  assert (∀ st, utf8_state_ok st →
            utf8_step st CR = utf8_step st LF
            ∧ (∀ st', utf8_step st LF = Some st' → st' = None ∧ st = None))
    as Hsteps.
  { intros [[[lo hi] more]|] Hok.
    - assert (∀ c, is_Some (utf8_step None c) →
                utf8_step (Some (lo, hi, more)) c = None) as Hin
        by (intros c; by apply utf8_step_inside).
      rewrite (Hin CR), (Hin LF) by by eexists. done.
    - split; [done|]. by intros st' [= <-]. }
  induction s as [|c s IH]; intros st Hok; [done|].
  cbn [universal_newlines]. destruct (Ascii.eqb c CR) eqn:Hc.
  - apply Ascii.eqb_eq in Hc as ->.
    destruct (Hsteps st Hok) as [HCR HLF].
    destruct s as [|d s].
    + cbn [utf8_run]. by rewrite HCR.
    + destruct (Ascii.eqb d LF) eqn:Hd.
      * apply Ascii.eqb_eq in Hd as ->. cbn [utf8_run]. rewrite HCR.
        destruct (utf8_step st LF) as [st'|] eqn:Hst; [|done].
        destruct (HLF _ eq_refl) as [-> ->].
        specialize (IH None I). cbn [universal_newlines] in IH.
        change (Ascii.eqb LF CR) with false in IH. cbn [utf8_run] in IH.
        by change (utf8_step None LF) with (Some (@None (N * N * nat))) in *.
      * cbn [utf8_run]. rewrite HCR.
        destruct (utf8_step st LF) as [st'|] eqn:Hst; [|done].
        destruct (HLF _ eq_refl) as [-> ->]. by apply IH.
  - cbn [utf8_run]. destruct (utf8_step st c) as [st'|] eqn:Hst; [|done].
    apply IH. by eapply utf8_step_ok.
Qed.

Lemma universal_newlines_valid (s : string) :
  valid_utf8 (universal_newlines s) = valid_utf8 s.
Proof. unfold valid_utf8. by rewrite universal_newlines_run. Qed.

Lemma whitespace_length_plain (c : ascii) (r : string) :
  isspace c = false → (N_of_ascii c <? 128)%N = true →
  whitespace_length (String c r) = O.
Proof.
  intros Hc Hlt%N.ltb_lt. unfold whitespace_length. rewrite Hc.
  destruct r as [|d [|e r]]; [done|..].
  - destruct (_ && _) eqn:H2; [|done].
    apply andb_true_iff in H2 as [?%N.eqb_eq _]. lia.
  - destruct (_ && _) eqn:H2.
    { apply andb_true_iff in H2 as [?%N.eqb_eq _]. lia. }
    match goal with
    | |- (if ?b then _ else _) = _ => destruct b eqn:H3; [|done]
    end.
    repeat match goal with
           | H : _ || _ = true |- _ => apply orb_true_iff in H as [H|H]
           | H : _ && _ = true |- _ => apply andb_true_iff in H as [? ?]
           | H : (_ =? _)%N = true |- _ => apply N.eqb_eq in H
           end; lia.
Qed.

Lemma whitespace_length_space (c : ascii) (r : string) :
  isspace c = true → whitespace_length (String c r) = 1%nat.
Proof. intros Hc. unfold whitespace_length. by rewrite Hc. Qed.

Lemma lstrip_space_prefix (ws s : string) :
  all_space ws = true → lstrip (ws +:+ s) = lstrip s.
Proof.
  induction ws as [|c ws IH]; [done|]. cbn [all_space].
  intros [Hc Hws]%andb_true_iff.
  rewrite append_String, lstrip_cases, whitespace_length_space by done.
  by apply IH.
Qed.

Lemma whitespace_only_space (ws : string) :
  all_space ws = true → whitespace_only ws = true.
Proof.
  induction ws as [|c ws IH]; [by rewrite whitespace_only_cases|].
  cbn [all_space]. intros [Hc Hws]%andb_true_iff.
  rewrite whitespace_only_cases, whitespace_length_space by done.
  by apply IH.
Qed.

Lemma all_space_run (ws : string) :
  all_space ws = true → utf8_run None ws = Some None.
Proof.
  intros Hws. by apply whitespace_only_run, whitespace_only_space.
Qed.

(** ** Hex digests as text *)

Lemma hex_digit_plain (c : ascii) :
  is_hex_digit c = true →
  isspace c = false ∧ Ascii.eqb c CR = false ∧ (N_of_ascii c <? 128)%N = true.
Proof. destruct c as [[] [] [] [] [] [] [] []]; by vm_compute. Qed.

Lemma hex_digest_no_newlines (s : string) :
  is_hex_digest s = true → universal_newlines s = s.
Proof.
  induction s as [|c s IH]; [done|]. simpl.
  intros [Hc Hs]%andb_true_iff. apply hex_digit_plain in Hc as (_ & -> & _).
  by rewrite IH.
Qed.

Lemma hex_digest_run (s : string) :
  is_hex_digest s = true → utf8_run None s = Some None.
Proof.
  induction s as [|c s IH]; [done|]. simpl.
  intros [Hc Hs]%andb_true_iff. apply hex_digit_plain in Hc as (_ & _ & Hc).
  rewrite utf8_step_ascii by done. by apply IH.
Qed.

Lemma hex_digest_valid (s : string) :
  is_hex_digest s = true → valid_utf8 s = true.
Proof. intros Hs. unfold valid_utf8. by rewrite hex_digest_run. Qed.

Lemma hex_digest_head (c : ascii) (s : string) :
  is_hex_digit c = true → whitespace_length (String c s) = O.
Proof.
  intros (? & _ & ?)%hex_digit_plain. by apply whitespace_length_plain.
Qed.

Lemma hex_digest_lstrip (s t : string) :
  is_hex_digest s = true → s ≠ "" → lstrip (s +:+ t) = s +:+ t.
Proof.
  destruct s as [|c s]; [done|]. simpl. intros [Hc _]%andb_true_iff _.
  by rewrite append_String, lstrip_cases, hex_digest_head.
Qed.

Lemma hex_digest_rstrip (s ws : string) :
  is_hex_digest s = true → all_space ws = true → rstrip (s +:+ ws) = s.
Proof.
  intros Hs Hws. induction s as [|c s IH].
  - rewrite append_empty_l. destruct ws as [|d ws]; [done|].
    cbn [rstrip]. by rewrite whitespace_only_space.
  - simpl in Hs. apply andb_true_iff in Hs as [Hc Hs].
    rewrite append_String. cbn [rstrip].
    rewrite whitespace_only_cases, hex_digest_head by done.
    cbn [String.eqb]. by rewrite IH.
Qed.

Lemma hex_digest_strip (s : string) :
  is_hex_digest s = true → strip s = s.
Proof.
  intros Hs. unfold strip. destruct (decide (s = "")) as [->|Hne]; [done|].
  rewrite <-(append_empty_r s) at 1.
  rewrite hex_digest_lstrip by done.
  by rewrite hex_digest_rstrip.
Qed.

(** A text that strips to a hex digest is well-formed. *)
Lemma strip_hex_valid (s : string) :
  is_hex_digest (strip s) = true → valid_utf8 s = true.
Proof.
  unfold strip, valid_utf8. intros Hhex.
  rewrite <-lstrip_run.
  destruct (rstrip_split (lstrip s)) as (rest & Hs & Hrest).
  rewrite Hs, utf8_run_app, hex_digest_run by done.
  by rewrite whitespace_only_run.
Qed.

Example strip_examples :
  strip "  abc  " = "abc" ∧
  strip (String LF (String CR "")) = "" ∧
  strip (String (ascii_of_nat 194) (String (ascii_of_nat 160) "ab")) = "ab" ∧
  strip ("ab" +:+ String (ascii_of_nat 226) (String (ascii_of_nat 128)
                    (String (ascii_of_nat 137) ""))) = "ab" ∧
  strip (String (ascii_of_nat 195) (String (ascii_of_nat 160) "ab"))
  = String (ascii_of_nat 195) (String (ascii_of_nat 160) "ab").
Proof. by vm_compute. Qed.

Lemma hex_is_hex_digest (b : bytes) : is_hex_digest (hex b) = true.
Proof.
  induction b as [|x b IH]; [done|].
  change (hex (x :: b)) with (hex_of_byte x +:+ hex b).
  unfold hex_of_byte. rewrite !append_String, append_empty_l.
  cbn [is_hex_digest]. rewrite IH, andb_true_r. by destruct x; vm_compute.
Qed.

(** ** Text files *)

Lemma decode_encode (s : string) : decode (encode s) = s.
Proof. apply string_of_list_byte_of_string. Qed.

Lemma encode_append (s t : string) : encode (s +:+ t) = encode s ++ encode t.
Proof.
  unfold encode, list_byte_of_string.
  induction s as [|c s IH]; [done|].
  rewrite append_String. simpl. by rewrite IH.
Qed.

Lemma set_file_twice (path : string) (f g : File) (w : World) :
  set_file path g (set_file path f w) = set_file path g w.
Proof. unfold set_file. simpl. by rewrite insert_insert_eq. Qed.

Lemma data_at_set_file (path : string) (f : File) (w : World) :
  data_at (set_file path f w) path = Some (f_data f).
Proof. unfold data_at, set_file. simpl. by rewrite lookup_insert_eq. Qed.

Lemma fs_set_file_ne (path p : string) (f : File) (w : World) :
  p ≠ path → fs (set_file path f w) !! p = fs w !! p.
Proof. intros Hne. unfold set_file. simpl. by rewrite lookup_insert_ne. Qed.

Lemma file_write_run (path text before : string) (w : World) :
  valid_utf8 text = true →
  file_write path text (with_text path before w)
  = (Ok tt, with_text path (before +:+ text) w, []).
Proof.
  intros Htext. unfold file_write, with_text.
  rewrite Htext, data_at_set_file, set_file_twice.
  simpl. by rewrite encode_append.
Qed.

Lemma file_write_raises (path text : string) (w : World) :
  valid_utf8 text = false →
  file_write path text w = (Raise (UnicodeEncodeError text), w, []).
Proof. intros Htext. unfold file_write. by rewrite Htext. Qed.

Lemma open_w_run (path : string) (w : World) :
  open_w path w = (Ok tt, with_text path "" w, []).
Proof. done. Qed.

(** The reader of a text file, in its three cases. *)
Lemma open_r_read_run (path : string) (w : World) :
  open_r_read path w
  = match data_at w path with
    | Some b =>
        if valid_utf8 (decode b)
        then (Ok (universal_newlines (decode b)), w, [])
        else (Raise (UnicodeDecodeError b), w, [])
    | None => (Raise (FileNotFoundError path), w, [])
    end.
Proof. unfold open_r_read, data_at. by destruct (fs w !! path). Qed.

(** ** The playlist builder *)

Lemma first_unencodable_None (files : list string) :
  first_unencodable files = None ↔ Forall (λ p, valid_utf8 p = true) files.
Proof.
  induction files as [|file files IH]; simpl.
  - split; [by constructor|done].
  - rewrite Forall_cons. destruct (valid_utf8 file).
    + destruct (first_unencodable files) as [[before bad]|].
      * split; [done|]. intros [_ Hall]. by apply IH in Hall.
      * split; [|done]. intros _. split; [done|]. by apply IH.
    + split; [done|]. by intros [? _].
Qed.

Lemma first_unencodable_Some (files before : list string) (bad : string) :
  first_unencodable files = Some (before, bad) ↔
  Forall (λ p, valid_utf8 p = true) before ∧ valid_utf8 bad = false ∧
  ∃ after, files = before ++ bad :: after.
Proof.
  revert before. induction files as [|file files IH]; intros before; simpl.
  - split; [done|]. intros (_ & _ & after & Hfiles). by destruct before.
  - destruct (valid_utf8 file) eqn:Hfile.
    + destruct (first_unencodable files) as [[before' bad']|] eqn:Hrest.
      * split.
        -- intros [= <- <-]. destruct (proj1 (IH before') eq_refl)
             as (Hbefore & Hbad & after & ->).
           split_and!; [by constructor|done|by exists after].
        -- intros (Hbefore & Hbad & after & Hfiles).
           destruct before as [|p before]; simplify_list_eq; [congruence|].
           apply Forall_cons in Hbefore as [_ Hbefore].
           assert (Some (before', bad') = Some (before, bad)) as [= -> ->];
             [|done].
           apply IH. split_and!; [done..|by exists after].
      * split; [done|]. intros (Hbefore & Hbad & after & Hfiles).
        destruct before as [|p before]; simplify_list_eq; [congruence|].
        apply Forall_cons in Hbefore as [_ Hbefore].
        assert (@None (list string * string) = Some (before, bad)); [|done].
        apply IH. split_and!; [done..|by exists after].
    + split.
      * intros [= <- <-]. split_and!; [by constructor|done|by exists files].
      * intros (Hbefore & Hbad & after & Hfiles).
        destruct before as [|p before]; simplify_list_eq; [done|].
        apply Forall_cons in Hbefore as [? _]. congruence.
Qed.

(** The writes of the builder: every line up to the first path that cannot
    be encoded reaches the destination; that path ends the loop. *)
Lemma write_lines_outcome (path before : string) (files : list string)
    (w : World) :
  for_each files (λ file, file_write path ("file '" +:+ file +:+ "'" +:+ NL))
    (with_text path before w)
  = match first_unencodable files with
    | None => (Ok tt, with_text path (before +:+ manifest_text files) w, [])
    | Some (written, bad) =>
        (Raise (UnicodeEncodeError ("file '" +:+ bad +:+ "'" +:+ NL)),
         with_text path (before +:+ manifest_text written) w, [])
    end.
Proof.
  revert before. induction files as [|file files IH]; intros before; simpl.
  - by rewrite append_empty_r.
  - destruct (valid_utf8 file) eqn:Hfile.
    + erewrite bind_ok;
        [|apply file_write_run; by rewrite valid_utf8_line].
      rewrite IH.
      destruct (first_unencodable files) as [[written bad]|]; simpl;
        by rewrite !append_assoc.
    + erewrite bind_raise;
        [|apply file_write_raises; by rewrite valid_utf8_line].
      simpl. by rewrite append_empty_r.
Qed.

Lemma generate_playlist_outcome (files : list string) (path : string)
    (w : World) :
  generate_playlist files path w
  = match first_unencodable files with
    | None =>
        (Ok tt, with_text path (manifest_text files) w,
         [Called Fgenerate_playlist])
    | Some (written, bad) =>
        (Raise (UnicodeEncodeError ("file '" +:+ bad +:+ "'" +:+ NL)),
         with_text path (manifest_text written) w,
         [Called Fgenerate_playlist])
    end.
Proof.
  unfold generate_playlist.
  erewrite bind_ok; [|done]. erewrite bind_ok; [|apply open_w_run].
  rewrite write_lines_outcome.
  by destruct (first_unencodable files) as [[written bad]|].
Qed.

Lemma generate_playlist_run (files : list string) (path : string) (w : World) :
  Forall (λ p, valid_utf8 p = true) files →
  generate_playlist files path w
  = (Ok tt, with_text path (manifest_text files) w, [Called Fgenerate_playlist]).
Proof.
  intros Hfiles%first_unencodable_None.
  by rewrite generate_playlist_outcome, Hfiles.
Qed.

Lemma data_at_with_text (path text : string) (w : World) :
  decode <$> data_at (with_text path text w) path = Some text.
Proof.
  unfold with_text. rewrite data_at_set_file. simpl. by rewrite decode_encode.
Qed.

(** C7 (amended). For every ordered sequence of files whose paths can be
    encoded as UTF-8, the playlist builder leaves at the destination exactly
    the lines [file '<path>'], one per file and in the supplied order,
    whatever the destination held before, and touches no other file; the
    path is copied as it is, a single quote included.  A path that cannot
    be encoded (a file name that is not UTF-8) makes the builder raise
    [UnicodeEncodeError]: the destination then holds the lines of the files
    in front of it only.  For the three files of modification times 1, 2
    and 3 the manifest built from the scan lists them in that order. *)
Theorem playlist_manifest :
  (∀ (w : World) (files : list string) (playlist_path : string),
     Forall (λ p, valid_utf8 p = true) files →
     ∃ w',
       generate_playlist files playlist_path w
       = (Ok tt, w', [Called Fgenerate_playlist]) ∧
       decode <$> data_at w' playlist_path = Some (manifest_text files) ∧
       (∀ p, p ≠ playlist_path → fs w' !! p = fs w !! p)) ∧
  (∀ (w : World) (before after : list string) (bad playlist_path : string),
     Forall (λ p, valid_utf8 p = true) before →
     valid_utf8 bad = false →
     ∃ w',
       generate_playlist (before ++ bad :: after) playlist_path w
       = (Raise (UnicodeEncodeError ("file '" +:+ bad +:+ "'" +:+ NL)), w',
          [Called Fgenerate_playlist]) ∧
       decode <$> data_at w' playlist_path = Some (manifest_text before) ∧
       (∀ p, p ≠ playlist_path → fs w' !! p = fs w !! p)) ∧
  manifest_text ["/music/it's.wav"; "/music/b.wav"]
  = "file '/music/it's.wav'
file '/music/b.wav'
" ∧
  (let '(_, w', _) :=
     (let* files := get_files_sorted_by_mtime music_dir default_extension in
      generate_playlist files playlist_file) scenario_A in
   decode <$> data_at w' playlist_file
   = Some "file '/Volumes/BrahmaSSD/music/AiGen/a.wav'
file '/Volumes/BrahmaSSD/music/AiGen/old/b.wav'
file '/Volumes/BrahmaSSD/music/AiGen/c.wav'
").
Proof.
  split_and!.
  - intros w files path Hfiles. eexists. split_and!.
    + by apply generate_playlist_run.
    + apply data_at_with_text.
    + intros p Hp. by apply fs_set_file_ne.
  - intros w before after bad path Hbefore Hbad. eexists. split_and!.
    + rewrite generate_playlist_outcome.
      assert (first_unencodable (before ++ bad :: after) = Some (before, bad))
        as ->; [|done].
      apply first_unencodable_Some. split_and!; [done..|by exists after].
    + apply data_at_with_text.
    + intros p Hp. by apply fs_set_file_ne.
  - reflexivity.
  - vm_compute. reflexivity.
Qed.

Lemma playlist_manifest_witness :
  let files := [music_dir +:+ "/a.wav"; music_dir +:+ "/old/b.wav"] in
  let before := [music_dir +:+ "/a.wav"] in
  let bad := music_dir +:+ "/" +:+ odd_name in
  Forall (λ p, valid_utf8 p = true) files ∧
  Forall (λ p, valid_utf8 p = true) before ∧
  valid_utf8 bad = false ∧
  (∃ w',
     generate_playlist files playlist_file scenario_A
     = (Ok tt, w', [Called Fgenerate_playlist]) ∧
     decode <$> data_at w' playlist_file = Some (manifest_text files) ∧
     (∀ p, p ≠ playlist_file → fs w' !! p = fs scenario_A !! p)) ∧
  (∃ w',
     generate_playlist (before ++ bad :: []) playlist_file scenario_U
     = (Raise (UnicodeEncodeError ("file '" +:+ bad +:+ "'" +:+ NL)), w',
        [Called Fgenerate_playlist]) ∧
     decode <$> data_at w' playlist_file = Some (manifest_text before) ∧
     (∀ p, p ≠ playlist_file → fs w' !! p = fs scenario_U !! p)).
Proof.
  intros files before bad.
  assert (Forall (λ p, valid_utf8 p = true) files) as Hfiles.
  { apply (bool_decide_unpack _). vm_compute. exact I. }
  assert (Forall (λ p, valid_utf8 p = true) before) as Hbefore.
  { apply (bool_decide_unpack _). vm_compute. exact I. }
  assert (valid_utf8 bad = false) as Hbad by (vm_compute; reflexivity).
  exact (conj Hfiles (conj Hbefore (conj Hbad (conj
    (proj1 playlist_manifest scenario_A files playlist_file Hfiles)
    (proj1 (proj2 playlist_manifest) scenario_U before [] bad playlist_file
       Hbefore Hbad))))).
Defined.

(** C7, as the specification states it, fails: the scan of a directory
    that holds a file whose name is not UTF-8 returns its path, and the
    builder raises on it; the manifest stops in front of that file. *)
Lemma playlist_of_any_sequence_refuted :
  ¬ (∀ (w : World) (files : list string) (playlist_path : string),
       ∃ w',
         generate_playlist files playlist_path w
         = (Ok tt, w', [Called Fgenerate_playlist]) ∧
         decode <$> data_at w' playlist_path = Some (manifest_text files)).
Proof.
  intros Hclaim.
  destruct (Hclaim scenario_U
              [music_dir +:+ "/a.wav"; music_dir +:+ "/" +:+ odd_name]
              playlist_file) as (w' & Hrun & _).
  vm_compute in Hrun. discriminate Hrun.
Qed.

Example scan_with_odd_name :
  (get_files_sorted_by_mtime music_dir default_extension scenario_U).1.1
  = Ok [music_dir +:+ "/a.wav"; music_dir +:+ "/" +:+ odd_name] ∧
  (let '(r, w', _) :=
     (let* files := get_files_sorted_by_mtime music_dir default_extension in
      generate_playlist files playlist_file) scenario_U in
   r = Raise (UnicodeEncodeError
                ("file '" +:+ music_dir +:+ "/" +:+ odd_name +:+ "'" +:+ NL)) ∧
   decode <$> data_at w' playlist_file
   = Some "file '/Volumes/BrahmaSSD/music/AiGen/a.wav'
").
Proof. split; vm_compute; [reflexivity|by split]. Qed.

(** ** The checksum cache *)

Lemma write_new_checksum_run (checksum path : string) (w : World) :
  valid_utf8 checksum = true →
  write_new_checksum checksum path w
  = (Ok tt, with_text path checksum w, [Called Fwrite_new_checksum]).
Proof.
  intros Hsum. unfold write_new_checksum.
  erewrite bind_ok; [|done]. erewrite bind_ok; [|apply open_w_run].
  by rewrite file_write_run.
Qed.

(** The reader returns the stripped text of a file that is well-formed,
    the empty string when there is no file, and raises on a file that is
    not well-formed: only [FileNotFoundError] is caught. *)
Lemma read_previous_checksum_outcome (path : string) (w : World) :
  read_previous_checksum path w
  = (if readable_text w path then Ok (persisted_checksum w path)
     else Raise (UnicodeDecodeError (default [] (data_at w path))),
     w, [Called Fread_previous_checksum]).
Proof.
  unfold read_previous_checksum, persisted_checksum, readable_text.
  erewrite bind_ok; [|done].
  unfold try_except_FileNotFoundError, bind. rewrite open_r_read_run.
  destruct (data_at w path) as [b|]; [|done].
  by destruct (valid_utf8 (decode b)).
Qed.

Lemma read_previous_checksum_run (path : string) (w : World) :
  readable_text w path = true →
  read_previous_checksum path w
  = (Ok (persisted_checksum w path), w, [Called Fread_previous_checksum]).
Proof. intros Hr. by rewrite read_previous_checksum_outcome, Hr. Qed.

Lemma persisted_checksum_with_text (path digest : string) (w : World) :
  is_hex_digest digest = true →
  persisted_checksum (with_text path digest w) path = digest.
Proof.
  intros Hd. unfold persisted_checksum, with_text.
  rewrite data_at_set_file. simpl.
  by rewrite decode_encode, hex_digest_no_newlines, hex_digest_strip.
Qed.

Lemma readable_text_with_text (path text : string) (w : World) :
  readable_text (with_text path text w) path = valid_utf8 text.
Proof.
  unfold readable_text, with_text. rewrite data_at_set_file. simpl.
  by rewrite decode_encode.
Qed.

(** A checksum file that reads as a hex digest is well-formed. *)
Lemma persisted_hex_readable (path : string) (w : World) :
  is_hex_digest (persisted_checksum w path) = true →
  readable_text w path = true.
Proof.
  unfold persisted_checksum, readable_text.
  destruct (data_at w path) as [b|]; [|done].
  intros Hhex%strip_hex_valid. by rewrite universal_newlines_valid in Hhex.
Qed.

(** C6. Writing a hex digest with the checksum writer and reading it back
    with the checksum reader gives the same string; reading a path that does
    not exist returns the empty string and raises nothing. *)
Theorem checksum_round_trip :
  (∀ (w : World) (digest path : string),
     is_hex_digest digest = true →
     ∃ w',
       write_new_checksum digest path w
       = (Ok tt, w', [Called Fwrite_new_checksum]) ∧
       read_previous_checksum path w'
       = (Ok digest, w', [Called Fread_previous_checksum])) ∧
  (∀ (w : World) (path : string),
     fs w !! path = None →
     read_previous_checksum path w
     = (Ok "", w, [Called Fread_previous_checksum])).
Proof.
  split.
  - intros w digest path Hd. eexists. split.
    + by apply write_new_checksum_run, hex_digest_valid.
    + rewrite read_previous_checksum_run, persisted_checksum_with_text; [done..|].
      rewrite readable_text_with_text. by apply hex_digest_valid.
  - intros w path Hnone. rewrite read_previous_checksum_outcome.
    unfold persisted_checksum, readable_text, data_at. by rewrite Hnone.
Qed.

Lemma checksum_round_trip_witness :
  is_hex_digest "fe959319b53b5881ba4c904c1d2559e0" = true ∧
  fs scenario_B !! checksum_file = None ∧
  (∃ w',
     write_new_checksum "fe959319b53b5881ba4c904c1d2559e0" checksum_file
       scenario_A
     = (Ok tt, w', [Called Fwrite_new_checksum]) ∧
     read_previous_checksum checksum_file w'
     = (Ok "fe959319b53b5881ba4c904c1d2559e0", w',
        [Called Fread_previous_checksum])) ∧
  read_previous_checksum checksum_file scenario_B
  = (Ok "", scenario_B, [Called Fread_previous_checksum]).
Proof.
  split_and!.
  - reflexivity.
  - reflexivity.
  - exact (proj1 checksum_round_trip scenario_A
             "fe959319b53b5881ba4c904c1d2559e0" checksum_file eq_refl).
  - exact (proj2 checksum_round_trip scenario_B checksum_file eq_refl).
Defined.
(** ** The loop body *)

Lemma getmtime_outcome (w : World) (l : list string) :
  (Forall (λ p, is_Some (fs w !! p)) l ∧
   map_M os_path_getmtime l w = (Ok (mtime_of w <$> l), w, [])) ∨
  (∃ p, p ∈ l ∧ fs w !! p = None ∧
        map_M os_path_getmtime l w = (Raise (FileNotFoundError p), w, [])).
Proof.
  induction l as [|p l IH].
  - left. by split.
  - destruct (fs w !! p) as [f|] eqn:Hp.
    + destruct IH as [[Hl IH]|(q & Hq & Hnone & IH)].
      * left. split; [by constructor|]. apply getmtime_all. by constructor.
      * right. exists q. split_and!; [by right|done|]. simpl.
        erewrite bind_ok; [|unfold os_path_getmtime; by rewrite Hp].
        by erewrite bind_raise.
    + right. exists p. split_and!; [by left|done|]. simpl.
      erewrite bind_raise; [done|]. unfold os_path_getmtime. by rewrite Hp.
Qed.

(** Whatever the scanner answers, it leaves the world as it was; when it
    returns, every file of the result exists. *)
Lemma scanner_outcome (w : World) (directory extension : string) :
  (∃ files,
     get_files_sorted_by_mtime directory extension w
     = (Ok files, w, [Called Fget_files_sorted_by_mtime]) ∧
     files = sorted_on (mtime_of w) (matching_files w directory extension) ∧
     Forall (λ p, is_Some (fs w !! p)) files) ∨
  (∃ p,
     get_files_sorted_by_mtime directory extension w
     = (Raise (FileNotFoundError p), w, [Called Fget_files_sorted_by_mtime])).
Proof.
  destruct (getmtime_outcome w (matching_files w directory extension))
    as [[Hex Hrun]|(p & Hp & Hnone & Hrun)].
  - left. eexists. split_and!; [by apply scanner_run|done|].
    by rewrite sorted_on_perm.
  - right. exists p. unfold get_files_sorted_by_mtime.
    erewrite bind_ok; [|done]. erewrite bind_ok; [|done].
    rewrite collect_triples. simpl. unfold sorted.
    by erewrite bind_raise.
Qed.

Lemma scanner_returned (w w0 : World) (directory extension : string) files ev :
  get_files_sorted_by_mtime directory extension w = (Ok files, w0, ev) →
  w0 = w ∧ ev = [Called Fget_files_sorted_by_mtime] ∧
  Forall (λ p, is_Some (fs w !! p)) files.
Proof.
  intros Hrun.
  destruct (scanner_outcome w directory extension)
    as [(files' & Hrun' & _ & Hex)|(p & Hrun')]; rewrite Hrun' in Hrun.
  - by injection Hrun as <- <- <-.
  - done.
Qed.

Lemma existing_files_have_data (w : World) (files : list string) :
  Forall (λ p, is_Some (fs w !! p)) files →
  ∃ datas, mapM (data_at w) files = Some datas.
Proof.
  intros Hex. apply mapM_is_Some_2. eapply Forall_impl; [done|].
  intros p [f Hf]. unfold data_at, compose. by rewrite Hf.
Qed.

Section loop.
Context `{HashAlg}.
Variable proc : list string → World → proc_outcome * World.

Lemma subprocess_run_check_run (cmd : list string) (w : World) :
  subprocess_run_check proc cmd w
  = (spawn_result cmd (proc cmd w).1, (proc cmd w).2,
     [Spawned cmd (proc cmd w).1]).
Proof.
  unfold subprocess_run_check, spawn_result.
  destruct (proc cmd w) as [[status|] w']; simpl; [|done].
  by destruct (status =? 0).
Qed.

Lemma concatenate_files_run (playlist_path output_path : string) (w : World) :
  let cmd := ffmpeg_cmd playlist_path output_path in
  concatenate_files proc playlist_path output_path w
  = (spawn_result cmd (proc cmd w).1, (proc cmd w).2,
     [Called Fconcatenate_files;
      Printed ("Running command: " +:+ str_join " " cmd);
      Spawned cmd (proc cmd w).1]).
Proof.
  intros cmd. unfold concatenate_files.
  erewrite bind_ok; [|done]. erewrite bind_ok; [|done].
  by rewrite subprocess_run_check_run.
Qed.

Lemma play_audio_run (file_path : string) (w : World) :
  let cmd := mpv_cmd file_path in
  play_audio proc file_path w
  = (spawn_result cmd (proc cmd w).1, (proc cmd w).2,
     [Called Fplay_audio; Spawned cmd (proc cmd w).1]).
Proof.
  intros cmd. unfold play_audio.
  erewrite bind_ok; [|done]. by rewrite subprocess_run_check_run.
Qed.

Lemma rebuild_needed_run (current previous : string) (w : World) :
  rebuild_needed current previous w
  = (Ok (negb (String.eqb current previous)
         || negb (path_exists w output_file)), w, []).
Proof.
  unfold rebuild_needed.
  destruct (String.eqb current previous); cbn [negb orb]; [|done].
  erewrite bind_ok; [|done]. done.
Qed.

(** The rebuild: it stops in the builder on a path that cannot be encoded,
    in the transcoder when the spawn fails, and writes the checksum
    otherwise. *)
Lemma rebuild_outcome (files : list string) (current : string) (w : World) :
  valid_utf8 current = true →
  let cmd := ffmpeg_cmd playlist_file output_file in
  let w1 := with_text playlist_file (manifest_text files) w in
  let o := (proc cmd w1).1 in
  rebuild proc files current w
  = match first_unencodable files with
    | Some (written, bad) =>
        (Raise (UnicodeEncodeError ("file '" +:+ bad +:+ "'" +:+ NL)),
         with_text playlist_file (manifest_text written) w,
         regenerate_events)
    | None =>
        match spawn_result cmd o with
        | Ok _ =>
            (Ok tt, with_text checksum_file current (proc cmd w1).2,
             transcode_events o ++ [Called Fwrite_new_checksum])
        | Raise e => (Raise e, (proc cmd w1).2, transcode_events o)
        end
    end.
Proof.
  intros Hcur cmd w1 o. unfold rebuild.
  erewrite bind_ok; [|done].
  pose proof (generate_playlist_outcome files playlist_file w) as Hg.
  destruct (first_unencodable files) as [[written bad]|].
  { by erewrite bind_raise. }
  erewrite bind_ok; [|exact Hg].
  erewrite bind_run; [|apply concatenate_files_run].
  fold cmd w1 o. destruct (spawn_result cmd o) as [[]|e]; [|done].
  by rewrite write_new_checksum_run.
Qed.

Lemma rebuild_run (files : list string) (current : string) (w : World) :
  valid_utf8 current = true →
  Forall (λ p, valid_utf8 p = true) files →
  let cmd := ffmpeg_cmd playlist_file output_file in
  let w1 := with_text playlist_file (manifest_text files) w in
  let o := (proc cmd w1).1 in
  rebuild proc files current w
  = match spawn_result cmd o with
    | Ok _ =>
        (Ok tt, with_text checksum_file current (proc cmd w1).2,
         transcode_events o ++ [Called Fwrite_new_checksum])
    | Raise e => (Raise e, (proc cmd w1).2, transcode_events o)
    end.
Proof.
  intros Hcur Hfiles%first_unencodable_None cmd w1 o.
  rewrite rebuild_outcome by done. by rewrite Hfiles.
Qed.

(** One pass on a world in which the scan finds files. *)
Lemma loop_body_found (w w0 : World) files ev0 (current : string) :
  get_files_sorted_by_mtime music_dir default_extension w = (Ok files, w0, ev0) →
  files ≠ [] →
  calculate_checksum files w = (Ok current, w, [Called Fcalculate_checksum]) →
  valid_utf8 current = true →
  let ffmpeg := ffmpeg_cmd playlist_file output_file in
  let mpv := mpv_cmd output_file in
  let w1 := with_text playlist_file (manifest_text files) w in
  let o1 := (proc ffmpeg w1).1 in
  let w3 := with_text checksum_file current (proc ffmpeg w1).2 in
  loop_body proc w
  = if readable_text w checksum_file then
      if negb (String.eqb current (persisted_checksum w checksum_file))
         || negb (path_exists w output_file)
      then
        match first_unencodable files with
        | Some (written, bad) =>
            (Raise (UnicodeEncodeError ("file '" +:+ bad +:+ "'" +:+ NL)),
             with_text playlist_file (manifest_text written) w,
             check_events ++ regenerate_events)
        | None =>
            match spawn_result ffmpeg o1 with
            | Ok _ =>
                (spawn_result mpv (proc mpv w3).1, (proc mpv w3).2,
                 check_events ++ transcode_events o1
                 ++ [Called Fwrite_new_checksum]
                 ++ play_events (proc mpv w3).1)
            | Raise e =>
                (Raise e, (proc ffmpeg w1).2,
                 check_events ++ transcode_events o1)
            end
        end
      else
        (spawn_result mpv (proc mpv w).1, (proc mpv w).2,
         check_events ++ skip_events ++ play_events (proc mpv w).1)
    else
      (Raise (UnicodeDecodeError (default [] (data_at w checksum_file))), w,
       check_events).
Proof.
  intros Hscan Hne Hsum Hcur ffmpeg mpv w1 o1 w3.
  destruct (scanner_returned _ _ _ _ _ _ Hscan) as (-> & -> & _).
  unfold loop_body. erewrite bind_ok; [|exact Hscan].
  destruct files as [|file files]; [done|].
  erewrite bind_ok; [|exact Hsum].
  erewrite bind_run; [|apply read_previous_checksum_outcome].
  destruct (readable_text w checksum_file); [|done].
  erewrite bind_ok; [|apply rebuild_needed_run].
  destruct (negb _ || negb _).
  - pose proof (rebuild_outcome (file :: files) current w Hcur) as Hr.
    cbv zeta in Hr. fold ffmpeg w1 o1 in Hr. revert Hr.
    destruct (first_unencodable (file :: files)) as [[written bad]|].
    { intros Hr. by erewrite bind_raise. }
    destruct (spawn_result ffmpeg o1) as [[]|e]; intros Hr.
    + erewrite bind_ok; [|exact Hr]. erewrite bind_ok; [|done].
      rewrite play_audio_run. fold w3. by rewrite <-!app_assoc.
    + by erewrite bind_raise.
  - erewrite bind_ok; [|done]. erewrite bind_ok; [|done].
    by rewrite play_audio_run.
Qed.

(** The same pass when the checksum file can be read and every path can
    be encoded. *)
Lemma loop_body_found_plain (w w0 : World) files ev0 (current : string) :
  get_files_sorted_by_mtime music_dir default_extension w = (Ok files, w0, ev0) →
  files ≠ [] →
  calculate_checksum files w = (Ok current, w, [Called Fcalculate_checksum]) →
  valid_utf8 current = true →
  readable_text w checksum_file = true →
  Forall (λ p, valid_utf8 p = true) files →
  let ffmpeg := ffmpeg_cmd playlist_file output_file in
  let mpv := mpv_cmd output_file in
  let w1 := with_text playlist_file (manifest_text files) w in
  let o1 := (proc ffmpeg w1).1 in
  let w3 := with_text checksum_file current (proc ffmpeg w1).2 in
  loop_body proc w
  = if negb (String.eqb current (persisted_checksum w checksum_file))
       || negb (path_exists w output_file)
    then
      match spawn_result ffmpeg o1 with
      | Ok _ =>
          (spawn_result mpv (proc mpv w3).1, (proc mpv w3).2,
           check_events ++ transcode_events o1
           ++ [Called Fwrite_new_checksum] ++ play_events (proc mpv w3).1)
      | Raise e =>
          (Raise e, (proc ffmpeg w1).2, check_events ++ transcode_events o1)
      end
    else
      (spawn_result mpv (proc mpv w).1, (proc mpv w).2,
       check_events ++ skip_events ++ play_events (proc mpv w).1).
Proof.
  intros Hscan Hne Hsum Hcur Hread Hfiles%first_unencodable_None.
  intros ffmpeg mpv w1 o1 w3.
  rewrite (loop_body_found _ _ _ _ _ Hscan Hne Hsum Hcur).
  by rewrite Hread, Hfiles.
Qed.

(** One pass on a world in which the scan finds nothing. *)
Lemma loop_body_no_files (w w0 : World) ev0 :
  get_files_sorted_by_mtime music_dir default_extension w = (Ok [], w0, ev0) →
  loop_body proc w = (Ok tt, w, no_files_events).
Proof.
  intros Hscan.
  destruct (scanner_returned _ _ _ _ _ _ Hscan) as (-> & -> & _).
  unfold loop_body. erewrite bind_ok; [|exact Hscan]. done.
Qed.

(** One pass on a world in which the scan itself raises. *)
Lemma loop_body_scan_raises (w w0 : World) e ev0 :
  get_files_sorted_by_mtime music_dir default_extension w = (Raise e, w0, ev0) →
  loop_body proc w = (Raise e, w, [Called Fget_files_sorted_by_mtime]).
Proof.
  intros Hscan.
  destruct (scanner_outcome w music_dir default_extension)
    as [(files' & Hrun' & _)|(p & Hrun')]; rewrite Hrun' in Hscan; [done|].
  injection Hscan as <- <- <-. unfold loop_body.
  erewrite bind_raise; [|exact Hrun']. done.
Qed.

(** The digest of the files of a successful scan can always be
    computed. *)
Lemma checksum_of_scan (w w0 : World) files ev0 :
  get_files_sorted_by_mtime music_dir default_extension w = (Ok files, w0, ev0) →
  ∃ current,
    calculate_checksum files w
    = (Ok current, w, [Called Fcalculate_checksum]) ∧
    is_hex_digest current = true.
Proof.
  intros Hscan.
  destruct (scanner_returned _ _ _ _ _ _ Hscan) as (_ & _ & Hex).
  destruct (existing_files_have_data w files Hex) as [datas Hd].
  eexists. split; [by apply checksum_run|]. apply hex_is_hex_digest.
Qed.
End loop.

(** ** Observations on the events of each kind of pass *)

Lemma unreadable_pass_observed :
  manifest_generated check_events = false ∧
  transcoder_invoked check_events = false ∧
  checksum_written check_events = false ∧
  playback_attempted check_events = false.
Proof. by vm_compute. Qed.

Lemma unencodable_pass_observed :
  let ev := check_events ++ regenerate_events in
  manifest_generated ev = true ∧ transcoder_invoked ev = false ∧
  checksum_written ev = false ∧ playback_attempted ev = false.
Proof. by vm_compute. Qed.

Lemma rebuilt_pass_observed (o1 o2 : proc_outcome) :
  let ev := check_events ++ transcode_events o1
            ++ [Called Fwrite_new_checksum] ++ play_events o2 in
  manifest_generated ev = true ∧ transcoder_invoked ev = true ∧
  checksum_written ev = true ∧ playback_attempted ev = true.
Proof. by vm_compute. Qed.

Lemma failed_rebuild_observed (o1 : proc_outcome) :
  let ev := check_events ++ transcode_events o1 in
  manifest_generated ev = true ∧ transcoder_invoked ev = true ∧
  checksum_written ev = false ∧ playback_attempted ev = false.
Proof. by vm_compute. Qed.

Lemma skipped_pass_observed (o2 : proc_outcome) :
  let ev := check_events ++ skip_events ++ play_events o2 in
  manifest_generated ev = false ∧ transcoder_invoked ev = false ∧
  checksum_written ev = false ∧ playback_attempted ev = true.
Proof. by vm_compute. Qed.

Lemma no_files_pass_observed :
  manifest_generated no_files_events = false ∧
  checksum_computed no_files_events = false ∧
  transcoder_invoked no_files_events = false ∧
  checksum_written no_files_events = false ∧
  playback_attempted no_files_events = false ∧
  existsb (printed "No .wav files found in the directory.") no_files_events
  = true.
Proof. by vm_compute. Qed.

Lemma rebuild_condition (current previous : string) (present : bool) :
  negb (String.eqb current previous) || negb present = true
  ↔ current ≠ previous ∨ present = false.
Proof.
  destruct (String.eqb_spec current previous) as [Heq|Hne], present; simpl.
  - split; [done|]. by intros [?|?].
  - split; [by right|done].
  - split; [by left|done].
  - split; [by left|done].
Qed.

(** ** A file set that has not changed *)

Lemma sorted_on_ext {A} (f g : A → Z) (l : list A) :
  (∀ x, x ∈ l → f x = g x) → sorted_on f l = sorted_on g l.
Proof.
  intros Hfg. unfold sorted_on. do 3 f_equal.
  apply list_fmap_ext. intros i x Hx. apply Hfg. by eapply list_elem_of_lookup_2.
Qed.

Lemma scan_unchanged (w w' : World) (directory extension : string) files :
  walk_of w' directory = walk_of w directory →
  (∀ p, p ∈ matching_files w directory extension → fs w' !! p = fs w !! p) →
  get_files_sorted_by_mtime directory extension w
  = (Ok files, w, [Called Fget_files_sorted_by_mtime]) →
  get_files_sorted_by_mtime directory extension w'
  = (Ok files, w', [Called Fget_files_sorted_by_mtime]) ∧
  (∀ p, p ∈ files → fs w' !! p = fs w !! p).
Proof.
  intros Hwalk Hfs Hscan.
  assert (matching_files w' directory extension
          = matching_files w directory extension) as Hm.
  { unfold matching_files. by rewrite Hwalk. }
  destruct (scanner_outcome w directory extension)
    as [(files' & Hrun & -> & Hex)|(p & Hrun)]; rewrite Hrun in Hscan; [|done].
  injection Hscan as <-. rewrite sorted_on_perm in Hex. split.
  - rewrite scanner_run; rewrite Hm.
    + do 2 f_equal. f_equal. apply sorted_on_ext. intros p Hp.
      unfold mtime_of. by rewrite Hfs.
    + rewrite Forall_forall in Hex |- *. intros p Hp.
      rewrite Hfs by done. by apply Hex.
  - intros p Hp. apply Hfs. by rewrite sorted_on_perm in Hp.
Qed.

Lemma data_unchanged (w w' : World) (files : list string) (datas : list bytes) :
  (∀ p, p ∈ files → fs w' !! p = fs w !! p) →
  mapM (data_at w) files = Some datas →
  mapM (data_at w') files = Some datas.
Proof.
  rewrite !mapM_Some. intros Hfs Hd.
  induction Hd as [|p d files datas Hp Hd IH]; constructor.
  - unfold data_at in *. rewrite Hfs; [done|by left].
  - apply IH. intros q Hq. apply Hfs. by right.
Qed.

(** The spawn events of each kind of pass. *)
Ltac split_elem_of H :=
  cbn [app] in H;
  repeat (apply elem_of_cons in H as [H|H]; [try discriminate H|]);
  try (by apply elem_of_nil in H).

Lemma spawned_in_rebuilt_pass cmd o (o1 o2 : proc_outcome) :
  Spawned cmd o ∈ check_events ++ transcode_events o1
                  ++ [Called Fwrite_new_checksum] ++ play_events o2 →
  Spawned cmd o = Spawned (ffmpeg_cmd playlist_file output_file) o1 ∨
  Spawned cmd o = Spawned (mpv_cmd output_file) o2.
Proof.
  unfold check_events, transcode_events, play_events. intros Hin.
  split_elem_of Hin; [by left|by right].
Qed.

Lemma spawned_in_failed_rebuild cmd o (o1 : proc_outcome) :
  Spawned cmd o ∈ check_events ++ transcode_events o1 →
  Spawned cmd o = Spawned (ffmpeg_cmd playlist_file output_file) o1.
Proof.
  unfold check_events, transcode_events. intros Hin. split_elem_of Hin. done.
Qed.

Lemma spawned_in_unreadable_pass cmd o :
  Spawned cmd o ∉ check_events.
Proof. unfold check_events. intros Hin. split_elem_of Hin. Qed.

Lemma spawned_in_unencodable_pass cmd o :
  Spawned cmd o ∉ check_events ++ regenerate_events.
Proof.
  unfold check_events, regenerate_events. intros Hin. split_elem_of Hin.
Qed.

Lemma spawned_in_skipped_pass cmd o (o2 : proc_outcome) :
  Spawned cmd o ∈ check_events ++ skip_events ++ play_events o2 →
  Spawned cmd o = Spawned (mpv_cmd output_file) o2.
Proof.
  unfold check_events, skip_events, play_events. intros Hin.
  split_elem_of Hin. done.
Qed.

Section claims.
Context `{HashAlg}.
Variable proc : list string → World → proc_outcome * World.

Lemma ffmpeg_spawned_in_transcode (o : proc_outcome) (tail : list Event) :
  Spawned (ffmpeg_cmd playlist_file output_file) o
  ∈ check_events ++ transcode_events o ++ tail.
Proof.
  apply elem_of_app. right. apply elem_of_app. left.
  unfold transcode_events. do 4 (apply elem_of_cons; right).
  apply elem_of_cons. by left.
Qed.

Lemma ffmpeg_is_not_mpv (o o' : proc_outcome) :
  Spawned (ffmpeg_cmd playlist_file output_file) o
  ≠ Spawned (mpv_cmd output_file) o'.
Proof. discriminate. Qed.

(** C1 (amended). In a pass whose scan finds at least one file, whose
    checksum file is absent or well-formed text, and whose paths can all be
    encoded, the digest of the files is computed and compared with the
    persisted one, and the rebuild is executed exactly when the two differ
    or the combined artifact does not exist: then the pass writes the
    manifest of the scanned files to the playlist file and spawns the
    transcoder on the world that holds this manifest, and goes on as the
    transcoder's exit tells; otherwise it writes nothing and spawns the
    player only.  In particular an absent artifact forces the rebuild even
    when the two digests are equal. *)
Theorem rebuild_iff_changed_or_missing (w w0 : World) files ev0 :
  get_files_sorted_by_mtime music_dir default_extension w = (Ok files, w0, ev0) →
  files ≠ [] →
  readable_text w checksum_file = true →
  Forall (λ p, valid_utf8 p = true) files →
  ∃ current,
    calculate_checksum files w
    = (Ok current, w, [Called Fcalculate_checksum]) ∧
    let previous := persisted_checksum w checksum_file in
    let ffmpeg := ffmpeg_cmd playlist_file output_file in
    let mpv := mpv_cmd output_file in
    let w1 := with_text playlist_file (manifest_text files) w in
    let o1 := (proc ffmpeg w1).1 in
    let w3 := with_text checksum_file current (proc ffmpeg w1).2 in
    let events := (loop_body proc w).2 in
    let triggered := current ≠ previous ∨ path_exists w output_file = false in
    read_previous_checksum checksum_file w
    = (Ok previous, w, [Called Fread_previous_checksum]) ∧
    generate_playlist files playlist_file w
    = (Ok tt, w1, [Called Fgenerate_playlist]) ∧
    decode <$> data_at w1 playlist_file = Some (manifest_text files) ∧
    concatenate_files proc playlist_file output_file w1
    = (spawn_result ffmpeg o1, (proc ffmpeg w1).2,
       [Called Fconcatenate_files;
        Printed ("Running command: " +:+ str_join " " ffmpeg);
        Spawned ffmpeg o1]) ∧
    (triggered →
     loop_body proc w
     = match spawn_result ffmpeg o1 with
       | Ok _ =>
           (spawn_result mpv (proc mpv w3).1, (proc mpv w3).2,
            check_events ++ transcode_events o1
            ++ [Called Fwrite_new_checksum] ++ play_events (proc mpv w3).1)
       | Raise e =>
           (Raise e, (proc ffmpeg w1).2, check_events ++ transcode_events o1)
       end) ∧
    (¬ triggered →
     loop_body proc w
     = (spawn_result mpv (proc mpv w).1, (proc mpv w).2,
        check_events ++ skip_events ++ play_events (proc mpv w).1)) ∧
    (manifest_generated events = true ↔ triggered) ∧
    (transcoder_invoked events = true ↔ triggered) ∧
    (Spawned ffmpeg o1 ∈ events ↔ triggered) ∧
    ((∃ o, Spawned ffmpeg o ∈ events) ↔ triggered) ∧
    (current = previous → path_exists w output_file = false →
     manifest_generated events = true ∧ Spawned ffmpeg o1 ∈ events).
Proof.
  intros Hscan Hne Hread Hfiles.
  destruct (checksum_of_scan _ _ _ _ Hscan) as (current & Hsum & Hhex).
  exists current. split; [done|].
  intros previous ffmpeg mpv w1 o1 w3 events triggered.
  pose proof (loop_body_found_plain proc _ _ _ _ _ Hscan Hne Hsum
                (hex_digest_valid _ Hhex) Hread Hfiles) as Hb.
  cbv zeta in Hb. fold previous ffmpeg mpv w1 o1 w3 in Hb.
  assert (triggered ↔
          negb (String.eqb current previous)
          || negb (path_exists w output_file) = true) as Htr
    by (symmetry; apply rebuild_condition).
  assert ((triggered →
           loop_body proc w
           = match spawn_result ffmpeg o1 with
             | Ok _ =>
                 (spawn_result mpv (proc mpv w3).1, (proc mpv w3).2,
                  check_events ++ transcode_events o1
                  ++ [Called Fwrite_new_checksum]
                  ++ play_events (proc mpv w3).1)
             | Raise e =>
                 (Raise e, (proc ffmpeg w1).2,
                  check_events ++ transcode_events o1)
             end) ∧
          (¬ triggered →
           loop_body proc w
           = (spawn_result mpv (proc mpv w).1, (proc mpv w).2,
              check_events ++ skip_events ++ play_events (proc mpv w).1)))
    as [Hyes Hno].
  { split; intros Ht; rewrite Htr in Ht.
    - by rewrite Ht in Hb.
    - apply not_true_is_false in Ht. by rewrite Ht in Hb. }
  assert ((manifest_generated events = true ↔ triggered) ∧
          (transcoder_invoked events = true ↔ triggered) ∧
          (Spawned ffmpeg o1 ∈ events ↔ triggered) ∧
          ((∃ o, Spawned ffmpeg o ∈ events) ↔ triggered))
    as (Hm & Ht & Hs & Hs').
  { subst events. destruct (decide triggered) as [Hyes'|Hno'].
    - rewrite (Hyes Hyes').
      destruct (spawn_result ffmpeg o1) as [[]|e]; cbn [snd].
      + destruct (rebuilt_pass_observed o1 (proc mpv w3).1) as (-> & -> & _).
        split_and!; split; try done; intros _.
        * apply ffmpeg_spawned_in_transcode.
        * exists o1. apply ffmpeg_spawned_in_transcode.
      + destruct (failed_rebuild_observed o1) as (-> & -> & _).
        pose proof (ffmpeg_spawned_in_transcode o1 []) as Hin.
        rewrite app_nil_r in Hin.
        split_and!; split; try done; intros _; by exists o1.
    - rewrite (Hno Hno'). cbn [snd].
      destruct (skipped_pass_observed (proc mpv w).1) as (-> & -> & _).
      split_and!; split; try done.
      + intros Hin%spawned_in_skipped_pass. by apply ffmpeg_is_not_mpv in Hin.
      + intros [o Hin%spawned_in_skipped_pass].
        by apply ffmpeg_is_not_mpv in Hin. }
  split_and!; try done.
  - by apply read_previous_checksum_run.
  - by apply generate_playlist_run.
  - apply data_at_with_text.
  - apply concatenate_files_run.
  - intros _ Hmissing. split; [apply Hm|apply Hs]; by right.
Qed.

(** C8. In a pass whose scan returns the empty sequence the loop prints
    the no-files message and does nothing else: it returns normally, the
    world is untouched, and no manifest is generated, no checksum computed
    and no transcoder invoked. *)
Theorem empty_scan_only_logs (w w0 : World) ev0 :
  get_files_sorted_by_mtime music_dir default_extension w = (Ok [], w0, ev0) →
  loop_body proc w
  = (Ok tt, w,
     [Called Fget_files_sorted_by_mtime;
      Printed "No .wav files found in the directory."]) ∧
  let events := (loop_body proc w).2 in
  manifest_generated events = false ∧
  checksum_computed events = false ∧
  transcoder_invoked events = false.
Proof.
  intros Hscan. rewrite (loop_body_no_files proc _ _ _ Hscan).
  split; [done|]. cbn [snd].
  by destruct no_files_pass_observed as (-> & -> & -> & _).
Qed.

(** C9, as the code has it. In a pass whose scan finds no matching file
    the condition is logged and the pass ends there: playback is not
    attempted, and the loop goes straight to its next pass, on the same
    world. *)
Theorem empty_scan_skips_playback (w w0 : World) ev0 :
  get_files_sorted_by_mtime music_dir default_extension w = (Ok [], w0, ev0) →
  let events := (loop_body proc w).2 in
  existsb (printed "No .wav files found in the directory.") events = true ∧
  playback_attempted events = false ∧
  ∀ n, main_loop proc (S n) w
       = (let '(st, w', ev) := main_loop proc n w in (st, w', events ++ ev)).
Proof.
  intros Hscan events. subst events.
  split_and!.
  - rewrite (loop_body_no_files proc _ _ _ Hscan). cbn [snd].
    by destruct no_files_pass_observed as (_ & _ & _ & _ & _ & ->).
  - rewrite (loop_body_no_files proc _ _ _ Hscan). cbn [snd].
    by destruct no_files_pass_observed as (_ & _ & _ & _ & -> & _).
  - intros n. cbn [main_loop].
    rewrite (loop_body_no_files proc _ _ _ Hscan). cbn [snd].
    by destruct (main_loop proc n w) as [[??]?].
Qed.

(** Every way a pass can go. *)
Lemma loop_body_cases (w : World) :
  (∃ e, loop_body proc w = (Raise e, w, [Called Fget_files_sorted_by_mtime])) ∨
  loop_body proc w = (Ok tt, w, no_files_events) ∨
  (∃ files current,
     get_files_sorted_by_mtime music_dir default_extension w
     = (Ok files, w, [Called Fget_files_sorted_by_mtime]) ∧
     files ≠ [] ∧
     calculate_checksum files w
     = (Ok current, w, [Called Fcalculate_checksum]) ∧
     is_hex_digest current = true).
Proof.
  destruct (scanner_outcome w music_dir default_extension)
    as [(files & Hscan & _)|(p & Hscan)].
  - destruct files as [|file files].
    + right; left. by eapply loop_body_no_files.
    + right; right.
      destruct (checksum_of_scan _ _ _ _ Hscan) as (current & Hsum & Hhex).
      by exists (file :: files), current.
  - left. eexists. by eapply loop_body_scan_raises.
Qed.

Lemma spawn_result_nonzero (cmd : list string) (status : Z) :
  status ≠ 0 →
  spawn_result cmd (Exited status) = Raise (CalledProcessError status cmd).
Proof. intros Hs. simpl. by destruct (Z.eqb_spec status 0). Qed.

(** Once the loop has crashed, more passes change nothing. *)
Lemma main_loop_crashed (k m : nat) (w w' : World) e events :
  main_loop proc k w = (Crashed e, w', events) →
  main_loop proc (k + m) w = (Crashed e, w', events).
Proof.
  revert w events. induction k as [|k IH]; intros w events; [done|].
  cbn [main_loop Nat.add].
  destruct (loop_body proc w) as [[[[]|e1] w1] ev1]; [|done].
  destruct (main_loop proc k w1) as [[st w2] ev2] eqn:Hk.
  intros Heq. injection Heq as -> -> <-. by rewrite (IH _ _ Hk).
Qed.

(** C10. A non-zero exit status of the transcoder or of the player makes
    the invoking function raise [CalledProcessError]; nothing in the loop
    body catches it, so a pass in which a spawned program exits with a
    non-zero status raises that error right after the spawn, and the loop
    ends there, however many passes it is given: a loop that has crashed
    in some pass runs no further pass. *)
Theorem nonzero_exit_is_fatal :
  (∀ playlist_path output_path w status,
     (proc (ffmpeg_cmd playlist_path output_path) w).1 = Exited status →
     status ≠ 0 →
     (concatenate_files proc playlist_path output_path w).1.1
     = Raise (CalledProcessError status
                (ffmpeg_cmd playlist_path output_path))) ∧
  (∀ file_path w status,
     (proc (mpv_cmd file_path) w).1 = Exited status →
     status ≠ 0 →
     (play_audio proc file_path w).1.1
     = Raise (CalledProcessError status (mpv_cmd file_path))) ∧
  (∀ w r w' events cmd status,
     loop_body proc w = (r, w', events) →
     Spawned cmd (Exited status) ∈ events →
     status ≠ 0 →
     r = Raise (CalledProcessError status cmd) ∧
     last events = Some (Spawned cmd (Exited status)) ∧
     ∀ n, main_loop proc (S n) w
          = (Crashed (CalledProcessError status cmd), w', events)) ∧
  (∀ k m w e w' events,
     main_loop proc k w = (Crashed e, w', events) →
     main_loop proc (k + m) w = (Crashed e, w', events)).
Proof.
  split_and!; [| | |by intros; apply main_loop_crashed].
  - intros pl out w status Ho Hs. rewrite concatenate_files_run. cbn [fst].
    rewrite Ho. by apply spawn_result_nonzero.
  - intros file w status Ho Hs. rewrite play_audio_run. cbn [fst].
    rewrite Ho. by apply spawn_result_nonzero.
  - intros w r w' events cmd status Hrun Hin Hs.
    assert (r = Raise (CalledProcessError status cmd) ∧
            last events = Some (Spawned cmd (Exited status))) as [-> Hlast].
    { destruct (loop_body_cases w)
        as [[e Hb]|[Hb|(files & current & Hscan & Hne & Hsum & Hhex)]].
      - rewrite Hb in Hrun. injection Hrun as <- <- <-. split_elem_of Hin.
      - rewrite Hb in Hrun. injection Hrun as <- <- <-.
        unfold no_files_events in Hin. split_elem_of Hin.
      - rewrite (loop_body_found proc _ _ _ _ _ Hscan Hne Hsum
                   (hex_digest_valid _ Hhex)) in Hrun.
        revert Hrun.
        set (o1 := (proc (ffmpeg_cmd playlist_file output_file) _).1).
        destruct (readable_text w checksum_file); cycle 1.
        { intros Hrun. injection Hrun as <- <- <-.
          by apply spawned_in_unreadable_pass in Hin. }
        destruct (negb _ || negb _).
        + destruct (first_unencodable files) as [[written bad]|].
          { intros Hrun. injection Hrun as <- <- <-.
            by apply spawned_in_unencodable_pass in Hin. }
          destruct (spawn_result _ o1) as [[]|e] eqn:Ho1.
          * set (o2 := (proc (mpv_cmd output_file) _).1).
            intros Hrun. injection Hrun as <- <- <-.
            apply spawned_in_rebuilt_pass in Hin as [Heq|Heq].
            -- injection Heq as -> <-.
               by rewrite spawn_result_nonzero in Ho1.
            -- injection Heq as -> <-.
               by rewrite spawn_result_nonzero.
          * intros Hrun. injection Hrun as <- <- <-.
            apply spawned_in_failed_rebuild in Hin.
            injection Hin as -> <-.
            rewrite spawn_result_nonzero in Ho1 by done.
            by injection Ho1 as <-.
        + set (o2 := (proc (mpv_cmd output_file) _).1).
          intros Hrun. injection Hrun as <- <- <-.
          apply spawned_in_skipped_pass in Hin.
          injection Hin as -> <-.
          by rewrite spawn_result_nonzero. }
    split_and!; [done..|].
    intros n. cbn [main_loop]. by rewrite Hrun.
Qed.

(** C5. In a pass whose scan finds files, the checksum writer runs
    exactly when a rebuild is triggered, the manifest is written and the
    transcoder invocation succeeds; that is, exactly when the transcoder
    was spawned in the pass and exited with status 0.  When the invocation
    succeeds, the rebuild leaves the freshly computed digest in the checksum
    file; when it raises, the rebuild and the pass raise the same error at
    once, from the world the transcoder left, and the script has not
    touched the checksum file.  A rebuild that stops before the transcoder,
    on a path that cannot be encoded, has not touched it either. *)
Theorem checksum_written_iff_transcoded (w w0 : World) files ev0 :
  get_files_sorted_by_mtime music_dir default_extension w = (Ok files, w0, ev0) →
  files ≠ [] →
  ∃ current,
    calculate_checksum files w
    = (Ok current, w, [Called Fcalculate_checksum]) ∧
    let ffmpeg := ffmpeg_cmd playlist_file output_file in
    let w1 := with_text playlist_file (manifest_text files) w in
    let o1 := (proc ffmpeg w1).1 in
    let w2 := (proc ffmpeg w1).2 in
    let triggered :=
      current ≠ persisted_checksum w checksum_file
      ∨ path_exists w output_file = false in
    let encodable := Forall (λ p, valid_utf8 p = true) files in
    let events := (loop_body proc w).2 in
    (checksum_written events = true
     ↔ readable_text w checksum_file = true ∧ triggered ∧ encodable
       ∧ spawn_result ffmpeg o1 = Ok tt) ∧
    (checksum_written events = true
     ↔ ∃ o, Spawned ffmpeg o ∈ events ∧ spawn_result ffmpeg o = Ok tt) ∧
    (encodable → spawn_result ffmpeg o1 = Ok tt →
     ∃ w3,
       rebuild proc files current w
       = (Ok tt, w3, transcode_events o1 ++ [Called Fwrite_new_checksum]) ∧
       decode <$> data_at w3 checksum_file = Some current ∧
       persisted_checksum w3 checksum_file = current) ∧
    (∀ e, encodable → spawn_result ffmpeg o1 = Raise e →
       rebuild proc files current w = (Raise e, w2, transcode_events o1) ∧
       fs w1 !! checksum_file = fs w !! checksum_file ∧
       (readable_text w checksum_file = true → triggered →
        loop_body proc w
        = (Raise e, w2, check_events ++ transcode_events o1))) ∧
    (∀ written bad, first_unencodable files = Some (written, bad) →
       let w' := with_text playlist_file (manifest_text written) w in
       rebuild proc files current w
       = (Raise (UnicodeEncodeError ("file '" +:+ bad +:+ "'" +:+ NL)), w',
          regenerate_events) ∧
       fs w' !! checksum_file = fs w !! checksum_file).
Proof.
  intros Hscan Hne.
  destruct (checksum_of_scan _ _ _ _ Hscan) as (current & Hsum & Hhex).
  pose proof (hex_digest_valid _ Hhex) as Hcur.
  exists current. split; [done|].
  intros ffmpeg w1 o1 w2 triggered encodable events.
  pose proof (rebuild_outcome proc files current w Hcur) as Hr.
  cbv zeta in Hr. fold ffmpeg w1 o1 w2 in Hr.
  pose proof (loop_body_found proc _ _ _ _ _ Hscan Hne Hsum Hcur) as Hb.
  cbv zeta in Hb. fold ffmpeg w1 o1 w2 in Hb.
  assert (encodable ↔ first_unencodable files = None) as Henc
    by (symmetry; apply first_unencodable_None).
  split_and!.
  - subst triggered events. rewrite <-rebuild_condition, Henc, Hb.
    destruct (readable_text w checksum_file); cycle 1.
    { cbn [snd]. destruct unreadable_pass_observed as (_ & _ & -> & _).
      split; [done|]. by intros [? _]. }
    destruct (negb _ || negb _); cycle 1.
    { cbn [snd].
      destruct (skipped_pass_observed (proc (mpv_cmd output_file) w).1)
        as (_ & _ & -> & _).
      split; [done|]. by intros (_ & ? & _). }
    destruct (first_unencodable files) as [[written bad]|].
    { cbn [snd]. destruct unencodable_pass_observed as (_ & _ & -> & _).
      split; [done|]. by intros (_ & _ & ? & _). }
    destruct (spawn_result ffmpeg o1) as [[]|e]; cbn [snd].
    + by destruct (rebuilt_pass_observed o1
        (proc (mpv_cmd output_file) (with_text checksum_file current w2)).1)
        as (_ & _ & -> & _).
    + destruct (failed_rebuild_observed o1) as (_ & _ & -> & _).
      split; [done|]. by intros (_ & _ & _ & ?).
  - subst events. rewrite Hb.
    destruct (readable_text w checksum_file); cycle 1.
    { cbn [snd]. destruct unreadable_pass_observed as (_ & _ & -> & _).
      split; [done|]. intros (o & Hin & _).
      by apply spawned_in_unreadable_pass in Hin. }
    destruct (negb _ || negb _); cycle 1.
    { cbn [snd].
      destruct (skipped_pass_observed (proc (mpv_cmd output_file) w).1)
        as (_ & _ & -> & _).
      split; [done|]. intros (o & Hin%spawned_in_skipped_pass & _).
      by apply ffmpeg_is_not_mpv in Hin. }
    destruct (first_unencodable files) as [[written bad]|].
    { cbn [snd]. destruct unencodable_pass_observed as (_ & _ & -> & _).
      split; [done|]. intros (o & Hin & _).
      by apply spawned_in_unencodable_pass in Hin. }
    destruct (spawn_result ffmpeg o1) as [[]|e] eqn:Ho1; cbn [snd].
    + destruct (rebuilt_pass_observed o1
        (proc (mpv_cmd output_file) (with_text checksum_file current w2)).1)
        as (_ & _ & -> & _).
      split; [|done]. intros _. exists o1.
      split; [apply ffmpeg_spawned_in_transcode|done].
    + destruct (failed_rebuild_observed o1) as (_ & _ & -> & _).
      split; [done|]. intros (o & Hin%spawned_in_failed_rebuild & Ho).
      injection Hin as ->. by rewrite Ho1 in Ho.
  - intros Hfiles%Henc Ho. rewrite Hfiles, Ho in Hr.
    eexists. split_and!; [exact Hr|..].
    + apply data_at_with_text.
    + by apply persisted_checksum_with_text.
  - intros e Hfiles%Henc Ho. rewrite Hfiles, Ho in Hr. rewrite Hfiles, Ho in Hb.
    split_and!; [done|..].
    + by apply fs_set_file_ne.
    + intros Hread Htr%rebuild_condition. by rewrite Hread, Htr in Hb.
  - intros written bad Hbad w'. rewrite Hbad in Hr. split; [done|].
    by apply fs_set_file_ne.
Qed.

(** A pass that returned and wrote the checksum went through the rebuild
    and ended with the player. *)
Lemma pass_that_wrote (w0 w1 : World) ev1 :
  loop_body proc w0 = (Ok tt, w1, ev1) →
  checksum_written ev1 = true →
  ∃ files current w2,
    get_files_sorted_by_mtime music_dir default_extension w0
    = (Ok files, w0, [Called Fget_files_sorted_by_mtime]) ∧
    files ≠ [] ∧
    calculate_checksum files w0
    = (Ok current, w0, [Called Fcalculate_checksum]) ∧
    is_hex_digest current = true ∧
    w1 = (proc (mpv_cmd output_file) (with_text checksum_file current w2)).2.
Proof.
  intros Hrun Hw.
  destruct (loop_body_cases w0)
    as [[e Hb]|[Hb|(files & current & Hscan & Hne & Hsum & Hhex)]].
  - by rewrite Hb in Hrun.
  - rewrite Hb in Hrun. injection Hrun as <- <-.
    by destruct no_files_pass_observed as (_ & _ & _ & Hn & _).
  - rewrite (loop_body_found proc _ _ _ _ _ Hscan Hne Hsum
               (hex_digest_valid _ Hhex)) in Hrun.
    revert Hrun.
    set (o1 := (proc (ffmpeg_cmd playlist_file output_file) _).1).
    set (w2 := (proc (ffmpeg_cmd playlist_file output_file) _).2).
    destruct (readable_text w0 checksum_file); [|done].
    destruct (negb _ || negb _).
    + destruct (first_unencodable files) as [[written bad]|]; [done|].
      destruct (spawn_result _ o1) as [[]|e]; [|done].
      intros Hrun. injection Hrun as _ <- <-.
      by exists files, current, w2.
    + intros Hrun. injection Hrun as _ <- <-.
      by destruct (skipped_pass_observed (proc (mpv_cmd output_file) w0).1)
        as (_ & _ & Hn & _).
Qed.

(** C4. After a pass that rebuilt, wrote the new checksum and returned, a
    second pass over a file set that has not changed (same listing, same
    files), with the artifact still present and the checksum file as the
    first pass wrote it (the player does not touch it), takes the skip
    branch: it generates no manifest, invokes no transcoder and writes no
    checksum. *)
Theorem second_pass_skips_rebuild (w0 w1 : World) ev1 :
  loop_body proc w0 = (Ok tt, w1, ev1) →
  checksum_written ev1 = true →
  walk_of w1 music_dir = walk_of w0 music_dir →
  (∀ p, p ∈ matching_files w0 music_dir default_extension →
        fs w1 !! p = fs w0 !! p) →
  path_exists w1 output_file = true →
  (∀ w, fs (proc (mpv_cmd output_file) w).2 !! checksum_file
        = fs w !! checksum_file) →
  let events := (loop_body proc w1).2 in
  events = check_events ++ skip_events
           ++ play_events (proc (mpv_cmd output_file) w1).1 ∧
  manifest_generated events = false ∧
  transcoder_invoked events = false ∧
  checksum_written events = false.
Proof.
  intros Hrun Hw Hwalk Hfs Hart Hplayer events.
  destruct (pass_that_wrote _ _ _ Hrun Hw)
    as (files & current & w2 & Hscan & Hne & Hsum & Hhex & Hw1).
  destruct (scan_unchanged _ _ _ _ _ Hwalk Hfs Hscan) as [Hscan1 Hsame].
  assert (calculate_checksum files w1
          = (Ok current, w1, [Called Fcalculate_checksum])) as Hsum1.
  { destruct (scanner_returned _ _ _ _ _ _ Hscan) as (_ & _ & Hex).
    destruct (existing_files_have_data w0 files Hex) as [datas Hd].
    rewrite (checksum_run _ _ _ Hd) in Hsum. injection Hsum as <-.
    apply checksum_run. by eapply data_unchanged. }
  assert (data_at w1 checksum_file
          = data_at (with_text checksum_file current w2) checksum_file)
    as Hdata.
  { unfold data_at. by rewrite Hw1, Hplayer. }
  assert (persisted_checksum w1 checksum_file = current) as Hprev.
  { rewrite <-(persisted_checksum_with_text checksum_file current w2 Hhex).
    unfold persisted_checksum. by rewrite Hdata. }
  assert (readable_text w1 checksum_file = true) as Hread.
  { rewrite <-(hex_digest_valid _ Hhex).
    rewrite <-(readable_text_with_text checksum_file current w2).
    unfold readable_text. by rewrite Hdata. }
  assert (events = check_events ++ skip_events
                   ++ play_events (proc (mpv_cmd output_file) w1).1) as ->.
  { subst events.
    rewrite (loop_body_found proc _ _ _ _ _ Hscan1 Hne Hsum1
               (hex_digest_valid _ Hhex)).
    by rewrite Hread, Hprev, String.eqb_refl, Hart. }
  split; [done|].
  by destruct (skipped_pass_observed (proc (mpv_cmd output_file) w1).1)
    as (-> & -> & -> & _).
Qed.
End claims.
(** ** The theorems at work on concrete worlds *)

Lemma triple_eta {A B C} (x : A * B * C) : x = (x.1.1, x.1.2, x.2).
Proof. by destruct x as [[??]?]. Qed.

Lemma scenario_A_scan :
  get_files_sorted_by_mtime music_dir default_extension scenario_A
  = (Ok ["/Volumes/BrahmaSSD/music/AiGen/a.wav";
         "/Volumes/BrahmaSSD/music/AiGen/old/b.wav";
         "/Volumes/BrahmaSSD/music/AiGen/c.wav"],
     scenario_A, [Called Fget_files_sorted_by_mtime]).
Proof. vm_compute. reflexivity. Qed.

Lemma scenario_B_scan :
  get_files_sorted_by_mtime music_dir default_extension scenario_B
  = (Ok [], scenario_B, [Called Fget_files_sorted_by_mtime]).
Proof. vm_compute. reflexivity. Qed.

Lemma scenario_A_files_encodable :
  Forall (λ p, valid_utf8 p = true)
    ["/Volumes/BrahmaSSD/music/AiGen/a.wav";
     "/Volumes/BrahmaSSD/music/AiGen/old/b.wav";
     "/Volumes/BrahmaSSD/music/AiGen/c.wav"].
Proof. apply (bool_decide_unpack _). vm_compute. exact I. Qed.

Lemma scenario_F_scan :
  get_files_sorted_by_mtime music_dir default_extension scenario_F
  = (Ok ["/Volumes/BrahmaSSD/music/AiGen/a.wav";
         "/Volumes/BrahmaSSD/music/AiGen/old/b.wav";
         "/Volumes/BrahmaSSD/music/AiGen/c.wav"],
     scenario_F, [Called Fget_files_sorted_by_mtime]).
Proof. vm_compute. reflexivity. Qed.

Lemma scenario_F_checksum :
  calculate_checksum (H := md5)
    ["/Volumes/BrahmaSSD/music/AiGen/a.wav";
     "/Volumes/BrahmaSSD/music/AiGen/old/b.wav";
     "/Volumes/BrahmaSSD/music/AiGen/c.wav"] scenario_F
  = (Ok "fe959319b53b5881ba4c904c1d2559e0", scenario_F,
     [Called Fcalculate_checksum]).
Proof. vm_compute. reflexivity. Qed.

Lemma scenario_G_scan :
  get_files_sorted_by_mtime music_dir default_extension scenario_G
  = (Ok ["/Volumes/BrahmaSSD/music/AiGen/a.wav";
         "/Volumes/BrahmaSSD/music/AiGen/old/b.wav";
         "/Volumes/BrahmaSSD/music/AiGen/c.wav"],
     scenario_G, [Called Fget_files_sorted_by_mtime]).
Proof. vm_compute. reflexivity. Qed.

(** The checksum file holds the digest of the files and the artifact is
    absent: the manifest is written and the transcoder spawned on it. *)
Lemma rebuild_iff_changed_or_missing_witness :
  let files := ["/Volumes/BrahmaSSD/music/AiGen/a.wav";
                "/Volumes/BrahmaSSD/music/AiGen/old/b.wav";
                "/Volumes/BrahmaSSD/music/AiGen/c.wav"] in
  let ffmpeg := ffmpeg_cmd playlist_file output_file in
  let w1 := with_text playlist_file (manifest_text files) scenario_F in
  let events := (loop_body (H := md5) working_proc scenario_F).2 in
  get_files_sorted_by_mtime music_dir default_extension scenario_F
  = (Ok files, scenario_F, [Called Fget_files_sorted_by_mtime]) ∧
  files ≠ [] ∧
  readable_text scenario_F checksum_file = true ∧
  Forall (λ p, valid_utf8 p = true) files ∧
  calculate_checksum (H := md5) files scenario_F
  = (Ok "fe959319b53b5881ba4c904c1d2559e0", scenario_F,
     [Called Fcalculate_checksum]) ∧
  persisted_checksum scenario_F checksum_file
  = "fe959319b53b5881ba4c904c1d2559e0" ∧
  path_exists scenario_F output_file = false ∧
  generate_playlist files playlist_file scenario_F
  = (Ok tt, w1, [Called Fgenerate_playlist]) ∧
  manifest_generated events = true ∧
  Spawned ffmpeg (working_proc ffmpeg w1).1 ∈ events.
Proof.
  intros files ffmpeg w1 events.
  assert (files ≠ []) as Hne by discriminate.
  assert (readable_text scenario_F checksum_file = true) as Hread
    by (vm_compute; reflexivity).
  assert (persisted_checksum scenario_F checksum_file
          = "fe959319b53b5881ba4c904c1d2559e0") as Hprev
    by (vm_compute; reflexivity).
  assert (path_exists scenario_F output_file = false) as Hmissing
    by (vm_compute; reflexivity).
  destruct (rebuild_iff_changed_or_missing (H := md5) working_proc
              scenario_F scenario_F files _ scenario_F_scan Hne Hread
              scenario_A_files_encodable)
    as (current & Hsum & _ & Hgen & _ & _ & _ & _ & _ & _ & _ & _ & Hforced).
  assert (current = "fe959319b53b5881ba4c904c1d2559e0") as Hcur.
  { pose proof scenario_F_checksum as Hc. fold files in Hc.
    rewrite Hsum in Hc. by injection Hc. }
  destruct (Hforced (eq_trans Hcur (eq_sym Hprev)) Hmissing) as [Hm Hs].
  exact (conj scenario_F_scan (conj Hne (conj Hread
    (conj scenario_A_files_encodable (conj scenario_F_checksum
    (conj Hprev (conj Hmissing (conj Hgen (conj Hm Hs))))))))).
Defined.

(** C1, as the specification states it, fails: with a checksum file that
    is not UTF-8 the reader raises [UnicodeDecodeError], which nothing
    catches; the pass ends before the decision, and an absent artifact is
    not rebuilt. *)
Lemma rebuild_on_missing_artifact_refuted :
  ¬ (∀ `{HashAlg} (proc : list string → World → proc_outcome * World)
       (w w0 : World) files ev0,
       get_files_sorted_by_mtime music_dir default_extension w
       = (Ok files, w0, ev0) →
       files ≠ [] →
       path_exists w output_file = false →
       let events := (loop_body proc w).2 in
       manifest_generated events = true ∧ transcoder_invoked events = true).
Proof.
  intros Hclaim.
  destruct (Hclaim md5 working_proc scenario_G scenario_G _ _
              scenario_G_scan) as [Hm _]; [discriminate|reflexivity|].
  vm_compute in Hm. discriminate Hm.
Qed.

Example unreadable_checksum_pass :
  loop_body (H := md5) working_proc scenario_G
  = (Raise (UnicodeDecodeError [xff; x0a]), scenario_G, check_events).
Proof. vm_compute. reflexivity. Qed.

Lemma empty_scan_only_logs_witness :
  get_files_sorted_by_mtime music_dir default_extension scenario_B
  = (Ok [], scenario_B, [Called Fget_files_sorted_by_mtime]) ∧
  loop_body (H := md5) working_proc scenario_B
  = (Ok tt, scenario_B,
     [Called Fget_files_sorted_by_mtime;
      Printed "No .wav files found in the directory."]).
Proof.
  split; [exact scenario_B_scan|].
  exact (proj1 (empty_scan_only_logs (H := md5) working_proc
                  scenario_B scenario_B _ scenario_B_scan)).
Defined.

Lemma empty_scan_skips_playback_witness :
  get_files_sorted_by_mtime music_dir default_extension scenario_B
  = (Ok [], scenario_B, [Called Fget_files_sorted_by_mtime]) ∧
  playback_attempted (loop_body (H := md5) working_proc scenario_B).2 = false.
Proof.
  split; [exact scenario_B_scan|].
  exact (proj1 (proj2 (empty_scan_skips_playback (H := md5) working_proc
                         scenario_B scenario_B _ scenario_B_scan))).
Defined.

(** C9, as the specification states it, fails: on the empty directory the
    scan finds nothing, and the pass does not reach the player. *)
Lemma playback_after_empty_scan_refuted :
  ¬ (∀ `{HashAlg} (proc : list string → World → proc_outcome * World)
       (w w0 : World) ev0,
       get_files_sorted_by_mtime music_dir default_extension w
       = (Ok [], w0, ev0) →
       let events := (loop_body proc w).2 in
       existsb (printed "No .wav files found in the directory.") events = true ∧
       playback_attempted events = true).
Proof.
  intros Hclaim.
  destruct (Hclaim md5 working_proc scenario_B scenario_B _ scenario_B_scan)
    as [_ Hplay].
  vm_compute in Hplay. discriminate Hplay.
Qed.

Lemma scenario_A_checksum :
  calculate_checksum (H := md5)
    ["/Volumes/BrahmaSSD/music/AiGen/a.wav";
     "/Volumes/BrahmaSSD/music/AiGen/old/b.wav";
     "/Volumes/BrahmaSSD/music/AiGen/c.wav"] scenario_A
  = (Ok "fe959319b53b5881ba4c904c1d2559e0", scenario_A,
     [Called Fcalculate_checksum]).
Proof. vm_compute. reflexivity. Qed.

Lemma checksum_written_iff_transcoded_witness :
  let files := ["/Volumes/BrahmaSSD/music/AiGen/a.wav";
                "/Volumes/BrahmaSSD/music/AiGen/old/b.wav";
                "/Volumes/BrahmaSSD/music/AiGen/c.wav"] in
  let ffmpeg := ffmpeg_cmd playlist_file output_file in
  get_files_sorted_by_mtime music_dir default_extension scenario_A
  = (Ok files, scenario_A, [Called Fget_files_sorted_by_mtime]) ∧
  files ≠ [] ∧
  (∃ current w3,
     calculate_checksum (H := md5) files scenario_A
     = (Ok current, scenario_A, [Called Fcalculate_checksum]) ∧
     rebuild working_proc files current scenario_A
     = (Ok tt, w3,
        transcode_events (Exited 0) ++ [Called Fwrite_new_checksum]) ∧
     decode <$> data_at w3 checksum_file = Some current) ∧
  (∃ current,
     calculate_checksum (H := md5) files scenario_A
     = (Ok current, scenario_A, [Called Fcalculate_checksum]) ∧
     (rebuild failing_proc files current scenario_A).1.1
     = Raise (CalledProcessError 1 ffmpeg)) ∧
  checksum_written (loop_body (H := md5) failing_proc scenario_A).2 = false.
Proof.
  intros files ffmpeg.
  assert (files ≠ []) as Hne by discriminate.
  split_and!; [exact scenario_A_scan|exact Hne|..].
  - destruct (checksum_written_iff_transcoded (H := md5) working_proc
                scenario_A scenario_A files _ scenario_A_scan Hne)
      as (current & Hsum & _ & _ & Hok & _).
    destruct (Hok scenario_A_files_encodable eq_refl) as (w3 & Hr & Hd & _).
    exists current, w3. exact (conj Hsum (conj Hr Hd)).
  - destruct (checksum_written_iff_transcoded (H := md5) failing_proc
                scenario_A scenario_A files _ scenario_A_scan Hne)
      as (current & Hsum & _ & _ & _ & Hfail & _).
    destruct (Hfail (CalledProcessError 1 ffmpeg) scenario_A_files_encodable
                eq_refl) as (Hr & _).
    exists current. exact (conj Hsum (f_equal (λ x, x.1.1) Hr)).
  - destruct (checksum_written_iff_transcoded (H := md5) failing_proc
                scenario_A scenario_A files _ scenario_A_scan Hne)
      as (current & _ & Hiff & _).
    destruct (checksum_written _); [|reflexivity].
    destruct (proj1 Hiff eq_refl) as (_ & _ & _ & Hno). discriminate Hno.
Defined.

Lemma second_pass_skips_rebuild_witness :
  let first := loop_body (H := md5) working_proc scenario_A in
  let w1 := first.1.2 in
  let second := loop_body (H := md5) working_proc w1 in
  first = (Ok tt, w1, first.2) ∧
  checksum_written first.2 = true ∧
  walk_of w1 music_dir = walk_of scenario_A music_dir ∧
  (∀ p, p ∈ matching_files scenario_A music_dir default_extension →
        fs w1 !! p = fs scenario_A !! p) ∧
  path_exists w1 output_file = true ∧
  (∀ w, fs (working_proc (mpv_cmd output_file) w).2 !! checksum_file
        = fs w !! checksum_file) ∧
  manifest_generated second.2 = false ∧
  transcoder_invoked second.2 = false ∧
  checksum_written second.2 = false.
Proof.
  intros first w1 second.
  assert (first = (Ok tt, w1, first.2)) as H1.
  { etransitivity; [apply triple_eta|].
    assert (first.1.1 = Ok tt) as -> by (vm_compute; reflexivity).
    reflexivity. }
  assert (checksum_written first.2 = true) as H2 by (vm_compute; reflexivity).
  assert (walk_of w1 music_dir = walk_of scenario_A music_dir) as H3
    by (vm_compute; reflexivity).
  assert (∀ p, p ∈ matching_files scenario_A music_dir default_extension →
               fs w1 !! p = fs scenario_A !! p) as H4.
  { intros p Hp. vm_compute in Hp.
    repeat (apply elem_of_cons in Hp as [->|Hp]; [vm_compute; reflexivity|]).
    apply elem_of_nil in Hp. destruct Hp. }
  assert (path_exists w1 output_file = true) as H5 by (vm_compute; reflexivity).
  assert (∀ w, fs (working_proc (mpv_cmd output_file) w).2 !! checksum_file
               = fs w !! checksum_file) as H6 by (intros w; reflexivity).
  destruct (second_pass_skips_rebuild (H := md5) working_proc
              scenario_A w1 first.2 H1 H2 H3 H4 H5 H6) as (_ & Hm & Ht & Hc).
  exact (conj H1 (conj H2 (conj H3 (conj H4 (conj H5 (conj H6
    (conj Hm (conj Ht Hc)))))))).
Defined.

Lemma nonzero_exit_is_fatal_witness :
  let out := loop_body (H := md5) failing_proc scenario_A in
  let ffmpeg := ffmpeg_cmd playlist_file output_file in
  (failing_proc ffmpeg scenario_A).1 = Exited 1 ∧
  (failing_proc (mpv_cmd output_file) scenario_A).1 = Exited 1 ∧
  1 ≠ 0 ∧
  out = (out.1.1, out.1.2, out.2) ∧
  Spawned ffmpeg (Exited 1) ∈ out.2 ∧
  (concatenate_files failing_proc playlist_file output_file scenario_A).1.1
  = Raise (CalledProcessError 1 ffmpeg) ∧
  (play_audio failing_proc output_file scenario_A).1.1
  = Raise (CalledProcessError 1 (mpv_cmd output_file)) ∧
  main_loop (H := md5) failing_proc 3 scenario_A
  = (Crashed (CalledProcessError 1 ffmpeg), out.1.2, out.2).
Proof.
  intros out ffmpeg.
  assert (1 ≠ 0) as Hs by lia.
  assert (Spawned ffmpeg (Exited 1) ∈ out.2) as Hin.
  { apply (bool_decide_unpack _). vm_compute. exact I. }
  destruct (nonzero_exit_is_fatal (H := md5) failing_proc)
    as (Hc & Hp & Hl & _).
  destruct (Hl scenario_A out.1.1 out.1.2 out.2 ffmpeg 1
              (triple_eta out) Hin Hs) as (_ & _ & Hloop).
  split_and!; [reflexivity|reflexivity|exact Hs|apply triple_eta|exact Hin|..].
  - exact (Hc playlist_file output_file scenario_A 1 eq_refl Hs).
  - exact (Hp output_file scenario_A 1 eq_refl Hs).
  - exact (Hloop 2%nat).
Defined.

(** * Further properties of the script *)

(** ** Reading a file in chunks *)

Lemma iter_read_bounds (n : nat) (f : bytes) :
  (0 < n)%nat →
  Forall (λ chunk, (0 < length chunk ≤ n)%nat) (iter_read n f) ∧
  (length f ≤ length (iter_read n f) * n < length f + n)%nat.
Proof.
  intros Hn. funelim (iter_read n f).
  - split; [constructor|]. destruct n, f; simpl in *; [lia|lia|lia|done].
  - match goal with IH : _ → Forall _ _ ∧ _ |- _ =>
      destruct (IH Hn) as [Hall Hlen] end.
    match goal with Ht : take _ _ = _ |- _ =>
      pose proof (f_equal length Ht) as Hl end.
    rewrite length_take in Hl. rewrite length_drop in Hlen. simpl in Hl.
    split.
    + constructor; [simpl; lia|done].
    + cbn [length]. destruct (length (iter_read n (drop n f))); nia.
Qed.

(** X1. The loop [iter(lambda: f.read(n), b"")] cuts a file into chunks
    that are never empty and never longer than [n], whose concatenation is
    the file, and it makes no more reads than needed: the number of chunks
    is the length of the file divided by [n], rounded up. *)
Theorem iter_read_chunks (n : nat) (f : bytes) :
  (0 < n)%nat →
  let chunks := iter_read n f in
  Forall (λ chunk, (0 < length chunk ≤ n)%nat) chunks ∧
  concat chunks = f ∧
  (length f ≤ length chunks * n < length f + n)%nat.
Proof.
  intros Hn chunks. subst chunks.
  destruct (iter_read_bounds n f Hn) as [Hall Hlen].
  split_and!; [done|by apply iter_read_concat|lia|lia].
Qed.

Lemma iter_read_chunks_witness :
  (0 < 2)%nat ∧
  iter_read 2 (encode "abcde") = [encode "ab"; encode "cd"; encode "e"] ∧
  (length (encode "abcde") ≤ length (iter_read 2 (encode "abcde")) * 2
   < length (encode "abcde") + 2)%nat.
Proof.
  assert (0 < 2)%nat as Hn by lia.
  destruct (iter_read_chunks 2 (encode "abcde") Hn) as (_ & _ & Hlen).
  split_and!; [exact Hn|reflexivity|apply Hlen..].
Defined.

(** ** More on the directory scanner *)

(** X2. The scanner returns exactly when every matching file can be
    stat'ed.  Otherwise [os.path.getmtime] raises inside [sorted] and the
    scanner raises [FileNotFoundError] for a matching file that is absent.
    Either way it leaves the world as it found it. *)
Theorem scanner_raises_iff_dangling (w : World) (directory extension : string) :
  let found := matching_files w directory extension in
  let run := get_files_sorted_by_mtime directory extension w in
  (Forall (λ p, is_Some (fs w !! p)) found ↔ ∃ files, run.1.1 = Ok files) ∧
  (∀ e, run.1.1 = Raise e →
        ∃ p, e = FileNotFoundError p ∧ p ∈ found ∧ fs w !! p = None) ∧
  run.1.2 = w.
Proof.
  intros found run. subst found run.
  destruct (getmtime_outcome w (matching_files w directory extension))
    as [[Hex Hrun]|(p & Hp & Hnone & Hrun)].
  - rewrite (scanner_run _ _ _ Hex). cbn [fst snd]. split_and!.
    + split; [by eexists|done].
    + intros e He. discriminate He.
    + done.
  - assert (get_files_sorted_by_mtime directory extension w
            = (Raise (FileNotFoundError p), w,
               [Called Fget_files_sorted_by_mtime])) as ->.
    { unfold get_files_sorted_by_mtime.
      erewrite bind_ok; [|done]. erewrite bind_ok; [|done].
      rewrite collect_triples. simpl. unfold sorted.
      erewrite bind_raise; [|exact Hrun]. done. }
    cbn [fst snd]. split_and!.
    + split.
      * intros Hex. rewrite Forall_forall in Hex.
        destruct (Hex p Hp) as [f Hf]. congruence.
      * intros [files Hf]. discriminate Hf.
    + intros e He. injection He as <-. by exists p.
    + done.
Qed.

Lemma endswith_os_path_join (root filename extension : string) :
  endswith filename extension = true →
  endswith (os_path_join root filename) extension = true.
Proof.
  rewrite !endswith_spec. intros [stem ->]. unfold os_path_join.
  destruct (startswith _ "/"); [by exists stem|].
  destruct (_ || _).
  - exists (root +:+ stem). by rewrite append_assoc.
  - exists (root +:+ "/" +:+ stem). by rewrite !append_assoc.
Qed.

Lemma matching_files_end_with (w : World) (directory extension : string) :
  Forall (λ p, endswith p extension = true)
    (matching_files w directory extension).
Proof.
  apply Forall_forall. intros p Hp.
  apply elem_of_matching_files in Hp
    as (root & dirs & fns & fn & stem & _ & _ & -> & ->).
  apply endswith_os_path_join, endswith_spec. by exists stem.
Qed.

(** X3. Every path the scanner returns ends with the extension and names
    an existing file, and the scanner returns as many paths as there are
    matching names in the listing. *)
Theorem scanner_result_sound (w w0 : World) (directory extension : string)
    files ev0 :
  get_files_sorted_by_mtime directory extension w = (Ok files, w0, ev0) →
  Forall (λ p, endswith p extension = true ∧ is_Some (fs w !! p)) files ∧
  length files = length (matching_files w directory extension).
Proof.
  intros Hscan.
  destruct (scanner_outcome w directory extension)
    as [(files' & Hrun & Hfiles & Hex)|(p & Hrun)]; rewrite Hrun in Hscan;
    [|done].
  injection Hscan as <- <- <-. split.
  - apply Forall_and. split; [|done].
    rewrite Hfiles, sorted_on_perm. apply matching_files_end_with.
  - by rewrite Hfiles, sorted_on_perm.
Qed.

Lemma scanner_result_sound_witness :
  let files := ["/Volumes/BrahmaSSD/music/AiGen/a.wav";
                "/Volumes/BrahmaSSD/music/AiGen/old/b.wav";
                "/Volumes/BrahmaSSD/music/AiGen/c.wav"] in
  get_files_sorted_by_mtime music_dir default_extension scenario_A
  = (Ok files, scenario_A, [Called Fget_files_sorted_by_mtime]) ∧
  Forall (λ p, endswith p default_extension = true
               ∧ is_Some (fs scenario_A !! p)) files.
Proof.
  intros files. split; [exact scenario_A_scan|].
  exact (proj1 (scanner_result_sound scenario_A scenario_A music_dir
                  default_extension files _ scenario_A_scan)).
Defined.

(** Stability of the sort. *)
Lemma insert_by_key_filter {A} (k : Z) (x : Z * A) (l : list (Z * A)) :
  filter (λ y, y.1 = k) (insert_by_key x l) = filter (λ y, y.1 = k) (x :: l).
Proof.
  induction l as [|y l IH]; [done|]. simpl.
  destruct (Z.ltb_spec y.1 x.1) as [Hlt|Hge]; [|done].
  rewrite (filter_cons _ y), IH, !filter_cons.
  repeat case_decide; (done || lia).
Qed.

Lemma sort_by_key_filter {A} (k : Z) (l : list (Z * A)) :
  filter (λ y, y.1 = k) (sort_by_key l) = filter (λ y, y.1 = k) l.
Proof.
  induction l as [|x l IH]; [done|]. simpl.
  by rewrite insert_by_key_filter, !filter_cons, IH.
Qed.

Lemma filter_keyed {A} (key : A → Z) (k : Z) (l : list (Z * A)) :
  Forall (λ y, y.1 = key y.2) l →
  (filter (λ y, y.1 = k) l).*2 = filter (λ x, key x = k) (l.*2).
Proof.
  induction 1 as [|y l Hy Hl IH]; [done|].
  rewrite fmap_cons, !filter_cons, <-IH, <-Hy.
  by case_decide.
Qed.

Lemma sorted_on_stable {A} (key : A → Z) (k : Z) (l : list A) :
  filter (λ x, key x = k) (sorted_on key l) = filter (λ x, key x = k) l.
Proof.
  unfold sorted_on.
  rewrite <-(filter_keyed key).
  - rewrite sort_by_key_filter, (filter_keyed key).
    + rewrite zip_key, <-list_fmap_compose. by rewrite list_fmap_id.
    + rewrite zip_key. by apply Forall_fmap, Forall_true.
  - rewrite sort_by_key_perm, zip_key. by apply Forall_fmap, Forall_true.
Qed.

(** X4. Whatever the modification times, equal or not, the scanner's
    result is a permutation of the matching files in ascending order of the
    float that [os.path.getmtime] returns for them, and the sort is stable:
    the files that share this float (their time stamps may differ by less
    than the floats can tell) come out in the order in which the traversal
    listed them. *)
Theorem scanner_sort_is_stable (w : World) (directory extension : string) :
  let found := matching_files w directory extension in
  Forall (λ p, is_Some (fs w !! p)) found →
  ∃ files,
    get_files_sorted_by_mtime directory extension w
    = (Ok files, w, [Called Fget_files_sorted_by_mtime]) ∧
    files ≡ₚ found ∧
    StronglySorted (λ p q, mtime_of w p ≤ mtime_of w q) files ∧
    ∀ t, filter (λ p, mtime_of w p = t) files
         = filter (λ p, mtime_of w p = t) found.
Proof.
  intros found Hex. exists (sorted_on (mtime_of w) found). split_and!.
  - by apply scanner_run.
  - apply sorted_on_perm.
  - apply sorted_on_sorted.
  - intros t. apply sorted_on_stable.
Qed.

Lemma scanner_raises_iff_dangling_witness :
  (get_files_sorted_by_mtime music_dir default_extension scenario_D).1.1
  = Raise (FileNotFoundError "/Volumes/BrahmaSSD/music/AiGen/ghost.wav") ∧
  ∃ p, p ∈ matching_files scenario_D music_dir default_extension ∧
       fs scenario_D !! p = None.
Proof.
  assert ((get_files_sorted_by_mtime music_dir default_extension
             scenario_D).1.1
          = Raise (FileNotFoundError "/Volumes/BrahmaSSD/music/AiGen/ghost.wav"))
    as Hrun by (vm_compute; reflexivity).
  split; [exact Hrun|].
  destruct (scanner_raises_iff_dangling scenario_D music_dir default_extension)
    as (_ & Hraise & _).
  destruct (Hraise _ Hrun) as (p & _ & Hp & Hnone). by exists p.
Defined.

Lemma scanner_sort_is_stable_witness :
  Forall (λ p, is_Some (fs scenario_T !! p))
    (matching_files scenario_T music_dir default_extension) ∧
  Forall (λ p, is_Some (fs scenario_N !! p))
    (matching_files scenario_N music_dir default_extension) ∧
  (∃ files,
     get_files_sorted_by_mtime music_dir default_extension scenario_T
     = (Ok files, scenario_T, [Called Fget_files_sorted_by_mtime]) ∧
     filter (λ p, mtime_of scenario_T p = float_of_mtime_ns (5 * 10 ^ 9)) files
     = ["/Volumes/BrahmaSSD/music/AiGen/y.wav";
        "/Volumes/BrahmaSSD/music/AiGen/x.wav"]) ∧
  (∃ files,
     get_files_sorted_by_mtime music_dir default_extension scenario_N
     = (Ok files, scenario_N, [Called Fget_files_sorted_by_mtime]) ∧
     filter (λ p, mtime_of scenario_N p
                  = float_of_mtime_ns (1700000000 * 10 ^ 9 + 1)) files
     = ["/Volumes/BrahmaSSD/music/AiGen/y.wav";
        "/Volumes/BrahmaSSD/music/AiGen/x.wav"]).
Proof.
  assert (Forall (λ p, is_Some (fs scenario_T !! p))
            (matching_files scenario_T music_dir default_extension)) as Hex.
  { apply (bool_decide_unpack _). vm_compute. exact I. }
  assert (Forall (λ p, is_Some (fs scenario_N !! p))
            (matching_files scenario_N music_dir default_extension)) as Hex'.
  { apply (bool_decide_unpack _). vm_compute. exact I. }
  split; [exact Hex|]. split; [exact Hex'|]. split.
  - destruct (scanner_sort_is_stable scenario_T music_dir default_extension
                Hex) as (files & Hrun & _ & _ & Hstable).
    exists files. split; [exact Hrun|]. rewrite Hstable.
    vm_compute. reflexivity.
  - destruct (scanner_sort_is_stable scenario_N music_dir default_extension
                Hex') as (files & Hrun & _ & _ & Hstable).
    exists files. split; [exact Hrun|]. rewrite Hstable.
    vm_compute. reflexivity.
Defined.

(** ** More on the checksum *)

Lemma checksum_fold_raises `{HashAlg} (w : World) (before after : list string)
    (missing : string) (h : hash_state) :
  Forall (λ p, is_Some (fs w !! p)) before →
  fs w !! missing = None →
  for_fold (before ++ missing :: after) h (λ hash_md5 file,
    let* f := open_rb file in
    ret (fold_left hash_update (iter_read chunk_size f) hash_md5)) w
  = (Raise (FileNotFoundError missing), w, []).
Proof.
  intros Hex Hnone. revert h.
  induction Hex as [|p before [f Hp] Hex IH]; intros h; simpl.
  - erewrite bind_raise; [done|].
    erewrite bind_raise; [done|]. unfold open_rb. by rewrite Hnone.
  - erewrite bind_ok;
      [|erewrite bind_ok; [|unfold open_rb; by rewrite Hp]; done].
    by rewrite IH.
Qed.

Lemma checksum_run_missing `{HashAlg} (w : World)
    (before after : list string) (missing : string) :
  Forall (λ p, is_Some (fs w !! p)) before →
  fs w !! missing = None →
  calculate_checksum (before ++ missing :: after) w
  = (Raise (FileNotFoundError missing), w, [Called Fcalculate_checksum]).
Proof.
  intros Hex Hnone. unfold calculate_checksum.
  erewrite bind_ok; [|done].
  erewrite bind_raise; [done|]. by apply checksum_fold_raises.
Qed.

(** X5. When a file of the list has disappeared, [calculate_checksum]
    raises [FileNotFoundError] for the first such file, after reading the
    files before it, and returns no digest; the world is unchanged. *)
Theorem checksum_raises_on_missing_file `{HashAlg} (w : World)
    (before after : list string) (missing : string) :
  Forall (λ p, is_Some (fs w !! p)) before →
  fs w !! missing = None →
  calculate_checksum (before ++ missing :: after) w
  = (Raise (FileNotFoundError missing), w, [Called Fcalculate_checksum]).
Proof. apply checksum_run_missing. Qed.

Lemma checksum_raises_on_missing_file_witness :
  Forall (λ p, is_Some (fs scenario_A !! p))
    ["/Volumes/BrahmaSSD/music/AiGen/a.wav"] ∧
  fs scenario_A !! "/Volumes/BrahmaSSD/music/AiGen/ghost.wav" = None ∧
  calculate_checksum (H := md5)
    ["/Volumes/BrahmaSSD/music/AiGen/a.wav";
     "/Volumes/BrahmaSSD/music/AiGen/ghost.wav";
     "/Volumes/BrahmaSSD/music/AiGen/c.wav"] scenario_A
  = (Raise (FileNotFoundError "/Volumes/BrahmaSSD/music/AiGen/ghost.wav"),
     scenario_A, [Called Fcalculate_checksum]).
Proof.
  assert (Forall (λ p, is_Some (fs scenario_A !! p))
            ["/Volumes/BrahmaSSD/music/AiGen/a.wav"]) as Hex.
  { apply (bool_decide_unpack _). vm_compute. exact I. }
  assert (fs scenario_A !! "/Volumes/BrahmaSSD/music/AiGen/ghost.wav" = None)
    as Hnone by reflexivity.
  exact (conj Hex (conj Hnone
    (checksum_raises_on_missing_file (H := md5) scenario_A
       ["/Volumes/BrahmaSSD/music/AiGen/a.wav"]
       ["/Volumes/BrahmaSSD/music/AiGen/c.wav"]
       "/Volumes/BrahmaSSD/music/AiGen/ghost.wav" Hex Hnone))).
Defined.

(** X6. The digest sees neither the names of the files nor where one file
    ends and the next begins: two file lists, in any two worlds, whose
    contents concatenate to the same bytes have the same checksum.  Renaming
    a file, adding an empty file, or moving the last bytes of a file to the
    front of the next one goes unnoticed. *)
Theorem checksum_ignores_file_boundaries `{HashAlg} (w w' : World)
    (files files' : list string) (datas datas' : list bytes) :
  mapM (data_at w) files = Some datas →
  mapM (data_at w') files' = Some datas' →
  concat datas = concat datas' →
  ∃ digest,
    calculate_checksum files w = (Ok digest, w, [Called Fcalculate_checksum]) ∧
    calculate_checksum files' w'
    = (Ok digest, w', [Called Fcalculate_checksum]).
Proof.
  intros Hd Hd' Hc. eexists. split; [by apply checksum_run|].
  rewrite Hc. by apply checksum_run.
Qed.

Lemma checksum_ignores_file_boundaries_witness :
  let files := ["/Volumes/BrahmaSSD/music/AiGen/a.wav";
                "/Volumes/BrahmaSSD/music/AiGen/old/b.wav";
                "/Volumes/BrahmaSSD/music/AiGen/c.wav"] in
  let files' := ["/m/1.wav"; "/m/2.wav"; "/m/3.wav"] in
  let datas := [encode "a"; encode "bbb"; encode "cc"] in
  let datas' := [encode "ab"; encode ""; encode "bbcc"] in
  mapM (data_at scenario_A) files = Some datas ∧
  mapM (data_at scenario_E) files' = Some datas' ∧
  concat datas = concat datas' ∧
  ∃ digest,
    calculate_checksum (H := md5) files scenario_A
    = (Ok digest, scenario_A, [Called Fcalculate_checksum]) ∧
    calculate_checksum (H := md5) files' scenario_E
    = (Ok digest, scenario_E, [Called Fcalculate_checksum]).
Proof.
  intros files files' datas datas'.
  assert (mapM (data_at scenario_A) files = Some datas) as Hd
    by (vm_compute; reflexivity).
  assert (mapM (data_at scenario_E) files' = Some datas') as Hd'
    by (vm_compute; reflexivity).
  assert (concat datas = concat datas') as Hc by reflexivity.
  exact (conj Hd (conj Hd' (conj Hc
    (checksum_ignores_file_boundaries (H := md5) scenario_A scenario_E
       files files' datas datas' Hd Hd' Hc)))).
Defined.

(** The shape of an MD5 digest. *)
Lemma le_bytes_length (width : nat) (x : Z) :
  length (MD5.le_bytes width x) = width.
Proof. unfold MD5.le_bytes. by rewrite length_fmap, length_seq. Qed.

Lemma md5_digest_length (msg : bytes) : length (MD5.digest msg) = 16%nat.
Proof.
  unfold MD5.digest. destruct (foldl _ _ _) as [[[a b] c] d].
  by rewrite !length_app, !le_bytes_length.
Qed.

Lemma hex_length (b : bytes) : String.length (hex b) = (2 * length b)%nat.
Proof.
  induction b as [|x b IH]; [done|].
  change (hex (x :: b)) with (hex_of_byte x +:+ hex b).
  unfold hex_of_byte. rewrite !append_String, append_empty_l.
  cbn [String.length length]. rewrite IH. lia.
Qed.

Lemma checksum_outcome `{HashAlg} (w : World) (files : list string) :
  (∃ datas, mapM (data_at w) files = Some datas) ∨
  (∃ p, calculate_checksum files w
        = (Raise (FileNotFoundError p), w, [Called Fcalculate_checksum])).
Proof.
  destruct (mapM (data_at w) files) as [datas|] eqn:Hd; [left; by eexists|].
  right. apply mapM_None in Hd.
  assert (∃ before missing after,
            files = before ++ missing :: after ∧
            Forall (λ p, is_Some (fs w !! p)) before ∧
            fs w !! missing = None) as (before & missing & after & -> & Hex & Hn).
  { clear -Hd. induction files as [|p files IH].
    - by apply Exists_nil in Hd.
    - destruct (fs w !! p) as [f|] eqn:Hp.
      + apply Exists_cons in Hd as [Hd|Hd].
        { unfold data_at in Hd. by rewrite Hp in Hd. }
        destruct (IH Hd) as (before & missing & after & -> & Hex & Hn).
        exists (p :: before), missing, after. split_and!; [done| |done].
        constructor; [by eexists|done].
      + by exists [], p, files. }
  exists missing. by apply checksum_run_missing.
Qed.

(** X7. With MD5, whenever [calculate_checksum] returns, the checksum is a
    string of exactly 32 lower-case hexadecimal digits; in particular it is
    never empty and has no whitespace to strip. *)
Theorem md5_checksum_shape (w w' : World) (files : list string)
    (checksum : string) ev :
  calculate_checksum (H := md5) files w = (Ok checksum, w', ev) →
  String.length checksum = 32%nat ∧
  is_hex_digest checksum = true ∧
  strip checksum = checksum.
Proof.
  intros Hrun.
  destruct (checksum_outcome (H := md5) w files) as [[datas Hd]|[p Hp]].
  - rewrite (checksum_run _ _ _ Hd) in Hrun. injection Hrun as <- _ _.
    unfold hexdigest. split_and!.
    + rewrite hex_length.
      change (hash_digest (hash_update hash_new (concat datas)))
        with (MD5.digest ([] ++ concat datas)).
      by rewrite md5_digest_length.
    + apply hex_is_hex_digest.
    + apply hex_digest_strip, hex_is_hex_digest.
  - rewrite Hp in Hrun. discriminate Hrun.
Qed.

Lemma md5_checksum_shape_witness :
  calculate_checksum (H := md5)
    ["/Volumes/BrahmaSSD/music/AiGen/a.wav";
     "/Volumes/BrahmaSSD/music/AiGen/old/b.wav";
     "/Volumes/BrahmaSSD/music/AiGen/c.wav"] scenario_A
  = (Ok "fe959319b53b5881ba4c904c1d2559e0", scenario_A,
     [Called Fcalculate_checksum]) ∧
  String.length "fe959319b53b5881ba4c904c1d2559e0" = 32%nat.
Proof.
  split; [exact scenario_A_checksum|].
  exact (proj1 (md5_checksum_shape _ _ _ _ _ scenario_A_checksum)).
Defined.

(** ** More on the checksum cache *)

Lemma all_space_append (s t : string) :
  all_space (s +:+ t) = all_space s && all_space t.
Proof.
  induction s as [|c s IH]; [done|].
  rewrite append_String. cbn [all_space]. by rewrite IH, andb_assoc.
Qed.

Lemma isspace_CR_LF : isspace CR = true ∧ isspace LF = true.
Proof. by vm_compute. Qed.

(** Newline translation of whitespace in front of a text that does not
    start with a line feed. *)
Lemma universal_newlines_space_prefix (n : nat) (ws t : string) :
  (String.length ws ≤ n)%nat →
  all_space ws = true →
  (∀ t', t ≠ String LF t') →
  universal_newlines (ws +:+ t)
  = universal_newlines ws +:+ universal_newlines t ∧
  all_space (universal_newlines ws) = true.
Proof.
  revert ws. induction n as [|n IH]; intros ws Hlen Hws Ht.
  { destruct ws; [done|simpl in Hlen; lia]. }
  destruct ws as [|c ws]; [done|].
  cbn [all_space] in Hws. apply andb_true_iff in Hws as [Hc Hws].
  rewrite append_String. cbn [universal_newlines].
  destruct (Ascii.eqb_spec c CR) as [->|Hne].
  - destruct ws as [|d ws].
    + rewrite append_empty_l. split; [|done].
      destruct t as [|d t]; [done|].
      destruct (Ascii.eqb_spec d LF) as [->|_]; [by destruct (Ht t)|done].
    + rewrite append_String.
      cbn [all_space] in Hws. apply andb_true_iff in Hws as [Hd Hws].
      cbn [String.length] in Hlen.
      destruct (Ascii.eqb_spec d LF) as [->|_].
      * destruct (IH ws) as [-> Hsp]; [lia|done|done|].
        split; [done|]. cbn [all_space]. by rewrite Hsp.
      * rewrite <-append_String.
        destruct (IH (String d ws)) as [-> Hsp];
          [cbn [String.length]; lia|cbn [all_space]; by rewrite Hd|done|].
        split; [done|]. cbn [all_space]. by rewrite Hsp.
  - cbn [String.length] in Hlen.
    destruct (IH ws) as [-> Hsp]; [lia|done|done|].
    split; [done|]. cbn [all_space]. by rewrite Hc, Hsp.
Qed.

Lemma universal_newlines_space (ws : string) :
  all_space ws = true → all_space (universal_newlines ws) = true.
Proof.
  intros Hws.
  by destruct (universal_newlines_space_prefix (String.length ws) ws ""
                 (le_n _) Hws) as [_ ?].
Qed.

Lemma universal_newlines_hex_prefix (d t : string) :
  is_hex_digest d = true →
  universal_newlines (d +:+ t) = d +:+ universal_newlines t.
Proof.
  induction d as [|c d IH]; [done|]. cbn [is_hex_digest].
  intros [Hc Hd]%andb_true_iff. rewrite !append_String.
  cbn [universal_newlines]. apply hex_digit_plain in Hc as (_ & -> & _).
  by rewrite IH.
Qed.

Lemma lstrip_space (ws : string) : all_space ws = true → lstrip ws = "".
Proof.
  intros Hws. rewrite <-(append_empty_r ws).
  rewrite lstrip_space_prefix by done. by rewrite lstrip_cases.
Qed.

Lemma strip_padded_digest (ws1 digest ws2 : string) :
  all_space ws1 = true → all_space ws2 = true →
  is_hex_digest digest = true →
  strip (universal_newlines (ws1 +:+ digest +:+ ws2)) = digest.
Proof.
  intros Hws1 Hws2 Hd. unfold strip.
  destruct digest as [|c d].
  - rewrite append_empty_l. rewrite lstrip_space; [done|].
    apply universal_newlines_space. by rewrite all_space_append, Hws1, Hws2.
  - pose proof Hd as Hd'. cbn [is_hex_digest] in Hd'.
    apply andb_true_iff in Hd' as [Hc _].
    destruct (hex_digit_plain c Hc) as (Hnsp & Hncr & _).
    destruct (universal_newlines_space_prefix (String.length ws1) ws1
                (String c d +:+ ws2) (le_n _) Hws1) as [-> Hsp1].
    { intros t' Heq. rewrite append_String in Heq. injection Heq as -> _.
      destruct isspace_CR_LF as [_ Hlf]. congruence. }
    rewrite universal_newlines_hex_prefix by done.
    rewrite lstrip_space_prefix by done.
    rewrite hex_digest_lstrip by done.
    apply hex_digest_rstrip; [done|]. by apply universal_newlines_space.
Qed.

Lemma all_space_valid (ws : string) :
  all_space ws = true → valid_utf8 ws = true.
Proof. intros Hws. unfold valid_utf8. by rewrite all_space_run. Qed.

Lemma padded_digest_valid (ws1 digest ws2 : string) :
  all_space ws1 = true → all_space ws2 = true →
  is_hex_digest digest = true →
  valid_utf8 (ws1 +:+ digest +:+ ws2) = true.
Proof.
  intros Hws1 Hws2 Hd.
  rewrite valid_utf8_app_l by by apply all_space_valid.
  rewrite valid_utf8_app_l by by apply hex_digest_valid.
  by apply all_space_valid.
Qed.

(** X8. The checksum reader forgives ASCII whitespace around the digest: a
    checksum file that holds a hex digest with spaces, tabs or line ends of
    any convention before or after it reads as the bare digest.  A file of
    such whitespace only, or an empty one, reads as the empty string. *)
Theorem checksum_reader_strips_padding (w : World)
    (path ws1 digest ws2 : string) :
  all_space ws1 = true →
  all_space ws2 = true →
  is_hex_digest digest = true →
  data_at w path = Some (encode (ws1 +:+ digest +:+ ws2)) →
  read_previous_checksum path w
  = (Ok digest, w, [Called Fread_previous_checksum]).
Proof.
  intros Hws1 Hws2 Hd Hdata.
  rewrite read_previous_checksum_run.
  - unfold persisted_checksum.
    by rewrite Hdata, decode_encode, strip_padded_digest.
  - unfold readable_text. rewrite Hdata, decode_encode.
    by apply padded_digest_valid.
Qed.

Lemma checksum_reader_strips_padding_witness :
  let padded := with_text checksum_file
                  ("  " +:+ "fe959319b53b5881ba4c904c1d2559e0"
                   +:+ String CR NL) scenario_A in
  all_space "" = true ∧
  all_space NL = true ∧
  all_space "  " = true ∧
  all_space (String CR NL) = true ∧
  is_hex_digest "fe959319b53b5881ba4c904c1d2559e0" = true ∧
  data_at scenario_C checksum_file
  = Some (encode ("" +:+ "fe959319b53b5881ba4c904c1d2559e0" +:+ NL)) ∧
  read_previous_checksum checksum_file scenario_C
  = (Ok "fe959319b53b5881ba4c904c1d2559e0", scenario_C,
     [Called Fread_previous_checksum]) ∧
  read_previous_checksum checksum_file padded
  = (Ok "fe959319b53b5881ba4c904c1d2559e0", padded,
     [Called Fread_previous_checksum]).
Proof.
  intros padded. split_and!; [reflexivity..| |].
  - exact (checksum_reader_strips_padding scenario_C checksum_file ""
             "fe959319b53b5881ba4c904c1d2559e0" NL eq_refl eq_refl eq_refl
             eq_refl).
  - exact (checksum_reader_strips_padding padded checksum_file "  "
             "fe959319b53b5881ba4c904c1d2559e0" (String CR NL) eq_refl
             eq_refl eq_refl eq_refl).
Defined.

(** ** More on the playlist builder *)

Lemma count_char_append (c : ascii) (s t : string) :
  count_char c (s +:+ t) = (count_char c s + count_char c t)%nat.
Proof.
  induction s as [|d s IH]; [done|].
  rewrite append_String. cbn [count_char]. rewrite IH. lia.
Qed.

Lemma count_char_manifest (files : list string) :
  Forall (λ file, count_char LF file = O) files →
  count_char LF (manifest_text files) = length files.
Proof.
  induction 1 as [|file files Hfile Hfiles IH]; [done|].
  cbn [manifest_text foldr length].
  change (foldr _ "" files) with (manifest_text files).
  rewrite !count_char_append, Hfile, IH. reflexivity.
Qed.

(** X9. When the paths can be encoded and none contains a line feed, the
    file that the playlist builder leaves at the destination has exactly as
    many line ends as there are files: one line per file.  (The builder
    does not check this: a path with a line feed in it adds lines.) *)
Theorem manifest_has_one_line_per_file (w : World) (files : list string)
    (playlist_path : string) :
  Forall (λ file, valid_utf8 file = true) files →
  Forall (λ file, count_char LF file = O) files →
  ∃ w' written,
    generate_playlist files playlist_path w
    = (Ok tt, w', [Called Fgenerate_playlist]) ∧
    data_at w' playlist_path = Some written ∧
    count_char LF (decode written) = length files.
Proof.
  intros Hvalid Hlf. eexists _, _. split_and!.
  - by apply generate_playlist_run.
  - unfold with_text. apply data_at_set_file.
  - simpl. rewrite decode_encode. by apply count_char_manifest.
Qed.

Lemma manifest_has_one_line_per_file_witness :
  let files := ["/music/it's.wav"; "/music/b.wav"] in
  Forall (λ file, valid_utf8 file = true) files ∧
  Forall (λ file, count_char LF file = O) files ∧
  ∃ w' written,
    generate_playlist files playlist_file scenario_B
    = (Ok tt, w', [Called Fgenerate_playlist]) ∧
    data_at w' playlist_file = Some written ∧
    count_char LF (decode written) = 2%nat.
Proof.
  intros files.
  assert (Forall (λ file, valid_utf8 file = true) files) as Hv.
  { apply (bool_decide_unpack _). vm_compute. exact I. }
  assert (Forall (λ file, count_char LF file = O) files) as Hf
    by (repeat constructor).
  exact (conj Hv (conj Hf
    (manifest_has_one_line_per_file scenario_B files playlist_file Hv Hf))).
Defined.

Example line_feed_in_a_path :
  let files := ["/music/a" +:+ NL +:+ "b.wav"] in
  ∃ w',
    generate_playlist files playlist_file scenario_B
    = (Ok tt, w', [Called Fgenerate_playlist]) ∧
    count_char LF <$> (decode <$> data_at w' playlist_file) = Some 2%nat.
Proof. eexists. split; vm_compute; reflexivity. Qed.

(** ** More on the loop *)

(** The scanner, with the file it raises for. *)
Lemma scanner_outcome_dangling (w : World) (directory extension : string) :
  (∃ files,
     get_files_sorted_by_mtime directory extension w
     = (Ok files, w, [Called Fget_files_sorted_by_mtime]) ∧
     Forall (λ p, is_Some (fs w !! p))
       (matching_files w directory extension)) ∨
  (∃ p,
     p ∈ matching_files w directory extension ∧ fs w !! p = None ∧
     get_files_sorted_by_mtime directory extension w
     = (Raise (FileNotFoundError p), w, [Called Fget_files_sorted_by_mtime])).
Proof.
  destruct (getmtime_outcome w (matching_files w directory extension))
    as [[Hex Hrun]|(p & Hp & Hnone & Hrun)].
  - left. eexists. split; [by apply scanner_run|done].
  - right. exists p. split_and!; [done..|].
    unfold get_files_sorted_by_mtime.
    erewrite bind_ok; [|done]. erewrite bind_ok; [|done].
    rewrite collect_triples. simpl. unfold sorted.
    erewrite bind_raise; [|exact Hrun]. done.
Qed.

Lemma replicate_events_S (n : nat) (ev : list Event) :
  concat (replicate (S n) ev) = ev ++ concat (replicate n ev).
Proof. done. Qed.

Section loop_extras.
Context `{HashAlg}.
Variable proc : list string → World → proc_outcome * World.

(** X10. On a directory without matching files the loop spins: every pass
    prints the no-files line and the next pass starts at once on the same
    world.  After any number of passes the loop is still running, nothing has
    been written or spawned, and the trace is that many repetitions of the
    scan and the message. *)
Theorem empty_directory_spins (w w0 : World) ev0 :
  get_files_sorted_by_mtime music_dir default_extension w = (Ok [], w0, ev0) →
  ∀ n, main_loop proc n w
       = (Looping, w, concat (replicate n no_files_events)).
Proof.
  intros Hscan n. induction n as [|n IH]; [done|].
  cbn [main_loop]. rewrite (loop_body_no_files proc _ _ _ Hscan), IH.
  by rewrite replicate_events_S.
Qed.

(** X11. A dangling entry among the matching files kills the loop in the
    first pass: the scanner's [FileNotFoundError] is not caught, nothing is
    printed, hashed, written or spawned, and no further pass runs. *)
Theorem dangling_file_crashes_loop (w : World) (p : string) :
  p ∈ matching_files w music_dir default_extension →
  fs w !! p = None →
  ∃ q,
    q ∈ matching_files w music_dir default_extension ∧
    fs w !! q = None ∧
    ∀ n, main_loop proc (S n) w
         = (Crashed (FileNotFoundError q), w,
            [Called Fget_files_sorted_by_mtime]).
Proof.
  intros Hp Hnone.
  destruct (scanner_outcome_dangling w music_dir default_extension)
    as [(files & _ & Hex)|(q & Hq & Hqnone & Hrun)].
  - rewrite Forall_forall in Hex. destruct (Hex p Hp) as [f Hf]. congruence.
  - exists q. split_and!; [done..|]. intros n. cbn [main_loop].
    by rewrite (loop_body_scan_raises proc _ _ _ _ Hrun).
Qed.

(** X13. In a pass that spawns the transcoder, the manifest is complete
    before the transcoder starts: the playlist builder has returned, the
    transcoder is spawned on the world the builder left, which differs from
    the one the pass began with in the manifest file alone, and the
    manifest lists exactly the scanned files, in the scanner's order. *)
Theorem transcoder_sees_fresh_manifest (w w0 : World) files ev0
    (o : proc_outcome) :
  get_files_sorted_by_mtime music_dir default_extension w = (Ok files, w0, ev0) →
  Spawned (ffmpeg_cmd playlist_file output_file) o ∈ (loop_body proc w).2 →
  ∃ w1 tail,
    generate_playlist files playlist_file w
    = (Ok tt, w1, [Called Fgenerate_playlist]) ∧
    decode <$> data_at w1 playlist_file = Some (manifest_text files) ∧
    (∀ p, p ≠ playlist_file → fs w1 !! p = fs w !! p) ∧
    walk_of w1 = walk_of w ∧
    proc (ffmpeg_cmd playlist_file output_file) w1
    = (o, (proc (ffmpeg_cmd playlist_file output_file) w1).2) ∧
    (loop_body proc w).2 = check_events ++ transcode_events o ++ tail ∧
    (∀ e, spawn_result (ffmpeg_cmd playlist_file output_file) o = Raise e →
          loop_body proc w
          = (Raise e, (proc (ffmpeg_cmd playlist_file output_file) w1).2,
             check_events ++ transcode_events o)).
Proof.
  intros Hscan Hin.
  destruct files as [|file files].
  { rewrite (loop_body_no_files proc _ _ _ Hscan) in Hin.
    unfold no_files_events in Hin. cbn [snd] in Hin. split_elem_of Hin. }
  destruct (checksum_of_scan _ _ _ _ Hscan) as (current & Hsum & Hhex).
  assert (file :: files ≠ []) as Hne by done.
  pose proof (loop_body_found proc _ _ _ _ _ Hscan Hne Hsum
                (hex_digest_valid _ Hhex)) as Hb.
  cbv zeta in Hb. revert Hin Hb.
  set (w1 := with_text playlist_file (manifest_text (file :: files)) w).
  set (ffmpeg := ffmpeg_cmd playlist_file output_file).
  set (o1 := (proc ffmpeg w1).1).
  intros Hin Hb.
  assert (first_unencodable (file :: files) = None ∧ o = o1 ∧
          ∃ tail, (loop_body proc w).2
                  = check_events ++ transcode_events o1 ++ tail)
    as (Hfiles & -> & tail & Htail).
  { rewrite Hb in Hin |- *. clear Hb.
    destruct (readable_text w checksum_file); cycle 1.
    { by apply spawned_in_unreadable_pass in Hin. }
    destruct (negb _ || negb _); cycle 1.
    { apply spawned_in_skipped_pass in Hin.
      by apply ffmpeg_is_not_mpv in Hin. }
    destruct (first_unencodable (file :: files)) as [[written bad]|].
    { by apply spawned_in_unencodable_pass in Hin. }
    split; [done|].
    destruct (spawn_result ffmpeg o1) as [[]|e]; cbn [snd] in Hin |- *.
    - apply spawned_in_rebuilt_pass in Hin as [Hin|Hin].
      + injection Hin as ->. split; [done|]. by eexists.
      + by apply ffmpeg_is_not_mpv in Hin.
    - apply spawned_in_failed_rebuild in Hin. injection Hin as ->.
      split; [done|]. exists []. by rewrite app_nil_r. }
  exists w1, tail. split_and!.
  - rewrite generate_playlist_outcome. by rewrite Hfiles.
  - apply data_at_with_text.
  - intros p Hp. by apply fs_set_file_ne.
  - done.
  - subst o1. by destruct (proc ffmpeg w1).
  - done.
  - intros e He. rewrite Hb, Hfiles, He.
    rewrite Htail in Hin. rewrite Hb, Hfiles, He in Htail.
    destruct (readable_text w checksum_file); cycle 1.
    { cbn [snd] in Htail. by destruct tail. }
    destruct (negb _ || negb _); [done|].
    cbn [snd] in Htail. apply (f_equal (λ l, l !! 3%nat)) in Htail.
    by vm_compute in Htail.
Qed.

(** One pass leaves alone every path that is neither the manifest nor the
    checksum file and that the two tools leave alone. *)
Lemma pass_keeps_other_paths (w : World) (p : string) :
  (∀ w', fs (proc (ffmpeg_cmd playlist_file output_file) w').2 !! p
         = fs w' !! p) →
  (∀ w', fs (proc (mpv_cmd output_file) w').2 !! p = fs w' !! p) →
  p ≠ playlist_file → p ≠ checksum_file →
  fs (loop_body proc w).1.2 !! p = fs w !! p.
Proof.
  intros Hffmpeg Hmpv Hpl Hck.
  destruct (loop_body_cases proc w)
    as [[e Hb]|[Hb|(files & current & Hscan & Hne & Hsum & Hhex)]].
  - by rewrite Hb.
  - by rewrite Hb.
  - rewrite (loop_body_found proc _ _ _ _ _ Hscan Hne Hsum
               (hex_digest_valid _ Hhex)).
    destruct (readable_text w checksum_file); [|done].
    destruct (negb _ || negb _).
    + destruct (first_unencodable files) as [[written bad]|].
      { cbn [fst snd]. unfold with_text. by rewrite fs_set_file_ne. }
      destruct (spawn_result _ _) as [[]|e1]; cbn [fst snd].
      * rewrite Hmpv. unfold with_text. rewrite fs_set_file_ne by done.
        rewrite Hffmpeg. by rewrite fs_set_file_ne.
      * rewrite Hffmpeg. unfold with_text. by rewrite fs_set_file_ne.
    + cbn [fst snd]. by rewrite Hmpv.
Qed.

(** X14. The script itself writes two files only, the manifest and the
    checksum file.  Any other path that the transcoder and the player leave
    alone (a music file, say) holds after any number of passes what it held
    before the first. *)
Theorem loop_touches_only_scratch_files (p : string) :
  (∀ w', fs (proc (ffmpeg_cmd playlist_file output_file) w').2 !! p
         = fs w' !! p) →
  (∀ w', fs (proc (mpv_cmd output_file) w').2 !! p = fs w' !! p) →
  p ≠ playlist_file → p ≠ checksum_file →
  ∀ n w, fs (main_loop proc n w).1.2 !! p = fs w !! p.
Proof.
  intros Hffmpeg Hmpv Hpl Hck n. induction n as [|n IH]; intros w; [done|].
  cbn [main_loop].
  pose proof (pass_keeps_other_paths w p Hffmpeg Hmpv Hpl Hck) as Hpass.
  destruct (loop_body proc w) as [[[[]|e] w1] ev1]; cbn [fst snd] in Hpass.
  - specialize (IH w1).
    destruct (main_loop proc n w1) as [[st w2] ev2]; cbn [fst snd] in *.
    congruence.
  - done.
Qed.

(** X15. The steady state.  When the persisted digest is the digest of the
    scanned files, the artifact exists, and the player exits with status 0
    leaving the world as it is, every pass is a skip-and-play pass: the loop
    runs on for ever without writing a manifest, spawning the transcoder or
    writing the checksum. *)
Theorem steady_state_replays (w w0 : World) files ev0 :
  get_files_sorted_by_mtime music_dir default_extension w = (Ok files, w0, ev0) →
  files ≠ [] →
  (calculate_checksum files w).1.1 = Ok (persisted_checksum w checksum_file) →
  path_exists w output_file = true →
  proc (mpv_cmd output_file) w = (Exited 0, w) →
  ∀ n, main_loop proc n w
       = (Looping, w,
          concat (replicate n
            (check_events ++ skip_events ++ play_events (Exited 0)))).
Proof.
  intros Hscan Hne Hpers Hart Hplayer.
  destruct (checksum_of_scan _ _ _ _ Hscan) as (current & Hsum & Hhex).
  rewrite Hsum in Hpers. injection Hpers as ->.
  assert (loop_body proc w
          = (Ok tt, w, check_events ++ skip_events ++ play_events (Exited 0)))
    as Hpass.
  { rewrite (loop_body_found proc _ _ _ _ _ Hscan Hne Hsum
               (hex_digest_valid _ Hhex)).
    rewrite (persisted_hex_readable _ _ Hhex).
    by rewrite String.eqb_refl, Hart, Hplayer. }
  intros n. induction n as [|n IH]; [done|].
  cbn [main_loop]. rewrite Hpass, IH. by rewrite replicate_events_S.
Qed.
End loop_extras.

Lemma md5_checksum_nonempty (w w' : World) (files : list string)
    (checksum : string) ev :
  calculate_checksum (H := md5) files w = (Ok checksum, w', ev) →
  checksum ≠ "".
Proof.
  intros Hrun.
  destruct (checksum_outcome (H := md5) w files) as [[datas Hd]|[p Hp]].
  - rewrite (checksum_run _ _ _ Hd) in Hrun. injection Hrun as <- _ _.
    intros Hempty. apply (f_equal String.length) in Hempty.
    unfold hexdigest in Hempty. rewrite hex_length in Hempty.
    change (hash_digest (hash_update hash_new (concat datas)))
      with (MD5.digest ([] ++ concat datas)) in Hempty.
    rewrite md5_digest_length in Hempty. discriminate Hempty.
  - rewrite Hp in Hrun. discriminate Hrun.
Qed.

(** X16. The first run.  When the checksum file is missing, empty or
    blank (ASCII whitespace only) and the paths can be encoded, a pass that
    finds files always rebuilds, whether the artifact exists or not, an MD5
    digest being never the empty string: the pass writes the manifest of
    the scanned files, spawns the transcoder on it and goes on as the
    transcoder's exit tells. *)
Theorem first_run_rebuilds
    (proc : list string → World → proc_outcome * World)
    (w w0 : World) files ev0 :
  get_files_sorted_by_mtime music_dir default_extension w = (Ok files, w0, ev0) →
  files ≠ [] →
  Forall (λ p, valid_utf8 p = true) files →
  (fs w !! checksum_file = None ∨
   ∃ ws, all_space ws = true ∧ data_at w checksum_file = Some (encode ws)) →
  ∃ current,
    calculate_checksum (H := md5) files w
    = (Ok current, w, [Called Fcalculate_checksum]) ∧
    let ffmpeg := ffmpeg_cmd playlist_file output_file in
    let mpv := mpv_cmd output_file in
    let w1 := with_text playlist_file (manifest_text files) w in
    let o1 := (proc ffmpeg w1).1 in
    let w3 := with_text checksum_file current (proc ffmpeg w1).2 in
    read_previous_checksum checksum_file w
    = (Ok "", w, [Called Fread_previous_checksum]) ∧
    generate_playlist files playlist_file w
    = (Ok tt, w1, [Called Fgenerate_playlist]) ∧
    decode <$> data_at w1 playlist_file = Some (manifest_text files) ∧
    loop_body (H := md5) proc w
    = match spawn_result ffmpeg o1 with
      | Ok _ =>
          (spawn_result mpv (proc mpv w3).1, (proc mpv w3).2,
           check_events ++ transcode_events o1
           ++ [Called Fwrite_new_checksum] ++ play_events (proc mpv w3).1)
      | Raise e =>
          (Raise e, (proc ffmpeg w1).2, check_events ++ transcode_events o1)
      end ∧
    Spawned ffmpeg o1 ∈ (loop_body (H := md5) proc w).2.
Proof.
  intros Hscan Hne Hfiles Hblank.
  assert (persisted_checksum w checksum_file = ""
          ∧ readable_text w checksum_file = true) as [Hprev Hread].
  { unfold persisted_checksum, readable_text.
    destruct Hblank as [Hnone|(ws & Hws & Hdata)].
    - unfold data_at. by rewrite Hnone.
    - rewrite Hdata, decode_encode. split.
      + rewrite <-(append_empty_r ws) at 1.
        by apply (strip_padded_digest ws "" "").
      + by apply all_space_valid. }
  destruct (checksum_of_scan (H := md5) _ _ _ _ Hscan)
    as (current & Hsum & Hhex).
  pose proof (md5_checksum_nonempty _ _ _ _ _ Hsum) as Hnonempty.
  exists current. split; [done|]. intros ffmpeg mpv w1 o1 w3.
  pose proof (loop_body_found_plain (H := md5) proc _ _ _ _ _ Hscan Hne Hsum
                (hex_digest_valid _ Hhex) Hread Hfiles) as Hb.
  cbv zeta in Hb. fold ffmpeg mpv w1 o1 w3 in Hb. rewrite Hprev in Hb.
  destruct (String.eqb_spec current "") as [Heq|_]; [done|].
  cbn [negb orb] in Hb.
  split_and!.
  - rewrite read_previous_checksum_run by done. by rewrite Hprev.
  - by apply generate_playlist_run.
  - apply data_at_with_text.
  - done.
  - rewrite Hb. destruct (spawn_result ffmpeg o1) as [[]|e]; cbn [snd].
    + apply ffmpeg_spawned_in_transcode.
    + pose proof (ffmpeg_spawned_in_transcode o1 []) as Hin.
      by rewrite app_nil_r in Hin.
Qed.

(** ** The further properties at work on concrete worlds *)

Lemma empty_directory_spins_witness :
  get_files_sorted_by_mtime music_dir default_extension scenario_B
  = (Ok [], scenario_B, [Called Fget_files_sorted_by_mtime]) ∧
  main_loop (H := md5) working_proc 3 scenario_B
  = (Looping, scenario_B, concat (replicate 3 no_files_events)).
Proof.
  split; [exact scenario_B_scan|].
  exact (empty_directory_spins (H := md5) working_proc scenario_B scenario_B
           _ scenario_B_scan 3%nat).
Defined.

Lemma dangling_file_crashes_loop_witness :
  let ghost := "/Volumes/BrahmaSSD/music/AiGen/ghost.wav" in
  ghost ∈ matching_files scenario_D music_dir default_extension ∧
  fs scenario_D !! ghost = None ∧
  ∃ q, main_loop (H := md5) working_proc 2 scenario_D
       = (Crashed (FileNotFoundError q), scenario_D,
          [Called Fget_files_sorted_by_mtime]).
Proof.
  intros ghost.
  assert (ghost ∈ matching_files scenario_D music_dir default_extension)
    as Hin.
  { apply (bool_decide_unpack _). vm_compute. exact I. }
  assert (fs scenario_D !! ghost = None) as Hnone by reflexivity.
  destruct (dangling_file_crashes_loop (H := md5) working_proc scenario_D
              ghost Hin Hnone) as (q & _ & _ & Hloop).
  split_and!; [exact Hin|exact Hnone|].
  exists q. exact (Hloop 1%nat).
Defined.

Lemma transcoder_sees_fresh_manifest_witness :
  let files := ["/Volumes/BrahmaSSD/music/AiGen/a.wav";
                "/Volumes/BrahmaSSD/music/AiGen/old/b.wav";
                "/Volumes/BrahmaSSD/music/AiGen/c.wav"] in
  let ffmpeg := ffmpeg_cmd playlist_file output_file in
  get_files_sorted_by_mtime music_dir default_extension scenario_A
  = (Ok files, scenario_A, [Called Fget_files_sorted_by_mtime]) ∧
  Spawned ffmpeg (Exited 1)
  ∈ (loop_body (H := md5) failing_proc scenario_A).2 ∧
  ∃ w1,
    generate_playlist files playlist_file scenario_A
    = (Ok tt, w1, [Called Fgenerate_playlist]) ∧
    decode <$> data_at w1 playlist_file = Some (manifest_text files) ∧
    loop_body (H := md5) failing_proc scenario_A
    = (Raise (CalledProcessError 1 ffmpeg), (failing_proc ffmpeg w1).2,
       check_events ++ transcode_events (Exited 1)).
Proof.
  intros files ffmpeg.
  assert (Spawned ffmpeg (Exited 1)
          ∈ (loop_body (H := md5) failing_proc scenario_A).2) as Hin.
  { apply (bool_decide_unpack _). vm_compute. exact I. }
  destruct (transcoder_sees_fresh_manifest (H := md5) failing_proc
              scenario_A scenario_A files _ (Exited 1) scenario_A_scan Hin)
    as (w1 & tail & Hgen & Hm & _ & _ & _ & _ & Hfail).
  split_and!; [exact scenario_A_scan|exact Hin|].
  exists w1. exact (conj Hgen (conj Hm (Hfail _ eq_refl))).
Defined.

Lemma loop_touches_only_scratch_files_witness :
  let p := "/Volumes/BrahmaSSD/music/AiGen/a.wav" in
  (∀ w', fs (working_proc (ffmpeg_cmd playlist_file output_file) w').2 !! p
         = fs w' !! p) ∧
  (∀ w', fs (working_proc (mpv_cmd output_file) w').2 !! p = fs w' !! p) ∧
  p ≠ playlist_file ∧ p ≠ checksum_file ∧
  fs (main_loop (H := md5) working_proc 3 scenario_A).1.2 !! p
  = fs scenario_A !! p.
Proof.
  intros p.
  assert (∀ w', fs (working_proc (ffmpeg_cmd playlist_file output_file) w').2
                  !! p = fs w' !! p) as Hffmpeg.
  { intros w'. apply fs_set_file_ne. discriminate. }
  assert (∀ w', fs (working_proc (mpv_cmd output_file) w').2 !! p
                = fs w' !! p) as Hmpv by (intros w'; reflexivity).
  assert (p ≠ playlist_file) as Hpl by discriminate.
  assert (p ≠ checksum_file) as Hck by discriminate.
  exact (conj Hffmpeg (conj Hmpv (conj Hpl (conj Hck
    (loop_touches_only_scratch_files (H := md5) working_proc p
       Hffmpeg Hmpv Hpl Hck 3%nat scenario_A))))).
Defined.

Lemma scenario_C_scan :
  get_files_sorted_by_mtime music_dir default_extension scenario_C
  = (Ok ["/Volumes/BrahmaSSD/music/AiGen/a.wav";
         "/Volumes/BrahmaSSD/music/AiGen/old/b.wav";
         "/Volumes/BrahmaSSD/music/AiGen/c.wav"],
     scenario_C, [Called Fget_files_sorted_by_mtime]).
Proof. vm_compute. reflexivity. Qed.

Lemma steady_state_replays_witness :
  let files := ["/Volumes/BrahmaSSD/music/AiGen/a.wav";
                "/Volumes/BrahmaSSD/music/AiGen/old/b.wav";
                "/Volumes/BrahmaSSD/music/AiGen/c.wav"] in
  get_files_sorted_by_mtime music_dir default_extension scenario_C
  = (Ok files, scenario_C, [Called Fget_files_sorted_by_mtime]) ∧
  files ≠ [] ∧
  (calculate_checksum (H := md5) files scenario_C).1.1
  = Ok (persisted_checksum scenario_C checksum_file) ∧
  path_exists scenario_C output_file = true ∧
  working_proc (mpv_cmd output_file) scenario_C = (Exited 0, scenario_C) ∧
  main_loop (H := md5) working_proc 2 scenario_C
  = (Looping, scenario_C,
     concat (replicate 2
       (check_events ++ skip_events ++ play_events (Exited 0)))).
Proof.
  intros files.
  assert (files ≠ []) as Hne by discriminate.
  assert ((calculate_checksum (H := md5) files scenario_C).1.1
          = Ok (persisted_checksum scenario_C checksum_file)) as Hpers
    by (vm_compute; reflexivity).
  assert (path_exists scenario_C output_file = true) as Hart
    by (vm_compute; reflexivity).
  assert (working_proc (mpv_cmd output_file) scenario_C
          = (Exited 0, scenario_C)) as Hplayer by reflexivity.
  exact (conj scenario_C_scan (conj Hne (conj Hpers (conj Hart (conj Hplayer
    (steady_state_replays (H := md5) working_proc scenario_C scenario_C
       files _ scenario_C_scan Hne Hpers Hart Hplayer 2%nat)))))).
Defined.

Lemma first_run_rebuilds_witness :
  let files := ["/Volumes/BrahmaSSD/music/AiGen/a.wav";
                "/Volumes/BrahmaSSD/music/AiGen/old/b.wav";
                "/Volumes/BrahmaSSD/music/AiGen/c.wav"] in
  let ffmpeg := ffmpeg_cmd playlist_file output_file in
  let w1 := with_text playlist_file (manifest_text files) scenario_A in
  let blank := with_text checksum_file (" " +:+ NL) scenario_C in
  get_files_sorted_by_mtime music_dir default_extension scenario_A
  = (Ok files, scenario_A, [Called Fget_files_sorted_by_mtime]) ∧
  files ≠ [] ∧
  Forall (λ p, valid_utf8 p = true) files ∧
  fs scenario_A !! checksum_file = None ∧
  generate_playlist files playlist_file scenario_A
  = (Ok tt, w1, [Called Fgenerate_playlist]) ∧
  Spawned ffmpeg (failing_proc ffmpeg w1).1
  ∈ (loop_body (H := md5) failing_proc scenario_A).2 ∧
  get_files_sorted_by_mtime music_dir default_extension blank
  = (Ok files, blank, [Called Fget_files_sorted_by_mtime]) ∧
  all_space (" " +:+ NL) = true ∧
  data_at blank checksum_file = Some (encode (" " +:+ NL)) ∧
  path_exists blank output_file = true ∧
  Spawned ffmpeg
    (working_proc ffmpeg
       (with_text playlist_file (manifest_text files) blank)).1
  ∈ (loop_body (H := md5) working_proc blank).2.
Proof.
  intros files ffmpeg w1 blank.
  assert (files ≠ []) as Hne by discriminate.
  assert (fs scenario_A !! checksum_file = None) as Hnone by reflexivity.
  assert (get_files_sorted_by_mtime music_dir default_extension blank
          = (Ok files, blank, [Called Fget_files_sorted_by_mtime])) as Hscan
    by (vm_compute; reflexivity).
  assert (all_space (" " +:+ NL) = true) as Hws by reflexivity.
  assert (data_at blank checksum_file = Some (encode (" " +:+ NL))) as Hdata
    by reflexivity.
  assert (path_exists blank output_file = true) as Hart
    by (vm_compute; reflexivity).
  destruct (first_run_rebuilds failing_proc scenario_A scenario_A files _
              scenario_A_scan Hne scenario_A_files_encodable
              (or_introl Hnone)) as (current & _ & _ & Hgen & _ & _ & Hin).
  destruct (first_run_rebuilds working_proc blank blank files _
              Hscan Hne scenario_A_files_encodable
              (or_intror (ex_intro _ (" " +:+ NL) (conj Hws Hdata))))
    as (current' & _ & _ & _ & _ & _ & Hin').
  exact (conj scenario_A_scan (conj Hne (conj scenario_A_files_encodable
    (conj Hnone (conj Hgen (conj Hin (conj Hscan (conj Hws (conj Hdata
    (conj Hart Hin')))))))))).
Defined.
